(** * Real-time distribution hub: [WebSocketManager] and [websocket_endpoint]

    A shallow embedding of [backend/websocket_manager.py] and of the
    WebSocket route and the price alerts of [backend/simple_backend.py],
    with the properties of the subscription hub stated over it.

    Python objects are kept in explicit stores so that aliasing is visible:
    - [heap]    : the [ClientSubscription] objects, addressed by location;
    - [sockets] : the [WebSocket] objects (transport state and what was sent);
    - [tasks]   : the [asyncio.Task] objects created by [asyncio.create_task].
    [active_connections] is a list of locations into [heap], [update_tasks]
    a dictionary from task keys to indices into [tasks].

    Every coroutine is run to completion at the place where it is awaited
    (one scheduling, no interleaving at [await] points).  Timestamps
    ([datetime.now()], hence the [last_update] dictionary) and the textual
    JSON encoding are left out: messages are kept as structured values.
    What the outside world does (a peer going away, the answer of the
    price service, the text a client sends) is an input of the model.

    Layout: the transcription of the code; then the notions derived from
    it (the state each operation leaves, the invariants, the sentences of
    the specification); then the properties, named after the claim they
    settle ([C1] to [C10]); then further properties of the same code
    ([X1] to [X21]); and last the fan-out property ([C3]), which is stated
    against the subscriptions of the specification and rests on lemmas of
    both parts. *)

From stdpp Require Import gmap strings list fin_maps.

Open Scope string_scope.
Open Scope list_scope.

(* ===================================================================== *)
(** * Data model *)
(* ===================================================================== *)

(** [class SubscriptionType(Enum)] *)
Inductive SubscriptionType :=
  | PRICE_UPDATES
  | PORTFOLIO_UPDATES
  | NEWS_UPDATES
  | ALERTS
  | TECHNICAL_INDICATORS.

#[global] Instance SubscriptionType_eq_dec : EqDecision SubscriptionType.
Proof. solve_decision. Defined.

Definition SubscriptionType_index (t : SubscriptionType) : nat :=
  match t with
  | PRICE_UPDATES => 0 | PORTFOLIO_UPDATES => 1 | NEWS_UPDATES => 2
  | ALERTS => 3 | TECHNICAL_INDICATORS => 4
  end.

Definition SubscriptionType_of_index (n : nat) : option SubscriptionType :=
  match n with
  | 0 => Some PRICE_UPDATES | 1 => Some PORTFOLIO_UPDATES
  | 2 => Some NEWS_UPDATES | 3 => Some ALERTS
  | 4 => Some TECHNICAL_INDICATORS | _ => None
  end.

#[global] Instance SubscriptionType_countable : Countable SubscriptionType.
Proof.
  apply (inj_countable SubscriptionType_index SubscriptionType_of_index).
  by intros [].
Defined.

(** The [.value] of each member. *)
Definition value (t : SubscriptionType) : string :=
  match t with
  | PRICE_UPDATES => "price_updates"
  | PORTFOLIO_UPDATES => "portfolio_updates"
  | NEWS_UPDATES => "news_updates"
  | ALERTS => "alerts"
  | TECHNICAL_INDICATORS => "technical_indicators"
  end.

Definition all_SubscriptionType : list SubscriptionType :=
  [PRICE_UPDATES; PORTFOLIO_UPDATES; NEWS_UPDATES; ALERTS; TECHNICAL_INDICATORS].

(** Exceptions that the modelled code can raise or catch.  [ValueError] is
    what [SubscriptionType(v)] raises for a value that names no member,
    [JSONDecodeError] what [json.loads] raises; [WebSocketDisconnect] and
    [RuntimeError] come from the transport, [ClientError] and [TimeoutError]
    from the HTTP client. *)
Inductive exn :=
  | WebSocketDisconnect
  | RuntimeError
  | ValueError
  | JSONDecodeError
  | ClientError
  | TimeoutError.

#[global] Instance exn_eq_dec : EqDecision exn.
Proof. solve_decision. Defined.

(** [SubscriptionType(v)]: look a member up by value.  The argument is what
    [message.get("subscription_type")] returned, [None] when the key is
    missing. *)
Definition SubscriptionType_call (v : option string) : exn + SubscriptionType :=
  match v with
  | None => inl ValueError
  | Some v =>
      match filter (λ t, value t = v) all_SubscriptionType with
      | t :: _ => inr t
      | [] => inl ValueError
      end
  end.

(** The dictionary built by [_fetch_price_data]; the four numbers are
    carried around and never computed with. *)
Record PriceData := {
  price : Z;
  price_change_24h : Z;
  volume_24h : Z;
  market_cap : Z;
}.

#[global] Instance PriceData_eq_dec : EqDecision PriceData.
Proof. solve_decision. Defined.

(** One coin's entry of the upstream JSON answer; a missing field is [None]. *)
Record CoinData := {
  usd : option Z;
  usd_24h_change : option Z;
  usd_24h_vol : option Z;
  usd_market_cap : option Z;
}.

(** Outbound messages (the dictionaries handed to [send_personal_message]),
    without their ["timestamp"] field. *)
Inductive Message :=
  | connection_established (client_id : string) (available_subscriptions : list string)
  | subscription_confirmed (subscription_type : string) (watched_coins : option (list string))
  | unsubscription_confirmed (subscription_type : string)
  | price_update (coin : string) (data : PriceData)
  | news_update (new_articles : list string) (count : nat)
  | technical_indicators_update (coin : string) (trend : string)
  | alert (data : string)
  | pong
  | current_prices (data : gmap string PriceData).

#[global] Instance Message_eq_dec : EqDecision Message.
Proof. solve_decision. Defined.

(** [@dataclass class ClientSubscription].  The [websocket] field holds the
    identity of a [WebSocket] object (an index into [sockets]); Starlette
    compares connections by identity. *)
Record ClientSubscription := {
  client_id : string;
  websocket : nat;
  subscriptions : gset SubscriptionType;
  watched_coins : gset string;
  user_id : option string;
}.

#[global] Instance ClientSubscription_eq_dec : EqDecision ClientSubscription.
Proof. solve_decision. Defined.

(** A [WebSocket] object as the hub sees it: [ws_fault = Some e] means that
    every [send_text] on it raises [e] (peer gone, close already sent);
    [ws_sent] is what [send_text] has put on the wire, oldest first. *)
Record WebSocket := {
  ws_fault : option exn;
  ws_sent : list Message;
}.

#[global] Instance WebSocket_eq_dec : EqDecision WebSocket.
Proof. solve_decision. Defined.

(** The coroutine a background task runs. *)
Inductive Coroutine :=
  | price_update_loop (coin : string)
  | news_update_loop
  | indicators_update_loop (coin : string).

#[global] Instance Coroutine_eq_dec : EqDecision Coroutine.
Proof. solve_decision. Defined.

(** An [asyncio.Task]: its coroutine and whether [cancel()] was called. *)
Record Task := {
  coro : Coroutine;
  cancelled : bool;
}.

#[global] Instance Task_eq_dec : EqDecision Task.
Proof. solve_decision. Defined.

(** Lines written with [logging.error] or [print]. *)
Inductive LogEntry :=
  | log_send_error (e : exn)
  | log_broadcast_error (client_id : string) (e : exn)
  | log_fetch_error (coin : string) (e : exn)
  | log_price_loop_error (coin : string) (e : exn)
  | log_endpoint_error (client_id : string) (e : exn).

#[global] Instance LogEntry_eq_dec : EqDecision LogEntry.
Proof. solve_decision. Defined.

(** The [WebSocketManager] instance together with the objects it refers to. *)
Record World := {
  active_connections : list nat;
  price_cache : gmap string PriceData;
  update_tasks : gmap string nat;
  heap : list ClientSubscription;
  sockets : list WebSocket;
  tasks : list Task;
  log : list LogEntry;
}.

#[global] Instance World_eq_dec : EqDecision World.
Proof. solve_decision. Defined.

(** [WebSocketManager.__init__], with no object allocated yet. *)
Definition init : World :=
  {| active_connections := []; price_cache := ∅; update_tasks := ∅;
     heap := []; sockets := []; tasks := []; log := [] |}.

(** Field updates of [World]. *)
Definition set_active_connections (f : list nat → list nat) (s : World) : World :=
  {| active_connections := f (active_connections s); price_cache := price_cache s;
     update_tasks := update_tasks s; heap := heap s; sockets := sockets s;
     tasks := tasks s; log := log s |}.

Definition set_price_cache (f : gmap string PriceData → gmap string PriceData)
    (s : World) : World :=
  {| active_connections := active_connections s; price_cache := f (price_cache s);
     update_tasks := update_tasks s; heap := heap s; sockets := sockets s;
     tasks := tasks s; log := log s |}.

Definition set_update_tasks (f : gmap string nat → gmap string nat) (s : World) : World :=
  {| active_connections := active_connections s; price_cache := price_cache s;
     update_tasks := f (update_tasks s); heap := heap s; sockets := sockets s;
     tasks := tasks s; log := log s |}.

Definition set_heap (f : list ClientSubscription → list ClientSubscription)
    (s : World) : World :=
  {| active_connections := active_connections s; price_cache := price_cache s;
     update_tasks := update_tasks s; heap := f (heap s); sockets := sockets s;
     tasks := tasks s; log := log s |}.

Definition set_sockets (f : list WebSocket → list WebSocket) (s : World) : World :=
  {| active_connections := active_connections s; price_cache := price_cache s;
     update_tasks := update_tasks s; heap := heap s; sockets := f (sockets s);
     tasks := tasks s; log := log s |}.

Definition set_tasks (f : list Task → list Task) (s : World) : World :=
  {| active_connections := active_connections s; price_cache := price_cache s;
     update_tasks := update_tasks s; heap := heap s; sockets := sockets s;
     tasks := f (tasks s); log := log s |}.

Definition set_log (f : list LogEntry → list LogEntry) (s : World) : World :=
  {| active_connections := active_connections s; price_cache := price_cache s;
     update_tasks := update_tasks s; heap := heap s; sockets := sockets s;
     tasks := tasks s; log := f (log s) |}.

(* ===================================================================== *)
(** * Computations: state and exceptions *)
(* ===================================================================== *)

(** A call either returns or raises; the state changes made before a raise
    stay, as in Python. *)
Inductive result (A : Type) :=
  | Ok (a : A)
  | Raise (e : exn).
Arguments Ok {A} a.
Arguments Raise {A} e.

Definition M (A : Type) : Type := World → result A * World.

Definition ret {A} (a : A) : M A := λ s, (Ok a, s).
Definition raise {A} (e : exn) : M A := λ s, (Raise e, s).
Definition bind {A B} (m : M A) (k : A → M B) : M B :=
  λ s, match m s with
       | (Ok a, s') => k a s'
       | (Raise e, s') => (Raise e, s')
       end.
(** [try: m except Exception as e: h e] *)
Definition try_except {A} (m : M A) (h : exn → M A) : M A :=
  λ s, match m s with
       | (Ok a, s') => (Ok a, s')
       | (Raise e, s') => h e s'
       end.
Definition get : M World := λ s, (Ok s, s).
Definition modify (f : World → World) : M unit := λ s, (Ok tt, f s).
Definition lift_result {A} (r : exn + A) : M A :=
  match r with inl e => raise e | inr a => ret a end.

Notation "'do' x <- m ; k" := (bind m (λ x, k))
  (at level 10, x name, m at level 100, k at level 200,
   format "'[v' 'do'  x  <-  m ; '/' k ']'").
Notation "m >> k" := (bind m (λ _, k))
  (at level 100, k at level 200, right associativity).

(** The state a computation leaves. *)
Definition exec {A} (m : M A) (s : World) : World := (m s).2.

Definition log_error (l : LogEntry) : M unit := modify (set_log (λ ls, ls ++ [l])).

(** [for x in xs: body x] *)
Fixpoint for_each {A} (xs : list A) (body : A → M unit) : M unit :=
  match xs with
  | [] => ret tt
  | x :: xs' => body x >> for_each xs' body
  end.

(* ===================================================================== *)
(** * Python primitives used by the hub *)
(* ===================================================================== *)

(** Truthiness of [str] and of [list]. *)
Definition str_truthy (c : option string) : bool :=
  match c with
  | None => false
  | Some c => negb (bool_decide (c = ""))
  end.
Definition list_truthy {A} (l : list A) : bool :=
  match l with [] => false | _ => true end.

(** [s.replace(old, new)] for a non-empty [old]: every non-overlapping
    occurrence, scanning from the left.  [skip] counts the characters of a
    matched occurrence that are still to be passed over. *)
Fixpoint replace_from (old new : string) (skip : nat) (s : string) : string :=
  match s with
  | EmptyString => EmptyString
  | String a s' =>
      match skip with
      | S k => replace_from old new k s'
      | O =>
          if String.prefix old s
          then new +:+ replace_from old new (String.length old - 1) s'
          else String a (replace_from old new 0 s')
      end
  end.
Definition str_replace (old new s : string) : string := replace_from old new 0 s.

(** [s.startswith(p)] *)
Definition startswith (p s : string) : bool := String.prefix p s.

(** [a == b] on two [ClientSubscription] objects: the same object, or equal
    field by field (the generated dataclass [__eq__]). *)
Definition py_eq (h : list ClientSubscription) (a b : nat) : bool :=
  bool_decide (a = b) ||
  match h !! a, h !! b with
  | Some ca, Some cb => bool_decide (ca = cb)
  | _, _ => false
  end.

(** [x in l] and [l.remove(x)] (first equal element) on a list of objects. *)
Definition py_in (h : list ClientSubscription) (x : nat) (l : list nat) : bool :=
  existsb (λ y, py_eq h y x) l.
Fixpoint py_remove (h : list ClientSubscription) (x : nat) (l : list nat) : list nat :=
  match l with
  | [] => []
  | y :: l' => if py_eq h y x then l' else y :: py_remove h x l'
  end.

(** Transport: [await websocket.send_text(...)] and [await websocket.accept()]. *)
Definition send_text (websocket : nat) (message : Message) : M unit :=
  λ s, match sockets s !! websocket with
       | Some sk =>
           match ws_fault sk with
           | None =>
               (Ok tt, set_sockets
                  (<[websocket := {| ws_fault := None;
                                     ws_sent := ws_sent sk ++ [message] |}]>) s)
           | Some e => (Raise e, s)
           end
       | None => (Raise RuntimeError, s)
       end.

Definition accept (websocket : nat) : M unit :=
  λ s, match sockets s !! websocket with
       | Some sk =>
           match ws_fault sk with
           | None => (Ok tt, s)
           | Some e => (Raise e, s)
           end
       | None => (Raise RuntimeError, s)
       end.

(** [asyncio.create_task(coro)] and [task.cancel()]. *)
Definition create_task (c : Coroutine) : M nat :=
  λ s, (Ok (length (tasks s)),
        set_tasks (λ ts, ts ++ [{| coro := c; cancelled := false |}]) s).

Definition cancel (t : nat) (ts : list Task) : list Task :=
  match ts !! t with
  | Some tk => <[t := {| coro := coro tk; cancelled := true |}]> ts
  | None => ts
  end.

(* ===================================================================== *)
(** * [class WebSocketManager] *)
(* ===================================================================== *)

Definition set_subscriptions (f : gset SubscriptionType → gset SubscriptionType)
    (c : ClientSubscription) : ClientSubscription :=
  {| client_id := client_id c; websocket := websocket c;
     subscriptions := f (subscriptions c); watched_coins := watched_coins c;
     user_id := user_id c |}.

Definition set_watched_coins (f : gset string → gset string)
    (c : ClientSubscription) : ClientSubscription :=
  {| client_id := client_id c; websocket := websocket c;
     subscriptions := subscriptions c; watched_coins := f (watched_coins c);
     user_id := user_id c |}.

(** In-place mutation of the object at location [client]. *)
Definition update_client (client : nat)
    (f : ClientSubscription → ClientSubscription) : M unit :=
  modify (set_heap (alter f client)).

(** [send_personal_message]: the send is tried once; any exception is
    logged and swallowed. *)
Definition send_personal_message (message : Message) (websocket : nat) : M unit :=
  try_except (send_text websocket message)
             (λ e, log_error (log_send_error e)).

(** The generator expression
    [any(T in client.subscriptions and coin in client.watched_coins
         for client in self.active_connections)]
    of the poller loops and of [_cleanup_unused_tasks]. *)
Definition has_subscribers (T : SubscriptionType) (coin : string) (s : World) : bool :=
  existsb (λ client,
             match heap s !! client with
             | Some c => bool_decide (T ∈ subscriptions c)
                         && bool_decide (coin ∈ watched_coins c)
             | None => false
             end)
          (active_connections s).

(** [any(T in client.subscriptions for client in self.active_connections)] *)
Definition has_type_subscribers (T : SubscriptionType) (s : World) : bool :=
  existsb (λ client,
             match heap s !! client with
             | Some c => bool_decide (T ∈ subscriptions c)
             | None => false
             end)
          (active_connections s).

(** The [has_subscribers] that [_cleanup_unused_tasks] computes for one
    entry of [update_tasks]; a key of no known shape is left alone. *)
Definition task_has_subscribers (task_key : string) (s : World) : bool :=
  if startswith "price_" task_key then
    has_subscribers PRICE_UPDATES (str_replace "price_" "" task_key) s
  else if startswith "indicators_" task_key then
    has_subscribers TECHNICAL_INDICATORS (str_replace "indicators_" "" task_key) s
  else if bool_decide (task_key = "news_updates") then
    has_type_subscribers NEWS_UPDATES s
  else true.

(** [_cleanup_unused_tasks]: first loop cancels and collects, second loop
    deletes.  The dictionary is walked in [map_to_list] order; the outcome
    does not depend on it. *)
Definition _cleanup_unused_tasks : M unit :=
  do s <- get;
  let tasks_to_remove :=
    filter (λ kt, task_has_subscribers kt.1 s = false)
           (map_to_list (update_tasks s)) in
  modify (set_tasks (λ ts, foldr (λ kt, cancel kt.2) ts tasks_to_remove)) >>
  modify (set_update_tasks (λ m, foldr (λ kt, delete kt.1) m tasks_to_remove)).

(** [disconnect] *)
Definition disconnect (client : nat) : M unit :=
  do s <- get;
  (if py_in (heap s) client (active_connections s)
   then modify (set_active_connections (py_remove (heap s) client))
   else ret tt) >>
  _cleanup_unused_tasks.

(** The body of the [try] in the loop of [broadcast_to_subscribers]. *)
Definition broadcast_try (message : Message) (subscription_type : SubscriptionType)
    (coin : option string) (client : nat) : M unit :=
  do s <- get;
  match heap s !! client with
  | None => ret tt
  | Some c =>
      if bool_decide (subscription_type ∉ subscriptions c) then ret tt
      else if str_truthy coin
              && bool_decide (default "" coin ∉ watched_coins c) then ret tt
      else send_personal_message message (websocket c)
  end.

(** The loop of [broadcast_to_subscribers] with its two handlers; the
    result is [disconnected_clients]. *)
Fixpoint broadcast_loop (message : Message) (subscription_type : SubscriptionType)
    (coin : option string) (clients : list nat) (disconnected_clients : list nat)
    : M (list nat) :=
  match clients with
  | [] => ret disconnected_clients
  | client :: clients' =>
      do d <- try_except
                (broadcast_try message subscription_type coin client >>
                 ret disconnected_clients)
                (λ e,
                   match e with
                   | WebSocketDisconnect => ret (disconnected_clients ++ [client])
                   | _ =>
                       do s <- get;
                       log_error (log_broadcast_error
                                    (default "" (client_id <$> heap s !! client)) e) >>
                       ret (disconnected_clients ++ [client])
                   end);
      broadcast_loop message subscription_type coin clients' d
  end.

(** [broadcast_to_subscribers] *)
Definition broadcast_to_subscribers (message : Message)
    (subscription_type : SubscriptionType) (coin : option string) : M unit :=
  do s <- get;
  do disconnected_clients <-
       broadcast_loop message subscription_type coin (active_connections s) [];
  for_each disconnected_clients disconnect.

(** [if task_key not in self.update_tasks:
        self.update_tasks[task_key] = asyncio.create_task(coro)] *)
Definition start_task (task_key : string) (c : Coroutine) : M unit :=
  do s <- get;
  match update_tasks s !! task_key with
  | Some _ => ret tt
  | None =>
      do t <- create_task c;
      modify (set_update_tasks (<[task_key := t]>))
  end.

(** [_start_update_tasks] *)
Definition _start_update_tasks (subscription_type : SubscriptionType)
    (coins : list string) : M unit :=
  match subscription_type with
  | PRICE_UPDATES =>
      for_each coins (λ coin, start_task ("price_" +:+ coin) (price_update_loop coin))
  | NEWS_UPDATES => start_task "news_updates" news_update_loop
  | TECHNICAL_INDICATORS =>
      for_each coins
        (λ coin, start_task ("indicators_" +:+ coin) (indicators_update_loop coin))
  | _ => ret tt
  end.

(** [subscribe_client].  [coins] is a list; the default [None] behaves as
    the empty list at both places where it is read ([if coins], [coins or []]).
    A location outside [heap] denotes no object and nothing is done. *)
Definition subscribe_client (client : nat) (subscription_type : SubscriptionType)
    (coins : list string) : M unit :=
  do s0 <- get;
  match heap s0 !! client with
  | None => ret tt
  | Some _ =>
      update_client client (set_subscriptions (λ S, S ∪ {[subscription_type]})) >>
      (if list_truthy coins
       then update_client client (set_watched_coins (λ W, W ∪ list_to_set coins))
       else ret tt) >>
      _start_update_tasks subscription_type coins >>
      do s <- get;
      match heap s !! client with
      | None => ret tt
      | Some c =>
          send_personal_message
            (subscription_confirmed (value subscription_type)
               (if list_truthy coins then Some (elements (watched_coins c)) else None))
            (websocket c)
      end
  end.

(** [unsubscribe_client] *)
Definition unsubscribe_client (client : nat) (subscription_type : SubscriptionType)
    : M unit :=
  do s0 <- get;
  match heap s0 !! client with
  | None => ret tt
  | Some c =>
      update_client client (set_subscriptions (λ S, S ∖ {[subscription_type]})) >>
      send_personal_message (unsubscription_confirmed (value subscription_type))
                            (websocket c) >>
      _cleanup_unused_tasks
  end.

(** [connect]: the new object gets the next free location. *)
Definition connect (websocket : nat) (client_id : string) : M nat :=
  accept websocket >>
  do s <- get;
  let client := length (heap s) in
  modify (set_heap (λ h, h ++ [{| client_id := client_id; websocket := websocket;
                                  subscriptions := ∅; watched_coins := ∅;
                                  user_id := None |}])) >>
  modify (set_active_connections (λ l, l ++ [client])) >>
  send_personal_message
    (connection_established client_id (value <$> all_SubscriptionType)) websocket >>
  ret client.

(** [send_alert] *)
Definition send_alert (user_id' : string) (alert_data : string) : M unit :=
  do s <- get;
  let user_clients :=
    List.filter (λ client,
                   match heap s !! client with
                   | Some c => bool_decide (user_id c = Some user_id')
                               && bool_decide (ALERTS ∈ subscriptions c)
                   | None => false
                   end)
                (active_connections s) in
  for_each user_clients
    (λ client,
       match heap s !! client with
       | Some c => send_personal_message (alert alert_data) (websocket c)
       | None => ret tt
       end).

(* ===================================================================== *)
(** * The price poller *)
(* ===================================================================== *)

(** What the HTTP request of [_fetch_price_data] does: it answers with a
    status and a JSON object keyed by coin, or an exception escapes from
    the request or from decoding the body. *)
Inductive HttpOutcome :=
  | http_response (status : Z) (data : gmap string CoinData)
  | http_raises (e : exn).

(** [_fetch_price_data] *)
Definition _fetch_price_data (coin : string) (upstream : HttpOutcome)
    : M (option PriceData) :=
  try_except
    (match upstream with
     | http_raises e => raise e
     | http_response status data =>
         if bool_decide (status = 200%Z) then
           match data !! coin with
           | Some coin_data =>
               ret (Some {| price := default 0%Z (usd coin_data);
                            price_change_24h := default 0%Z (usd_24h_change coin_data);
                            volume_24h := default 0%Z (usd_24h_vol coin_data);
                            market_cap := default 0%Z (usd_market_cap coin_data) |})
           | None => ret None
           end
         else ret None
     end)
    (λ e, log_error (log_fetch_error coin e) >> ret None).

(** How one pass through the [while True] body ends. *)
Inductive LoopStep :=
  | loop_break
  | loop_sleep (seconds : Z).

#[global] Instance LoopStep_eq_dec : EqDecision LoopStep.
Proof. solve_decision. Defined.

(** The [try] block of [_price_update_loop]. *)
Definition price_update_try (coin : string) (upstream : HttpOutcome) : M LoopStep :=
  do s <- get;
  if negb (has_subscribers PRICE_UPDATES coin s) then ret loop_break
  else
    do price_data <- _fetch_price_data coin upstream;
    match price_data with
    | Some d =>
        modify (set_price_cache (<[coin := d]>)) >>
        broadcast_to_subscribers (price_update coin d) PRICE_UPDATES (Some coin)
    | None => ret tt
    end >>
    ret (loop_sleep 30).

(** One pass through the body of [_price_update_loop], handler included. *)
Definition price_update_iteration (coin : string) (upstream : HttpOutcome)
    : M LoopStep :=
  try_except (price_update_try coin upstream)
             (λ e, log_error (log_price_loop_error coin e) >> ret (loop_sleep 60)).

(** [_price_update_loop] driven by the outcomes of its successive fetches;
    the result lists the [asyncio.sleep] durations in order.  The loop ends
    at [break]; the list of outcomes bounds how far it is followed. *)
Fixpoint _price_update_loop (coin : string) (upstream : list HttpOutcome)
    : M (list Z) :=
  match upstream with
  | [] => ret []
  | u :: upstream' =>
      do step <- price_update_iteration coin u;
      match step with
      | loop_break => ret []
      | loop_sleep seconds =>
          do rest <- _price_update_loop coin upstream';
          ret (seconds :: rest)
      end
  end.

(* ===================================================================== *)
(** * [websocket_endpoint] *)
(* ===================================================================== *)

(** The decoded JSON object of a client message: the three keys read by
    the route, [None] when absent. *)
Record ClientMessage := {
  msg_type : option string;
  msg_subscription_type : option string;
  msg_coins : option (list string);
}.

(** What [await websocket.receive_text()] followed by [json.loads] yields:
    a decoded message, undecodable text, or [WebSocketDisconnect]. *)
Inductive Received :=
  | received_message (message : ClientMessage)
  | received_garbage
  | received_disconnect.

(** The dictionary built for ["get_current_prices"]. *)
Definition current_prices_of (cache : gmap string PriceData) (coins : list string)
    : gmap string PriceData :=
  foldl (λ current coin,
           match cache !! coin with
           | Some d => <[coin := d]> current
           | None => current
           end) ∅ coins.

(** One pass through the [while True] body of [websocket_endpoint]. *)
Definition endpoint_try (client websocket : nat) (r : Received) : M unit :=
  match r with
  | received_disconnect => raise WebSocketDisconnect
  | received_garbage => raise JSONDecodeError
  | received_message message =>
      let message_type := msg_type message in
      if bool_decide (message_type = Some "subscribe") then
        do subscription_type <-
             lift_result (SubscriptionType_call (msg_subscription_type message));
        subscribe_client client subscription_type (default [] (msg_coins message))
      else if bool_decide (message_type = Some "unsubscribe") then
        do subscription_type <-
             lift_result (SubscriptionType_call (msg_subscription_type message));
        unsubscribe_client client subscription_type
      else if bool_decide (message_type = Some "ping") then
        send_personal_message pong websocket
      else if bool_decide (message_type = Some "get_current_prices") then
        do s <- get;
        send_personal_message
          (current_prices
             (current_prices_of (price_cache s) (default [] (msg_coins message))))
          websocket
      else ret tt
  end.

(** The same pass with the two handlers around the loop; the result tells
    whether the loop goes on. *)
Definition endpoint_iteration (client websocket : nat) (r : Received) : M bool :=
  try_except (endpoint_try client websocket r >> ret true)
    (λ e,
       match e with
       | WebSocketDisconnect => disconnect client >> ret false
       | _ =>
           do s <- get;
           log_error (log_endpoint_error
                        (default "" (client_id <$> heap s !! client)) e) >>
           disconnect client >> ret false
       end).

(** The framework hands the route a new [WebSocket] object. *)
Definition new_websocket : M nat :=
  λ s, (Ok (length (sockets s)),
        set_sockets (λ l, l ++ [{| ws_fault := None; ws_sent := [] |}]) s).

(** The peer of a socket goes away: later sends on it raise [e]. *)
Definition peer_gone (websocket : nat) (e : exn) : M unit :=
  modify (set_sockets (alter (λ sk, {| ws_fault := Some e; ws_sent := ws_sent sk |})
                             websocket)).

(* ===================================================================== *)
(** * The price alerts of [simple_backend.py] *)
(* ===================================================================== *)

(** The functions after the WebSocket route: [create_price_alert],
    [get_user_alerts], [delete_alert] (the definitions of lines 2693 to
    2760) and the coroutine [monitor_price_alert], which reads prices with
    [_fetch_price_data] and notifies with [send_alert]. *)

(** [class PriceAlert(BaseModel)].  [target_value] and the prices it is
    compared with are numbers that the code only orders and negates; they
    are integers here, as in [PriceData]. *)
Record PriceAlert := {
  coin_id : string;
  condition : string;
  target_value : Z;
  notification_type : string;
  is_active : bool;
}.

(** The [alert_data] dictionary of [create_price_alert], without its
    timestamps.  Its keys are those of [PriceAlert] and ["id"], ["user_id"],
    ["triggered"], ["triggered_price"]; the last one is absent ([None])
    until the alert triggers. *)
Record AlertData := {
  alert_id : string;
  alert_user_id : string;
  alert_coin_id : string;
  alert_condition : string;
  alert_target_value : Z;
  alert_notification_type : string;
  alert_is_active : bool;
  triggered : bool;
  triggered_price : option Z;
}.

#[global] Instance AlertData_eq_dec : EqDecision AlertData.
Proof. solve_decision. Defined.

(** The task created for [monitor_price_alert(alert_data)]: the dictionary
    its coroutine holds, and whether [cancel()] was called. *)
Record MonitorTask := {
  monitored : nat;
  monitor_cancelled : bool;
}.

#[global] Instance MonitorTask_eq_dec : EqDecision MonitorTask.
Proof. solve_decision. Defined.

(** The two module-level dictionaries [user_alerts] and
    [active_alert_monitors], with the objects they hold: the [alert_data]
    dictionaries are shared between [user_alerts] and the monitors, so
    they live in [alert_objects] and are referred to by location.
    [user_alerts] maps a user to the list of that user's alerts, which is
    how [create_price_alert], [get_user_alerts] and [delete_alert] below
    fill and read it; the older routes of the module ([create_alert] and
    the functions next to it), which key the same global by alert
    identifier, are not part of this model. *)
Record AlertStore := {
  user_alerts : gmap string (list nat);
  active_alert_monitors : gmap string nat;
  alert_objects : list AlertData;
  monitor_tasks : list MonitorTask;
}.

(** The module as loaded. *)
Definition no_alerts : AlertStore :=
  {| user_alerts := ∅; active_alert_monitors := ∅;
     alert_objects := []; monitor_tasks := [] |}.

Definition set_user_alerts (f : gmap string (list nat) → gmap string (list nat))
    (st : AlertStore) : AlertStore :=
  {| user_alerts := f (user_alerts st);
     active_alert_monitors := active_alert_monitors st;
     alert_objects := alert_objects st; monitor_tasks := monitor_tasks st |}.

Definition set_active_alert_monitors (f : gmap string nat → gmap string nat)
    (st : AlertStore) : AlertStore :=
  {| user_alerts := user_alerts st;
     active_alert_monitors := f (active_alert_monitors st);
     alert_objects := alert_objects st; monitor_tasks := monitor_tasks st |}.

Definition set_alert_objects (f : list AlertData → list AlertData)
    (st : AlertStore) : AlertStore :=
  {| user_alerts := user_alerts st;
     active_alert_monitors := active_alert_monitors st;
     alert_objects := f (alert_objects st); monitor_tasks := monitor_tasks st |}.

Definition set_monitor_tasks (f : list MonitorTask → list MonitorTask)
    (st : AlertStore) : AlertStore :=
  {| user_alerts := user_alerts st;
     active_alert_monitors := active_alert_monitors st;
     alert_objects := alert_objects st; monitor_tasks := f (monitor_tasks st) |}.

(** [task.cancel()] on a monitor task. *)
Definition cancel_monitor (t : nat) (ts : list MonitorTask) : list MonitorTask :=
  alter (λ tk, {| monitored := monitored tk; monitor_cancelled := true |}) t ts.

(** [create_price_alert].  The identifier is
    [f"alert_{hash(f'{user_id}_{alert.coin_id}_{alert.target_value}')}"]:
    [py_str] is the text of a number in an f-string and [py_hash] the
    decimal text of the hash of a string, which Python fixes per process.
    The result is the ["alert_id"] of the answer. *)
Definition create_price_alert (py_str : Z → string) (py_hash : string → string)
    (alert : PriceAlert) (user_id' : string) (st : AlertStore)
    : string * AlertStore :=
  let alert_id' :=
    "alert_" +:+ py_hash (user_id' +:+ "_" +:+ coin_id alert +:+ "_"
                          +:+ py_str (target_value alert)) in
  let alert_data := length (alert_objects st) in
  let st1 :=
    set_alert_objects
      (λ h, h ++ [{| alert_id := alert_id'; alert_user_id := user_id';
                     alert_coin_id := coin_id alert;
                     alert_condition := condition alert;
                     alert_target_value := target_value alert;
                     alert_notification_type := notification_type alert;
                     alert_is_active := is_active alert;
                     triggered := false; triggered_price := None |}]) st in
  let st2 :=
    set_user_alerts
      (λ m, <[user_id' := default [] (m !! user_id') ++ [alert_data]]> m) st1 in
  let monitor_task := length (monitor_tasks st2) in
  let st3 :=
    set_monitor_tasks
      (λ ts, ts ++ [{| monitored := alert_data; monitor_cancelled := false |}]) st2 in
  (alert_id', set_active_alert_monitors (<[alert_id' := monitor_task]>) st3).

(** [get_user_alerts]: the ["alerts"] and the ["total_count"] of the answer. *)
Definition get_user_alerts (user_id' : string) (st : AlertStore)
    : list AlertData * nat :=
  let alerts :=
    omap (λ a, alert_objects st !! a) (default [] (user_alerts st !! user_id')) in
  (alerts, length alerts).

(** [delete_alert] *)
Definition delete_alert (alert_id' : string) (st : AlertStore) : AlertStore :=
  let st1 :=
    match active_alert_monitors st !! alert_id' with
    | Some t =>
        set_active_alert_monitors (delete alert_id')
          (set_monitor_tasks (cancel_monitor t) st)
    | None => st
    end in
  set_user_alerts
    (fmap (filter (λ a, alert_id <$> alert_objects st !! a ≠ Some alert_id'))) st1.

(** The test of [monitor_price_alert] that sets [triggered]. *)
Definition alert_fires (condition : string)
    (current_price price_change_24h target_value : Z) : bool :=
  if bool_decide (condition = "above")
     && bool_decide (target_value ≤ current_price)%Z then true
  else if bool_decide (condition = "below")
          && bool_decide (current_price ≤ target_value)%Z then true
  else if bool_decide (condition = "change_up")
          && bool_decide (target_value ≤ price_change_24h)%Z then true
  else if bool_decide (condition = "change_down")
          && bool_decide (price_change_24h ≤ - target_value)%Z then true
  else false.

(** The [finally] block of [monitor_price_alert]. *)
Definition monitor_finally (alert_id' : string) (st : AlertStore) : AlertStore :=
  set_active_alert_monitors (delete alert_id') st.

(** One evaluation of the [while] condition of [monitor_price_alert]
    followed by one pass through its body, for the coroutine that holds the
    dictionary at location [alert_data]; when the loop ends the [finally]
    block has run.  [alert_notification] is the text of the dictionary sent
    to the user, built from the alert and the current price. *)
Definition monitor_price_alert_iteration
    (alert_notification : AlertData → Z → string)
    (alert_data : nat) (upstream : HttpOutcome) (st : AlertStore)
    : M (LoopStep * AlertStore) :=
  match alert_objects st !! alert_data with
  | None => ret (loop_break, st)
  | Some a =>
      if alert_is_active a && negb (triggered a) then
        do current_price_data <- _fetch_price_data (alert_coin_id a) upstream;
        match current_price_data with
        | Some d =>
            if alert_fires (alert_condition a) (price d) (price_change_24h d)
                 (alert_target_value a)
            then
              let st' :=
                set_alert_objects
                  (<[alert_data :=
                       {| alert_id := alert_id a; alert_user_id := alert_user_id a;
                          alert_coin_id := alert_coin_id a;
                          alert_condition := alert_condition a;
                          alert_target_value := alert_target_value a;
                          alert_notification_type := alert_notification_type a;
                          alert_is_active := alert_is_active a;
                          triggered := true;
                          triggered_price := Some (price d) |}]>) st in
              send_alert (alert_user_id a) (alert_notification a (price d)) >>
              ret (loop_break, monitor_finally (alert_id a) st')
            else ret (loop_sleep 30, st)
        | None => ret (loop_sleep 30, st)
        end
      else ret (loop_break, monitor_finally (alert_id a) st)
  end.

(** [monitor_price_alert] driven by the outcomes of its successive
    fetches: the [asyncio.sleep] durations in order and the store it
    leaves.  The list of outcomes bounds how far the loop is followed. *)
Fixpoint monitor_price_alert (alert_notification : AlertData → Z → string)
    (alert_data : nat) (upstream : list HttpOutcome) (st : AlertStore)
    : M (list Z * AlertStore) :=
  match upstream with
  | [] => ret ([], st)
  | u :: upstream' =>
      do r <- monitor_price_alert_iteration alert_notification alert_data u st;
      match r.1 with
      | loop_break => ret ([], r.2)
      | loop_sleep seconds =>
          do rest <- monitor_price_alert alert_notification alert_data upstream' r.2;
          ret (seconds :: rest.1, rest.2)
      end
  end.

(* ===================================================================== *)
(** * Histories of the hub *)
(* ===================================================================== *)

(** The operations that can follow one another on the hub.  [Connect] is
    the route being entered: the framework hands it a new [WebSocket]
    object and the route calls [connect].  [Receive] is one message
    handled by the loop of the route, which runs as long as the connection
    is registered.  [Subscribe], [Unsubscribe], [Disconnect] and [Publish]
    are direct calls of the manager, on any object.  [PriceTick] is one
    pass of a price poller, [PeerGone] the loss of a peer. *)
Inductive Op :=
  | Connect (client_id : string)
  | Subscribe (client : nat) (subscription_type : SubscriptionType) (coins : list string)
  | Unsubscribe (client : nat) (subscription_type : SubscriptionType)
  | Disconnect (client : nat)
  | Publish (message : Message) (subscription_type : SubscriptionType)
            (coin : option string)
  | PriceTick (coin : string) (upstream : HttpOutcome)
  | Receive (client : nat) (r : Received)
  | PeerGone (websocket : nat) (e : exn).

Definition step (o : Op) : M unit :=
  match o with
  | Connect client_id =>
      do w <- new_websocket; connect w client_id >> ret tt
  | Subscribe client T coins => subscribe_client client T coins
  | Unsubscribe client T => unsubscribe_client client T
  | Disconnect client => disconnect client
  | Publish message T coin => broadcast_to_subscribers message T coin
  | PriceTick coin upstream => price_update_iteration coin upstream >> ret tt
  | Receive client r =>
      do s <- get;
      match heap s !! client with
      | Some c =>
          if bool_decide (client ∈ active_connections s)
          then endpoint_iteration client (websocket c) r >> ret tt
          else ret tt
      | None => ret tt
      end
  | PeerGone websocket e => peer_gone websocket e
  end.

(** Running a history from a state. *)
Definition run (ops : list Op) (s : World) : World :=
  foldl (λ s o, exec (step o) s) s ops.

(* ===================================================================== *)
(** * Derived notions *)
(* ===================================================================== *)

(** Nothing below is a new model of the code.  For each operation the
    state it leaves is written as a plain function of the state it starts
    from; the [_run] lemmas of the next part prove that the transcription
    above returns normally and leaves exactly that state.  Then come the
    invariants of the hub and the sentences of the specification that are
    compared with the code. *)

(** ** The state left by each operation *)

(** [send_personal_message]: the message is appended to the socket, or the
    failed send is logged. *)
Definition deliver (message : Message) (websocket : nat) (s : World) : World :=
  match sockets s !! websocket with
  | Some sk =>
      match ws_fault sk with
      | None =>
          set_sockets (<[websocket := {| ws_fault := None;
                                         ws_sent := ws_sent sk ++ [message] |}]>) s
      | Some e => set_log (λ ls, ls ++ [log_send_error e]) s
      end
  | None => set_log (λ ls, ls ++ [log_send_error RuntimeError]) s
  end.

(** The test of the loop of [broadcast_to_subscribers], read positively:
    the connection is not skipped by either [continue]. *)
Definition recipient (T : SubscriptionType) (coin : option string)
    (c : ClientSubscription) : bool :=
  bool_decide (T ∈ subscriptions c)
  && (negb (str_truthy coin) || bool_decide (default "" coin ∈ watched_coins c)).

(** One turn of the loop of [broadcast_to_subscribers]. *)
Definition publish_to (message : Message) (T : SubscriptionType)
    (coin : option string) (s : World) (client : nat) : World :=
  match heap s !! client with
  | Some c => if recipient T coin c then deliver message (websocket c) s else s
  | None => s
  end.

(** [_cleanup_unused_tasks] *)
Definition cleanup_state (s : World) : World :=
  let tasks_to_remove :=
    filter (λ kt, task_has_subscribers kt.1 s = false)
           (map_to_list (update_tasks s)) in
  set_update_tasks (λ m, foldr (λ kt, delete kt.1) m tasks_to_remove)
    (set_tasks (λ ts, foldr (λ kt, cancel kt.2) ts tasks_to_remove) s).

(** [disconnect] *)
Definition disconnect_state (client : nat) (s : World) : World :=
  cleanup_state
    (if py_in (heap s) client (active_connections s)
     then set_active_connections (py_remove (heap s) client) s
     else s).

(** [start_task] *)
Definition start_state (task_key : string) (c : Coroutine) (s : World) : World :=
  match update_tasks s !! task_key with
  | Some _ => s
  | None =>
      set_update_tasks (<[task_key := length (tasks s)]>)
        (set_tasks (λ ts, ts ++ [{| coro := c; cancelled := false |}]) s)
  end.

(** The key under which [_start_update_tasks] stores the task of a
    coroutine. *)
Definition task_key (c : Coroutine) : string :=
  match c with
  | price_update_loop coin => "price_" +:+ coin
  | news_update_loop => "news_updates"
  | indicators_update_loop coin => "indicators_" +:+ coin
  end.

(** The coroutines [_start_update_tasks] asks for, in order. *)
Definition pollers_of (T : SubscriptionType) (coins : list string) : list Coroutine :=
  match T with
  | PRICE_UPDATES => price_update_loop <$> coins
  | NEWS_UPDATES => [news_update_loop]
  | TECHNICAL_INDICATORS => indicators_update_loop <$> coins
  | _ => []
  end.

(** [_start_update_tasks] *)
Definition start_tasks_state (T : SubscriptionType) (coins : list string)
    (s : World) : World :=
  foldl (λ s c, start_state (task_key c) c s) s (pollers_of T coins).

(** [subscribe_client] *)
Definition subscribe_state (client : nat) (T : SubscriptionType)
    (coins : list string) (s : World) : World :=
  match heap s !! client with
  | None => s
  | Some _ =>
      let s1 := set_heap (alter (set_subscriptions (λ S, S ∪ {[T]})) client) s in
      let s2 := if list_truthy coins
                then set_heap (alter (set_watched_coins (λ W, W ∪ list_to_set coins))
                                     client) s1
                else s1 in
      let s3 := start_tasks_state T coins s2 in
      match heap s3 !! client with
      | None => s3
      | Some c =>
          deliver (subscription_confirmed (value T)
                     (if list_truthy coins then Some (elements (watched_coins c))
                      else None))
                  (websocket c) s3
      end
  end.

(** [unsubscribe_client] *)
Definition unsubscribe_state (client : nat) (T : SubscriptionType) (s : World)
    : World :=
  match heap s !! client with
  | None => s
  | Some c =>
      cleanup_state
        (deliver (unsubscription_confirmed (value T)) (websocket c)
           (set_heap (alter (set_subscriptions (λ S, S ∖ {[T]})) client) s))
  end.

(** ** Invariants *)

(** Task [t] runs coroutine [c] and has not been cancelled. *)
Definition live_poller (s : World) (c : Coroutine) (t : nat) : Prop :=
  tasks s !! t = Some {| coro := c; cancelled := false |}.

(** The task dictionary and the task table agree: every entry of
    [update_tasks] is a live task stored under the key of its coroutine,
    and every live task is the entry of its key. *)
Definition tasks_inv (s : World) : Prop :=
  (∀ k t, update_tasks s !! k = Some t → ∃ c, live_poller s c t ∧ task_key c = k)
  ∧ (∀ t c, live_poller s c t → update_tasks s !! task_key c = Some t).

(** The registry is sound: active connections are existing objects, none
    is listed twice, no two connection objects share a [WebSocket], and
    every [websocket] field points to an existing socket. *)
Definition reg_inv (s : World) : Prop :=
  Forall (λ l, l < length (heap s)) (active_connections s)
  ∧ NoDup (active_connections s)
  ∧ NoDup (websocket <$> heap s)
  ∧ Forall (λ w, w < length (sockets s)) (websocket <$> heap s).

Definition wf (s : World) : Prop := reg_inv s ∧ tasks_inv s.

(** The parts of the state that [reg_inv] and [tasks_inv] read. *)
Definition reg_view (s : World) : list nat * list nat * nat :=
  (active_connections s, websocket <$> heap s, length (sockets s)).
Definition task_view (s : World) : list Task * gmap string nat :=
  (tasks s, update_tasks s).

(** ** The state left by the route, the poller and a step *)

(** A new [WebSocket] object followed by [connect]. *)
Definition connect_state (client_id : string) (s : World) : World :=
  let w := length (sockets s) in
  deliver (connection_established client_id (value <$> all_SubscriptionType)) w
    (set_active_connections (λ l, l ++ [length (heap s)])
       (set_heap (λ h, h ++ [{| client_id := client_id; websocket := w;
                                subscriptions := ∅; watched_coins := ∅;
                                user_id := None |}])
          (set_sockets (λ l, l ++ [{| ws_fault := None; ws_sent := [] |}]) s))).

(** The value [_fetch_price_data] returns. *)
Definition fetched (coin : string) (upstream : HttpOutcome) : option PriceData :=
  match upstream with
  | http_raises _ => None
  | http_response status data =>
      if bool_decide (status = 200%Z) then
        (λ coin_data,
           {| price := default 0%Z (usd coin_data);
              price_change_24h := default 0%Z (usd_24h_change coin_data);
              volume_24h := default 0%Z (usd_24h_vol coin_data);
              market_cap := default 0%Z (usd_market_cap coin_data) |})
          <$> data !! coin
      else None
  end.

(** The state [_fetch_price_data] leaves: a log line when the request
    raised. *)
Definition fetch_state (coin : string) (upstream : HttpOutcome) (s : World) : World :=
  match upstream with
  | http_raises e => set_log (λ ls, ls ++ [log_fetch_error coin e]) s
  | http_response _ _ => s
  end.

(** One pass of [_price_update_loop]. *)
Definition price_tick_state (coin : string) (upstream : HttpOutcome) (s : World)
    : World :=
  if has_subscribers PRICE_UPDATES coin s then
    match fetched coin upstream with
    | Some d =>
        foldl (publish_to (price_update coin d) PRICE_UPDATES (Some coin))
              (set_price_cache (<[coin := d]>) (fetch_state coin upstream s))
              (active_connections s)
    | None => fetch_state coin upstream s
    end
  else s.

(** The two handlers of [websocket_endpoint]. *)
Definition endpoint_failure (client : nat) (e : exn) (s : World) : World :=
  disconnect_state client
    (match e with
     | WebSocketDisconnect => s
     | _ => set_log (λ ls, ls ++ [log_endpoint_error
                                    (default "" (client_id <$> heap s !! client)) e]) s
     end).

(** One pass of the loop of [websocket_endpoint]: whether the loop goes
    on, and the state left. *)
Definition endpoint_state (client websocket : nat) (r : Received) (s : World)
    : bool * World :=
  match r with
  | received_disconnect => (false, endpoint_failure client WebSocketDisconnect s)
  | received_garbage => (false, endpoint_failure client JSONDecodeError s)
  | received_message message =>
      if bool_decide (msg_type message = Some "subscribe") then
        match SubscriptionType_call (msg_subscription_type message) with
        | inl e => (false, endpoint_failure client e s)
        | inr T => (true, subscribe_state client T (default [] (msg_coins message)) s)
        end
      else if bool_decide (msg_type message = Some "unsubscribe") then
        match SubscriptionType_call (msg_subscription_type message) with
        | inl e => (false, endpoint_failure client e s)
        | inr T => (true, unsubscribe_state client T s)
        end
      else if bool_decide (msg_type message = Some "ping") then
        (true, deliver pong websocket s)
      else if bool_decide (msg_type message = Some "get_current_prices") then
        (true, deliver (current_prices
                          (current_prices_of (price_cache s)
                             (default [] (msg_coins message))))
                       websocket s)
      else (true, s)
  end.

(** [step] *)
Definition step_state (o : Op) (s : World) : World :=
  match o with
  | Connect client_id => connect_state client_id s
  | Subscribe client T coins => subscribe_state client T coins s
  | Unsubscribe client T => unsubscribe_state client T s
  | Disconnect client => disconnect_state client s
  | Publish message T coin =>
      foldl (publish_to message T coin) s (active_connections s)
  | PriceTick coin upstream => price_tick_state coin upstream s
  | Receive client r =>
      match heap s !! client with
      | Some c =>
          if bool_decide (client ∈ active_connections s)
          then (endpoint_state client (websocket c) r s).2
          else s
      | None => s
      end
  | PeerGone websocket e =>
      set_sockets (alter (λ sk, {| ws_fault := Some e; ws_sent := ws_sent sk |})
                         websocket) s
  end.

(** ** Feed keys, and the sentences compared with the code *)

(** A feed key: feed type and instrument. *)
Definition FeedKey : Type := SubscriptionType * string.

(** The poller that serves a feed key: the coroutine [_start_update_tasks]
    starts for it.  News has one poller whatever the instrument; portfolio
    updates and alerts have none. *)
Definition poller_of (K : FeedKey) : option Coroutine :=
  match K.1 with
  | PRICE_UPDATES => Some (price_update_loop K.2)
  | TECHNICAL_INDICATORS => Some (indicators_update_loop K.2)
  | NEWS_UPDATES => Some news_update_loop
  | _ => None
  end.


(** Some active connection is subscribed to the feed key, as the hub
    itself tests it: feed type and watched coin for the two instrument
    feeds, feed type alone for the others. *)
Definition key_has_subscribers (K : FeedKey) (s : World) : bool :=
  match K.1 with
  | PRICE_UPDATES | TECHNICAL_INDICATORS => has_subscribers K.1 K.2 s
  | _ => has_type_subscribers K.1 s
  end.



(** *** The subscriptions of the specification

    The specification keeps, for every registered connection, the set of
    feed keys it is subscribed to.  [Subscribe(handle, feedType,
    instruments)] adds one key per listed instrument, and the key of the
    zero instrument for the feeds that are not instrument-scoped (news and
    alerts); [Unsubscribe(handle, feedType)] removes every key of that feed
    type; [Disconnect(handle)] removes the connection with its keys; an
    operation on a handle that is not registered does nothing.  The
    definitions below follow these words, not the code: they replay a
    history on that bookkeeping alone. *)

(** News and alerts are not instrument-scoped. *)
Definition instrument_scoped (T : SubscriptionType) : bool :=
  match T with
  | NEWS_UPDATES | ALERTS => false
  | _ => true
  end.

(** The keys [Subscribe(handle, T, coins)] adds. *)
Definition spec_keys (T : SubscriptionType) (coins : list string) : gset FeedKey :=
  if instrument_scoped T
  then list_to_set ((λ coin, (T, coin)) <$> coins)
  else {[ (T, "") ]}.

(** The registry of the specification: the next handle [Connect] gives
    out, and the feed keys of every registered handle. *)
Record SpecHub := {
  spec_next : nat;
  spec_subscriptions : gmap nat (gset FeedKey);
}.

Definition spec_init : SpecHub := {| spec_next := 0; spec_subscriptions := ∅ |}.

(** [Subscribe], [Unsubscribe] and [Disconnect] on the feed keys. *)
Definition spec_apply (o : Op) (R : gmap nat (gset FeedKey))
    : gmap nat (gset FeedKey) :=
  match o with
  | Subscribe client T coins => alter (λ KS, KS ∪ spec_keys T coins) client R
  | Unsubscribe client T => alter (filter (λ K, K.1 ≠ T)) client R
  | Disconnect client => delete client R
  | _ => R
  end.

(** The operation of the hub that [websocket_endpoint] calls for what it
    received (lines 2631 to 2663 of the route): [subscribe_client] or
    [unsubscribe_client] with the feed type named, [disconnect] when the
    peer is gone, the text cannot be decoded or the feed type is unknown,
    and none for the other messages. *)
Definition route_operation (client : nat) (r : Received) : option Op :=
  match r with
  | received_disconnect | received_garbage => Some (Disconnect client)
  | received_message message =>
      if bool_decide (msg_type message = Some "subscribe") then
        match SubscriptionType_call (msg_subscription_type message) with
        | inr T => Some (Subscribe client T (default [] (msg_coins message)))
        | inl _ => Some (Disconnect client)
        end
      else if bool_decide (msg_type message = Some "unsubscribe") then
        match SubscriptionType_call (msg_subscription_type message) with
        | inr T => Some (Unsubscribe client T)
        | inl _ => Some (Disconnect client)
        end
      else None
  end.

(** One operation of a history on the registry of the specification.  A
    message reaches the hub only through the route of a registered
    connection; publishing, polling and the loss of a peer change no
    subscription. *)
Definition spec_step (H : SpecHub) (o : Op) : SpecHub :=
  match o with
  | Connect _ =>
      {| spec_next := S (spec_next H);
         spec_subscriptions := <[spec_next H := ∅]> (spec_subscriptions H) |}
  | Receive client r =>
      match spec_subscriptions H !! client, route_operation client r with
      | Some _, Some o' =>
          {| spec_next := spec_next H;
             spec_subscriptions := spec_apply o' (spec_subscriptions H) |}
      | _, _ => H
      end
  | _ =>
      {| spec_next := spec_next H;
         spec_subscriptions := spec_apply o (spec_subscriptions H) |}
  end.

Definition spec_run (ops : list Op) : SpecHub := foldl spec_step spec_init ops.

(** After the history [ops], connection [client] is subscribed to the
    feed key [K] in the sense of the specification. *)
Definition spec_subscribed (ops : list Op) (client : nat) (K : FeedKey) : Prop :=
  ∃ KS, spec_subscriptions (spec_run ops) !! client = Some KS ∧ K ∈ KS.

(** The [coin] argument with which the code publishes for a feed key: the
    pollers of prices and indicators pass their coin, the news poller
    passes none. *)
Definition feed_coin (K : FeedKey) : option string :=
  if instrument_scoped K.1 then Some K.2 else None.

(** The registry of the specification and the hub agree: the same
    connections are registered, and a connection subscribed to a feed key
    has the feed type in its subscriptions and, for an instrument-scoped
    feed, the instrument among its watched coins. *)
Definition spec_agrees (H : SpecHub) (s : World) : Prop :=
  spec_next H = length (heap s)
  ∧ (∀ client, client ∈ active_connections s
               ↔ is_Some (spec_subscriptions H !! client))
  ∧ (∀ client KS K,
       spec_subscriptions H !! client = Some KS → K ∈ KS →
       ∃ c, heap s !! client = Some c
            ∧ K.1 ∈ subscriptions c
            ∧ (instrument_scoped K.1 = true → K.2 ∈ watched_coins c)).

(** What a socket is after one message was handed to it. *)
Definition received (message : Message) (sk : WebSocket) : WebSocket :=
  match ws_fault sk with
  | None => {| ws_fault := None; ws_sent := ws_sent sk ++ [message] |}
  | Some _ => sk
  end.

(** Fan-out as the specification words it, for connections whose
    transport works: an update published for a feed key reaches the
    connections subscribed to that key and no other. *)
Definition fanout_claim : Prop :=
  ∀ (ops : list Op) (message : Message) (K : FeedKey) (client : nat)
    (c : ClientSubscription) (sk : WebSocket),
    let s := run ops init in
    let s' := exec (broadcast_to_subscribers message K.1 (feed_coin K)) s in
    client ∈ active_connections s →
    heap s !! client = Some c →
    sockets s !! websocket c = Some sk →
    ws_fault sk = None →
    (spec_subscribed ops client K →
       sockets s' !! websocket c
       = Some {| ws_fault := None; ws_sent := ws_sent sk ++ [message] |})
    ∧ (¬ spec_subscribed ops client K → sockets s' !! websocket c = Some sk).


(** The connection record after [subscribe_client]. *)
Definition subscribed_record (T : SubscriptionType) (coins : list string)
    (c : ClientSubscription) : ClientSubscription :=
  {| client_id := client_id c; websocket := websocket c;
     subscriptions := subscriptions c ∪ {[T]};
     watched_coins := if list_truthy coins
                      then watched_coins c ∪ list_to_set coins
                      else watched_coins c;
     user_id := user_id c |}.

(** The backoff as the specification words it: after three fetches in a
    row have failed, the wait before the next attempt is longer than the
    normal interval of the price poller. *)
Definition backoff_claim : Prop :=
  ∀ (ops : list Op) (coin : string) (u1 u2 u3 : HttpOutcome) (sleeps : list Z),
    let s := run ops init in
    has_subscribers PRICE_UPDATES coin s = true →
    fetched coin u1 = None → fetched coin u2 = None → fetched coin u3 = None →
    (_price_update_loop coin [u1; u2; u3] s).1 = Ok sleeps →
    ∃ d1 d2 d3, sleeps = [d1; d2; d3] ∧ (30 < d3)%Z.

(** A ["subscribe"] message. *)
Definition subscribe_message (v : string) (coins : option (list string))
    : Received :=
  received_message {| msg_type := Some "subscribe";
                      msg_subscription_type := Some v;
                      msg_coins := coins |}.

(** The validation of the feed type as the specification words it: the
    request is answered with an error the client can see and nothing of
    the registry changes. *)
Definition validation_claim : Prop :=
  ∀ (ops : list Op) (client : nat) (c : ClientSubscription) (v : string)
    (coins : option (list string)),
    let s := run ops init in
    let s' := exec (endpoint_iteration client (websocket c)
                      (subscribe_message v coins)) s in
    client ∈ active_connections s →
    heap s !! client = Some c →
    (∀ T, value T ≠ v) →
    (active_connections s' = active_connections s
     ∧ heap s' = heap s
     ∧ update_tasks s' = update_tasks s
     ∧ tasks s' = tasks s)
    ∧ (∃ sk sk', sockets s !! websocket c = Some sk
                 ∧ sockets s' !! websocket c = Some sk'
                 ∧ ws_sent sk' ≠ ws_sent sk).

(** [CurrentSnapshot] as the specification words it, for the price feed:
    a value is returned exactly when a poller exists for the coin. *)
Definition current_snapshot_claim : Prop :=
  ∀ (ops : list Op) (coin : string),
    let s := run ops init in
    is_Some (current_prices_of (price_cache s) [coin] !! coin)
    ↔ is_Some (update_tasks s !! ("price_" +:+ coin)).

(** Messages used in the examples. *)
Definition btc_quote : Message :=
  price_update "btc" {| price := 98500; price_change_24h := 2;
                        volume_24h := 0; market_cap := 0 |}.
Definition eth_quote : Message :=
  price_update "eth" {| price := 3500; price_change_24h := 1;
                        volume_24h := 0; market_cap := 0 |}.

(** The coin that [_cleanup_unused_tasks] recovers from the task key of a
    feed key is the coin of the feed key. *)
Definition key_round_trips (K : FeedKey) : Prop :=
  match K.1 with
  | PRICE_UPDATES => str_replace "price_" "" ("price_" +:+ K.2) = K.2
  | TECHNICAL_INDICATORS => str_replace "indicators_" "" ("indicators_" +:+ K.2) = K.2
  | _ => True
  end.

(** ** Notions used by the further properties *)

(** [send_alert]: the alert is handed, in registry order, to every active
    connection of the user that is subscribed to alerts. *)
Definition alert_state (user_id' : string) (alert_data : string) (s : World) : World :=
  foldl (λ s' client,
           match heap s !! client with
           | Some c => deliver (alert alert_data) (websocket c) s'
           | None => s'
           end)
        s
        (List.filter (λ client,
                        match heap s !! client with
                        | Some c => bool_decide (user_id c = Some user_id')
                                    && bool_decide (ALERTS ∈ subscriptions c)
                        | None => false
                        end)
                     (active_connections s)).

(** [sub in s] on strings. *)
Fixpoint str_in (sub s : string) : bool :=
  String.prefix sub s
  || match s with
     | EmptyString => false
     | String _ s' => str_in sub s'
     end.

(** [c'] is a later state of the connection object [c]: the fields set by
    [connect] are the same and no watched coin was lost. *)
Definition later_record (c c' : ClientSubscription) : Prop :=
  client_id c' = client_id c
  ∧ websocket c' = websocket c
  ∧ user_id c' = user_id c
  ∧ watched_coins c ⊆ watched_coins c'.

(** No connection object carries a user. *)
Definition no_user_id (s : World) : Prop :=
  Forall (λ c, user_id c = None) (heap s).

(** The record [connect] creates. *)
Definition new_client (client_id : string) (websocket : nat) : ClientSubscription :=
  {| client_id := client_id; websocket := websocket;
     subscriptions := ∅; watched_coins := ∅; user_id := None |}.

(** Every location held by the store denotes an object. *)
Definition store_ok (st : AlertStore) : Prop :=
  (∀ user alerts a, user_alerts st !! user = Some alerts → a ∈ alerts →
                    a < length (alert_objects st))
  ∧ (∀ k t, active_alert_monitors st !! k = Some t → t < length (monitor_tasks st)).

(* ===================================================================== *)
(** * Properties *)
(* ===================================================================== *)

(** The three cases of a send: the socket takes the message, the socket
    raises, there is no such socket. *)
Ltac send_cases w s :=
  let sk := fresh "sk" in
  destruct (sockets s !! w) as [sk|]; [destruct (ws_fault sk)|].

(** ** Sending and broadcasting *)

(** A lemma named after a function of the code with the suffix [_run]
    states that the function returns normally, and which state it
    leaves. *)

Lemma send_personal_message_run message w s :
  send_personal_message message w s = (Ok tt, deliver message w s).
Proof.
  unfold send_personal_message, try_except, send_text, deliver, log_error, modify.
  send_cases w s; reflexivity.
Qed.

Lemma broadcast_try_run message T coin client s :
  broadcast_try message T coin client s = (Ok tt, publish_to message T coin s client).
Proof.
  unfold broadcast_try, publish_to, recipient, bind, get; simpl.
  destruct (heap s !! client) as [c|]; [|reflexivity].
  destruct (decide (T ∈ subscriptions c)) as [HT|HT].
  - rewrite (bool_decide_eq_false_2 (T ∉ subscriptions c)) by tauto.
    rewrite (bool_decide_eq_true_2 _ HT). simpl.
    destruct (str_truthy coin); simpl.
    + destruct (decide (default "" coin ∈ watched_coins c)) as [HW|HW].
      * rewrite (bool_decide_eq_false_2 (default "" coin ∉ watched_coins c)) by tauto.
        rewrite (bool_decide_eq_true_2 _ HW). apply send_personal_message_run.
      * rewrite (bool_decide_eq_true_2 (default "" coin ∉ watched_coins c)) by tauto.
        rewrite (bool_decide_eq_false_2 _ HW). reflexivity.
    + apply send_personal_message_run.
  - rewrite (bool_decide_eq_true_2 (T ∉ subscriptions c)) by tauto.
    rewrite (bool_decide_eq_false_2 _ HT). reflexivity.
Qed.

Lemma broadcast_loop_run message T coin clients d s :
  broadcast_loop message T coin clients d s
  = (Ok d, foldl (publish_to message T coin) s clients).
Proof.
  revert d s. induction clients as [|client clients IH]; intros d s; [reflexivity|].
  simpl. unfold bind at 1. unfold try_except. unfold bind at 1.
  rewrite broadcast_try_run. simpl. apply IH.
Qed.

Lemma broadcast_to_subscribers_run message T coin s :
  broadcast_to_subscribers message T coin s
  = (Ok tt, foldl (publish_to message T coin) s (active_connections s)).
Proof.
  unfold broadcast_to_subscribers, bind, get. simpl.
  rewrite broadcast_loop_run. reflexivity.
Qed.

Lemma _cleanup_unused_tasks_run s :
  _cleanup_unused_tasks s = (Ok tt, cleanup_state s).
Proof. reflexivity. Qed.

Lemma disconnect_run client s :
  disconnect client s = (Ok tt, disconnect_state client s).
Proof.
  unfold disconnect, disconnect_state, bind, get. simpl.
  destruct (py_in (heap s) client (active_connections s)); reflexivity.
Qed.

(** ** Subscribing and starting tasks *)

Lemma for_each_run {A} (body : A → M unit) (f : World → A → World) xs s :
  (∀ x s, body x s = (Ok tt, f s x)) →
  for_each xs body s = (Ok tt, foldl f s xs).
Proof.
  intros Hbody. revert s. induction xs as [|x xs IH]; intros s; [reflexivity|].
  simpl. unfold bind. rewrite Hbody. apply IH.
Qed.

Lemma start_task_run key c s :
  start_task key c s = (Ok tt, start_state key c s).
Proof.
  unfold start_task, start_state, bind, get. simpl.
  destruct (update_tasks s !! key); reflexivity.
Qed.

Lemma foldl_fmap_r {A B C} (f : A → C → A) (g : B → C) (a : A) (l : list B) :
  foldl f a (g <$> l) = foldl (λ a x, f a (g x)) a l.
Proof. revert a. induction l as [|x l IH]; intros a; simpl; [done|apply IH]. Qed.

Lemma _start_update_tasks_run T coins s :
  _start_update_tasks T coins s = (Ok tt, start_tasks_state T coins s).
Proof.
  unfold _start_update_tasks, start_tasks_state, pollers_of.
  destruct T; try reflexivity.
  - rewrite foldl_fmap_r. apply for_each_run. intros; apply start_task_run.
  - simpl. apply start_task_run.
  - rewrite foldl_fmap_r. apply for_each_run. intros; apply start_task_run.
Qed.

Lemma subscribe_client_run client T coins s :
  subscribe_client client T coins s = (Ok tt, subscribe_state client T coins s).
Proof.
  unfold subscribe_client, subscribe_state, bind at 1, get at 1. simpl.
  destruct (heap s !! client) as [c0|]; [|reflexivity].
  unfold bind at 1, update_client at 1, modify at 1.
  unfold bind at 1.
  destruct (list_truthy coins); simpl; unfold bind at 1;
    rewrite _start_update_tasks_run; unfold bind, get; simpl;
    match goal with |- context [heap ?s3 !! client] =>
      destruct (heap s3 !! client) end;
    first [apply send_personal_message_run | reflexivity].
Qed.

Lemma unsubscribe_client_run client T s :
  unsubscribe_client client T s = (Ok tt, unsubscribe_state client T s).
Proof.
  unfold unsubscribe_client, unsubscribe_state, bind at 1, get at 1. simpl.
  destruct (heap s !! client) as [c|]; [|reflexivity].
  unfold bind, update_client, modify. simpl.
  rewrite send_personal_message_run. reflexivity.
Qed.

(** ** Invariants of the hub *)

Lemma reg_inv_view s s' : reg_view s' = reg_view s → reg_inv s → reg_inv s'.
Proof.
  unfold reg_view, reg_inv. intros [= Ha Hw Hl] (H1 & H2 & H3 & H4).
  rewrite Ha, Hw, Hl. rewrite <- (length_fmap websocket (heap s')), Hw, length_fmap.
  auto.
Qed.

Lemma tasks_inv_view s s' : task_view s' = task_view s → tasks_inv s → tasks_inv s'.
Proof.
  unfold task_view, tasks_inv, live_poller. intros [= Ht Hu]. rewrite Ht, Hu. auto.
Qed.

Lemma deliver_reg_view m w s : reg_view (deliver m w s) = reg_view s.
Proof.
  unfold deliver, reg_view.
  send_cases w s; simpl; try done.
  by rewrite length_insert.
Qed.

Lemma deliver_task_view m w s : task_view (deliver m w s) = task_view s.
Proof.
  unfold deliver. send_cases w s; done.
Qed.

Lemma deliver_heap m w s : heap (deliver m w s) = heap s.
Proof.
  unfold deliver. send_cases w s; done.
Qed.

Lemma deliver_active m w s : active_connections (deliver m w s) = active_connections s.
Proof.
  unfold deliver. send_cases w s; done.
Qed.

Lemma deliver_price_cache m w s : price_cache (deliver m w s) = price_cache s.
Proof.
  unfold deliver. send_cases w s; done.
Qed.

Lemma deliver_update_tasks m w s : update_tasks (deliver m w s) = update_tasks s.
Proof.
  unfold deliver. send_cases w s; done.
Qed.

Lemma deliver_tasks m w s : tasks (deliver m w s) = tasks s.
Proof.
  unfold deliver. send_cases w s; done.
Qed.

Lemma publish_to_heap m T coin s client : heap (publish_to m T coin s client) = heap s.
Proof.
  unfold publish_to. destruct (heap s !! client) as [c|]; [|done].
  destruct (recipient T coin c); [apply deliver_heap|done].
Qed.

Lemma publish_to_reg_view m T coin s client :
  reg_view (publish_to m T coin s client) = reg_view s.
Proof.
  unfold publish_to. destruct (heap s !! client) as [c|]; [|done].
  destruct (recipient T coin c); [apply deliver_reg_view|done].
Qed.

Lemma publish_to_task_view m T coin s client :
  task_view (publish_to m T coin s client) = task_view s.
Proof.
  unfold publish_to. destruct (heap s !! client) as [c|]; [|done].
  destruct (recipient T coin c); [apply deliver_task_view|done].
Qed.

Lemma publish_to_price_cache m T coin s client :
  price_cache (publish_to m T coin s client) = price_cache s.
Proof.
  unfold publish_to. destruct (heap s !! client) as [c|]; [|done].
  destruct (recipient T coin c); [apply deliver_price_cache|done].
Qed.

Lemma foldl_preserves {A B} (g : World → B) (f : World → A → World) xs s :
  (∀ s x, g (f s x) = g s) → g (foldl f s xs) = g s.
Proof.
  intros Hf. revert s. induction xs as [|x xs IH]; intros s; simpl; [done|].
  by rewrite IH, Hf.
Qed.

Lemma cleanup_state_reg_view s : reg_view (cleanup_state s) = reg_view s.
Proof. done. Qed.

Lemma start_state_reg_view k c s : reg_view (start_state k c s) = reg_view s.
Proof. unfold start_state. by destruct (update_tasks s !! k). Qed.

Lemma start_state_heap k c s : heap (start_state k c s) = heap s.
Proof. unfold start_state. by destruct (update_tasks s !! k). Qed.

Lemma start_state_sockets k c s : sockets (start_state k c s) = sockets s.
Proof. unfold start_state. by destruct (update_tasks s !! k). Qed.

Lemma start_state_active k c s :
  active_connections (start_state k c s) = active_connections s.
Proof. unfold start_state. by destruct (update_tasks s !! k). Qed.

Lemma start_state_price_cache k c s : price_cache (start_state k c s) = price_cache s.
Proof. unfold start_state. by destruct (update_tasks s !! k). Qed.

Lemma fmap_websocket_alter (g : ClientSubscription → ClientSubscription)
    (i : nat) (h : list ClientSubscription) :
  (∀ c, websocket (g c) = websocket c) →
  websocket <$> alter g i h = websocket <$> h.
Proof.
  intros Hg. apply list_eq. intros j. rewrite !list_lookup_fmap.
  destruct (decide (i = j)) as [->|Hne].
  - rewrite list_lookup_alter_eq. destruct (h !! j); simpl; [by rewrite Hg|done].
  - by rewrite list_lookup_alter_ne.
Qed.

(** ** The task table and the task dictionary *)

Lemma lookup_foldr_delete (R : list (string * nat)) (m : gmap string nat) k :
  foldr (λ kt, delete kt.1) m R !! k = if decide (k ∈ R.*1) then None else m !! k.
Proof.
  induction R as [|[k' t'] R IH]; [done|].
  rewrite fmap_cons. cbn [foldr fst].
  destruct (decide (k' = k)) as [->|Hne].
  - rewrite lookup_delete_eq.
    destruct (decide (k ∈ k :: R.*1)) as [|H]; [done|].
    exfalso. apply H. apply list_elem_of_here.
  - rewrite lookup_delete_ne by done. rewrite IH.
    destruct (decide (k ∈ R.*1)) as [Hin|Hin],
             (decide (k ∈ k' :: R.*1)) as [Hin'|Hin']; try done; exfalso.
    + apply Hin'. by apply list_elem_of_further.
    + apply elem_of_cons in Hin' as [?|?]; [congruence|done].
Qed.

Lemma length_cancel t ts : length (cancel t ts) = length ts.
Proof. unfold cancel. destruct (ts !! t); [apply length_insert|done]. Qed.

Lemma lookup_cancel t ts i :
  cancel t ts !! i
  = (λ tk, if decide (t = i) then {| coro := coro tk; cancelled := true |} else tk)
      <$> ts !! i.
Proof.
  unfold cancel. destruct (ts !! t) as [tk|] eqn:Ht.
  - destruct (decide (t = i)) as [->|Hne].
    + rewrite list_lookup_insert_eq by (by eapply lookup_lt_Some).
      by rewrite Ht.
    + rewrite list_lookup_insert_ne by done. by destruct (ts !! i).
  - destruct (decide (t = i)) as [->|Hne]; [by rewrite Ht|by destruct (ts !! i)].
Qed.

Lemma lookup_foldr_cancel (R : list (string * nat)) (ts : list Task) i :
  foldr (λ kt, cancel kt.2) ts R !! i
  = (λ tk, if decide (i ∈ R.*2) then {| coro := coro tk; cancelled := true |} else tk)
      <$> ts !! i.
Proof.
  induction R as [|[k' t'] R IH].
  - simpl. by destruct (ts !! i).
  - rewrite fmap_cons. cbn [foldr snd].
    rewrite lookup_cancel, IH. clear IH.
    destruct (ts !! i) as [tk|]; cbn [fmap option_fmap option_map]; [|done].
    f_equal.
    destruct (decide (t' = i)) as [->|Hne],
             (decide (i ∈ R.*2)) as [Hin|Hin],
             (decide (i ∈ _ :: R.*2)) as [Hin'|Hin']; try done; exfalso.
    + apply Hin'. apply list_elem_of_here.
    + apply Hin'. apply list_elem_of_here.
    + apply Hin'. by apply list_elem_of_further.
    + apply elem_of_cons in Hin' as [?|?]; [congruence|done].
Qed.

(** Removing any part of the dictionary together with cancelling the tasks
    removed keeps the table and the dictionary in step. *)
Lemma tasks_inv_remove (R : list (string * nat)) s :
  R ⊆ map_to_list (update_tasks s) →
  tasks_inv s →
  tasks_inv (set_update_tasks (λ m, foldr (λ kt, delete kt.1) m R)
               (set_tasks (λ ts, foldr (λ kt, cancel kt.2) ts R) s)).
Proof.
  intros HR [H1 H2]. unfold tasks_inv, live_poller in *; simpl.
  assert (HRm : ∀ k t, (k, t) ∈ R → update_tasks s !! k = Some t).
  { intros k t Hin. apply elem_of_map_to_list. by apply HR. }
  split.
  - intros k t. rewrite lookup_foldr_delete.
    destruct (decide (k ∈ R.*1)) as [|Hk]; [done|].
    intros Hkt. destruct (H1 _ _ Hkt) as (c & Hc & Hkey). exists c. split; [|done].
    rewrite lookup_foldr_cancel, Hc. simpl.
    rewrite decide_False; [done|]. intros Ht.
    apply list_elem_of_fmap in Ht as ([k' t'] & Heq & Hin). simpl in Heq. subst t'.
    pose proof (HRm _ _ Hin) as Hm'.
    destruct (H1 _ _ Hm') as (c' & Hc' & Hkey').
    assert (c' = c) by congruence. subst c'. apply Hk.
    apply list_elem_of_fmap. exists (k', t). split; [simpl; congruence|done].
  - intros t c. rewrite lookup_foldr_cancel.
    destruct (tasks s !! t) as [tk|] eqn:Htk; simpl; [|done].
    destruct (decide (t ∈ R.*2)) as [|Ht]; [done|].
    intros [= ->]. pose proof (H2 _ _ Htk) as Hm.
    rewrite lookup_foldr_delete. rewrite decide_False; [done|]. intros Hk.
    apply list_elem_of_fmap in Hk as ([k' t'] & Heq & Hin). simpl in Heq. subst k'.
    pose proof (HRm _ _ Hin) as Hm'. assert (t' = t) by congruence. subst t'.
    apply Ht. apply list_elem_of_fmap. by exists (task_key c, t).
Qed.

(** ** Preservation of the invariants *)

Lemma tasks_inv_cleanup s : tasks_inv s → tasks_inv (cleanup_state s).
Proof.
  intros H. unfold cleanup_state. apply tasks_inv_remove; [|done].
  intros x Hx. by apply list_elem_of_filter in Hx as [_ Hx].
Qed.

Lemma tasks_inv_start c s : tasks_inv s → tasks_inv (start_state (task_key c) c s).
Proof.
  intros [H1 H2]. unfold start_state.
  destruct (update_tasks s !! task_key c) as [t0|] eqn:Hkey; [done|].
  unfold tasks_inv, live_poller in *; simpl. split.
  - intros k t. destruct (decide (task_key c = k)) as [<-|Hne].
    + rewrite lookup_insert_eq. intros [= <-]. exists c. split; [|done].
      by rewrite lookup_app_r, Nat.sub_diag.
    + rewrite lookup_insert_ne by done. intros Hkt.
      destruct (H1 _ _ Hkt) as (c' & Hc' & Hk'). exists c'. split; [|done].
      by apply lookup_app_l_Some.
  - intros t c'. intros Ht. apply lookup_app_Some in Ht as [Ht|[Hlen Ht]].
    + pose proof (H2 _ _ Ht) as Hm. rewrite lookup_insert_ne; [done|].
      intros Heq. rewrite Heq in Hkey. congruence.
    + destruct (t - length (tasks s)) as [|n] eqn:Hn; simpl in Ht; [|done].
      injection Ht as <-. assert (t = length (tasks s)) as -> by lia.
      apply lookup_insert_eq.
Qed.

Lemma tasks_inv_start_tasks T coins s :
  tasks_inv s → tasks_inv (start_tasks_state T coins s).
Proof.
  unfold start_tasks_state. generalize (pollers_of T coins). intros cs.
  revert s. induction cs as [|c cs IH]; intros s Hs; simpl; [done|].
  apply IH. by apply tasks_inv_start.
Qed.

Lemma start_tasks_state_reg_view T coins s :
  reg_view (start_tasks_state T coins s) = reg_view s.
Proof.
  unfold start_tasks_state. apply foldl_preserves. intros; apply start_state_reg_view.
Qed.

Lemma start_tasks_state_heap T coins s : heap (start_tasks_state T coins s) = heap s.
Proof.
  unfold start_tasks_state. apply foldl_preserves. intros; apply start_state_heap.
Qed.

Lemma start_tasks_state_sockets T coins s :
  sockets (start_tasks_state T coins s) = sockets s.
Proof.
  unfold start_tasks_state. apply foldl_preserves. intros; apply start_state_sockets.
Qed.

Lemma start_tasks_state_active T coins s :
  active_connections (start_tasks_state T coins s) = active_connections s.
Proof.
  unfold start_tasks_state. apply foldl_preserves. intros; apply start_state_active.
Qed.

Lemma start_tasks_state_price_cache T coins s :
  price_cache (start_tasks_state T coins s) = price_cache s.
Proof.
  unfold start_tasks_state. apply foldl_preserves. intros; apply start_state_price_cache.
Qed.

(** ** The registry *)

Lemma py_remove_sublist h x l : sublist (py_remove h x l) l.
Proof.
  induction l as [|y l IH]; simpl; [done|].
  destruct (py_eq h y x); [by apply sublist_cons|by apply sublist_skip].
Qed.

Lemma reg_inv_remove h x s :
  reg_inv s → reg_inv (set_active_connections (py_remove h x) s).
Proof.
  intros (H1 & H2 & H3 & H4). unfold reg_inv; simpl. repeat split; try done.
  - apply Forall_forall. intros l Hl. rewrite Forall_forall in H1. apply H1.
    eapply elem_of_sublist; [done|]. apply py_remove_sublist.
  - eapply sublist_NoDup; [exact H2|]. apply py_remove_sublist.
Qed.

Lemma reg_inv_disconnect client s : reg_inv s → reg_inv (disconnect_state client s).
Proof.
  intros H. unfold disconnect_state.
  apply (reg_inv_view _ _ (cleanup_state_reg_view _)).
  destruct (py_in (heap s) client (active_connections s)); [|done].
  by apply reg_inv_remove.
Qed.

Lemma tasks_inv_disconnect client s : tasks_inv s → tasks_inv (disconnect_state client s).
Proof.
  intros H. unfold disconnect_state. apply tasks_inv_cleanup.
  by destruct (py_in (heap s) client (active_connections s)).
Qed.

Lemma set_subscriptions_websocket f c : websocket (set_subscriptions f c) = websocket c.
Proof. done. Qed.
Lemma set_watched_coins_websocket f c : websocket (set_watched_coins f c) = websocket c.
Proof. done. Qed.

Lemma subscribe_state_reg_view client T coins s :
  reg_view (subscribe_state client T coins s) = reg_view s.
Proof.
  unfold subscribe_state. destruct (heap s !! client) as [c0|]; [|done].
  cbv zeta.
  match goal with |- context [start_tasks_state T coins ?s2] =>
    assert (Hs2 : reg_view s2 = reg_view s) end.
  { unfold reg_view. destruct (list_truthy coins); simpl;
      by rewrite ?fmap_websocket_alter by done. }
  match goal with |- context [heap ?s3 !! client] => destruct (heap s3 !! client) end.
  - by rewrite deliver_reg_view, start_tasks_state_reg_view.
  - by rewrite start_tasks_state_reg_view.
Qed.

Lemma tasks_inv_subscribe client T coins s :
  tasks_inv s → tasks_inv (subscribe_state client T coins s).
Proof.
  intros H. unfold subscribe_state. destruct (heap s !! client) as [c0|]; [|done].
  cbv zeta.
  match goal with |- context [start_tasks_state T coins ?s2] =>
    assert (Hs2 : tasks_inv s2) by (by destruct (list_truthy coins)) end.
  match goal with |- context [heap ?s3 !! client] => destruct (heap s3 !! client) end.
  - eapply tasks_inv_view; [apply deliver_task_view|]. by apply tasks_inv_start_tasks.
  - by apply tasks_inv_start_tasks.
Qed.

Lemma unsubscribe_state_reg_view client T s :
  reg_view (unsubscribe_state client T s) = reg_view s.
Proof.
  unfold unsubscribe_state. destruct (heap s !! client) as [c|]; [|done].
  rewrite cleanup_state_reg_view, deliver_reg_view. unfold reg_view; simpl.
  by rewrite fmap_websocket_alter.
Qed.

Lemma tasks_inv_unsubscribe client T s :
  tasks_inv s → tasks_inv (unsubscribe_state client T s).
Proof.
  intros H. unfold unsubscribe_state. destruct (heap s !! client) as [c|]; [|done].
  apply tasks_inv_cleanup. eapply tasks_inv_view; [apply deliver_task_view|done].
Qed.

Lemma publish_all_reg_view m T coin clients s :
  reg_view (foldl (publish_to m T coin) s clients) = reg_view s.
Proof. apply foldl_preserves. intros; apply publish_to_reg_view. Qed.

Lemma publish_all_task_view m T coin clients s :
  task_view (foldl (publish_to m T coin) s clients) = task_view s.
Proof. apply foldl_preserves. intros; apply publish_to_task_view. Qed.

Lemma publish_all_heap m T coin clients s :
  heap (foldl (publish_to m T coin) s clients) = heap s.
Proof. apply foldl_preserves. intros; apply publish_to_heap. Qed.

Lemma publish_all_price_cache m T coin clients s :
  price_cache (foldl (publish_to m T coin) s clients) = price_cache s.
Proof. apply foldl_preserves. intros; apply publish_to_price_cache. Qed.

Lemma publish_all_active m T coin clients s :
  active_connections (foldl (publish_to m T coin) s clients) = active_connections s.
Proof.
  pose proof (publish_all_reg_view m T coin clients s) as H.
  unfold reg_view in H. congruence.
Qed.

(** ** States reached by each operation *)

Lemma connect_run client_id s :
  step (Connect client_id) s = (Ok tt, connect_state client_id s).
Proof.
  unfold step, connect_state, bind at 1, new_websocket. 
  unfold connect, bind at 1, bind at 1, accept. simpl.
  rewrite lookup_app_r, Nat.sub_diag by done. simpl.
  unfold bind, get, modify. simpl.
  rewrite send_personal_message_run. reflexivity.
Qed.

Lemma _fetch_price_data_run coin upstream s :
  _fetch_price_data coin upstream s
  = (Ok (fetched coin upstream), fetch_state coin upstream s).
Proof.
  unfold _fetch_price_data, fetched, fetch_state, try_except.
  destruct upstream as [status data|e]; [|reflexivity].
  destruct (bool_decide (status = 200%Z)); [|reflexivity].
  by destruct (data !! coin).
Qed.

Lemma fetch_state_active coin u s :
  active_connections (fetch_state coin u s) = active_connections s.
Proof. by destruct u. Qed.

Lemma price_update_iteration_run coin upstream s :
  price_update_iteration coin upstream s
  = (Ok (if has_subscribers PRICE_UPDATES coin s then loop_sleep 30 else loop_break),
     price_tick_state coin upstream s).
Proof.
  unfold price_update_iteration, try_except, price_update_try, price_tick_state.
  unfold bind at 1, get. simpl.
  destruct (has_subscribers PRICE_UPDATES coin s); simpl; [|reflexivity].
  unfold bind at 1. rewrite _fetch_price_data_run.
  destruct (fetched coin upstream) as [d|]; [|reflexivity].
  unfold bind, modify. rewrite broadcast_to_subscribers_run. simpl.
  by rewrite fetch_state_active.
Qed.

Lemma endpoint_failure_run client e s :
  (match e with
   | WebSocketDisconnect => disconnect client >> ret false
   | _ =>
       do s <- get;
       log_error (log_endpoint_error
                    (default "" (client_id <$> heap s !! client)) e) >>
       disconnect client >> ret false
   end) s = (Ok false, endpoint_failure client e s).
Proof.
  unfold endpoint_failure.
  destruct e; unfold bind, get, log_error, modify; simpl;
    by rewrite disconnect_run.
Qed.

Lemma endpoint_iteration_run client w r s :
  endpoint_iteration client w r s
  = (Ok (endpoint_state client w r s).1, (endpoint_state client w r s).2).
Proof.
  unfold endpoint_iteration, try_except, endpoint_state, endpoint_try.
  destruct r as [message| |].
  - destruct (bool_decide (msg_type message = Some "subscribe")).
    { unfold bind at 1. unfold bind at 1.
      destruct (SubscriptionType_call (msg_subscription_type message)) as [e|T]; simpl.
      - unfold raise. by apply (endpoint_failure_run client e s).
      - unfold ret at 1. by rewrite subscribe_client_run. }
    destruct (bool_decide (msg_type message = Some "unsubscribe")).
    { unfold bind at 1. unfold bind at 1.
      destruct (SubscriptionType_call (msg_subscription_type message)) as [e|T]; simpl.
      - unfold raise. by apply (endpoint_failure_run client e s).
      - unfold ret at 1. by rewrite unsubscribe_client_run. }
    destruct (bool_decide (msg_type message = Some "ping")).
    { unfold bind. by rewrite send_personal_message_run. }
    destruct (bool_decide (msg_type message = Some "get_current_prices")).
    { unfold bind, get. by rewrite send_personal_message_run. }
    reflexivity.
  - unfold bind, raise. by apply (endpoint_failure_run client JSONDecodeError s).
  - unfold bind, raise.
    by apply (endpoint_failure_run client WebSocketDisconnect s).
Qed.

(** No operation of a history lets an exception escape. *)
Lemma step_run o s : step o s = (Ok tt, step_state o s).
Proof.
  destruct o as [cid|client T coins|client T|client|m T coin|coin u|client r|w e].
  - apply connect_run.
  - apply subscribe_client_run.
  - apply unsubscribe_client_run.
  - apply disconnect_run.
  - apply broadcast_to_subscribers_run.
  - unfold step, bind. by rewrite price_update_iteration_run.
  - unfold step, step_state, bind at 1, get.
    destruct (heap s !! client) as [c|]; [|reflexivity].
    destruct (bool_decide (client ∈ active_connections s)); [|reflexivity].
    unfold bind. by rewrite endpoint_iteration_run.
  - reflexivity.
Qed.

Lemma run_step_state ops s : run ops s = foldl (λ s o, step_state o s) s ops.
Proof.
  unfold run. revert s. induction ops as [|o ops IH]; intros s; simpl; [done|].
  unfold exec at 2. rewrite step_run. apply IH.
Qed.

Lemma run_snoc ops o s : run (ops ++ [o]) s = step_state o (run ops s).
Proof. rewrite !run_step_state. by rewrite foldl_app. Qed.

(** ** Every history keeps the hub well formed *)

Lemma reg_inv_connect cid s : reg_inv s → reg_inv (connect_state cid s).
Proof.
  intros (H1 & H2 & H3 & H4). unfold connect_state.
  apply (reg_inv_view _ _ (deliver_reg_view _ _ _)).
  unfold reg_inv; simpl. rewrite fmap_app, !length_app. simpl.
  rewrite Forall_forall in H1. rewrite Forall_forall in H4.
  repeat split.
  - apply Forall_app. split.
    + apply Forall_forall. intros l Hl. specialize (H1 _ Hl). lia.
    + apply Forall_singleton. lia.
  - apply NoDup_app. repeat split; [done| |apply NoDup_singleton].
    intros l Hl Hin. apply list_elem_of_singleton in Hin. specialize (H1 _ Hl). lia.
  - apply NoDup_app. repeat split; [done| |apply NoDup_singleton].
    intros w Hw Hin. apply list_elem_of_singleton in Hin. specialize (H4 _ Hw). lia.
  - apply Forall_app. split.
    + apply Forall_forall. intros w Hw. specialize (H4 _ Hw). lia.
    + apply Forall_singleton. lia.
Qed.

Lemma tasks_inv_connect cid s : tasks_inv s → tasks_inv (connect_state cid s).
Proof.
  intros H. unfold connect_state.
  eapply tasks_inv_view; [apply deliver_task_view|done].
Qed.

Lemma price_tick_state_reg_view coin u s :
  reg_view (price_tick_state coin u s) = reg_view s.
Proof.
  unfold price_tick_state. destruct (has_subscribers PRICE_UPDATES coin s); [|done].
  destruct (fetched coin u).
  - rewrite publish_all_reg_view. by destruct u.
  - by destruct u.
Qed.

Lemma price_tick_state_task_view coin u s :
  task_view (price_tick_state coin u s) = task_view s.
Proof.
  unfold price_tick_state. destruct (has_subscribers PRICE_UPDATES coin s); [|done].
  destruct (fetched coin u).
  - rewrite publish_all_task_view. by destruct u.
  - by destruct u.
Qed.

Lemma reg_inv_endpoint_failure client e s :
  reg_inv s → reg_inv (endpoint_failure client e s).
Proof.
  intros H. unfold endpoint_failure. apply reg_inv_disconnect. by destruct e.
Qed.

Lemma tasks_inv_endpoint_failure client e s :
  tasks_inv s → tasks_inv (endpoint_failure client e s).
Proof.
  intros H. unfold endpoint_failure. apply tasks_inv_disconnect. by destruct e.
Qed.

Lemma wf_endpoint client w r s : wf s → wf (endpoint_state client w r s).2.
Proof.
  intros [Hr Ht]. unfold endpoint_state.
  assert (Hfail : ∀ e, wf (endpoint_failure client e s)).
  { intros e. split; [by apply reg_inv_endpoint_failure
                     |by apply tasks_inv_endpoint_failure]. }
  destruct r as [message| |]; simpl; [|done|done].
  repeat case_match; simpl; try done.
  - split; [by apply (reg_inv_view _ _ (subscribe_state_reg_view _ _ _ _))
           |by apply tasks_inv_subscribe].
  - split; [by apply (reg_inv_view _ _ (unsubscribe_state_reg_view _ _ _))
           |by apply tasks_inv_unsubscribe].
  - split; [by apply (reg_inv_view _ _ (deliver_reg_view _ _ _))
           |by apply (tasks_inv_view _ _ (deliver_task_view _ _ _))].
  - split; [by apply (reg_inv_view _ _ (deliver_reg_view _ _ _))
           |by apply (tasks_inv_view _ _ (deliver_task_view _ _ _))].
Qed.

Lemma wf_step o s : wf s → wf (step_state o s).
Proof.
  intros [Hr Ht].
  destruct o as [cid|client T coins|client T|client|m T coin|coin u|client r|w e];
    simpl.
  - split; [by apply reg_inv_connect|by apply tasks_inv_connect].
  - split; [by apply (reg_inv_view _ _ (subscribe_state_reg_view _ _ _ _))
           |by apply tasks_inv_subscribe].
  - split; [by apply (reg_inv_view _ _ (unsubscribe_state_reg_view _ _ _))
           |by apply tasks_inv_unsubscribe].
  - split; [by apply reg_inv_disconnect|by apply tasks_inv_disconnect].
  - split; [by apply (reg_inv_view _ _ (publish_all_reg_view _ _ _ _ _))
           |by apply (tasks_inv_view _ _ (publish_all_task_view _ _ _ _ _))].
  - split; [by apply (reg_inv_view _ _ (price_tick_state_reg_view _ _ _))
           |by apply (tasks_inv_view _ _ (price_tick_state_task_view _ _ _))].
  - destruct (heap s !! client) as [c|]; [|done].
    destruct (bool_decide (client ∈ active_connections s)); [|done].
    by apply wf_endpoint.
  - split.
    + apply (reg_inv_view s); [|done]. unfold reg_view; simpl.
      by rewrite length_alter.
    + by apply (tasks_inv_view s).
Qed.

Lemma wf_init : wf init.
Proof.
  split.
  - unfold reg_inv; simpl. repeat split; constructor.
  - split.
    + intros k t Hk. simpl in Hk. by rewrite lookup_empty in Hk.
    + intros t c Ht. unfold live_poller in Ht. simpl in Ht. by rewrite lookup_nil in Ht.
Qed.

Lemma wf_run_from ops s : wf s → wf (run ops s).
Proof.
  rewrite run_step_state. revert s.
  induction ops as [|o ops IH]; intros s Hs; simpl; [done|].
  apply IH. by apply wf_step.
Qed.

Lemma wf_run ops : wf (run ops init).
Proof. apply wf_run_from, wf_init. Qed.

(** ** One poller per feed key *)

Lemma start_state_lookup_mono k c k' s :
  is_Some (update_tasks s !! k') →
  is_Some (update_tasks (start_state k c s) !! k').
Proof.
  intros H. unfold start_state. destruct (update_tasks s !! k) as [t|] eqn:Hk; [done|].
  simpl. destruct (decide (k = k')) as [->|Hne].
  - rewrite lookup_insert_eq. eauto.
  - by rewrite lookup_insert_ne.
Qed.

Lemma start_state_lookup k c s : is_Some (update_tasks (start_state k c s) !! k).
Proof.
  unfold start_state. destruct (update_tasks s !! k) as [t|] eqn:Hk.
  - rewrite Hk. eauto.
  - simpl. rewrite lookup_insert_eq. eauto.
Qed.

Lemma start_all_lookup (cs : list Coroutine) c s :
  c ∈ cs →
  is_Some (update_tasks (foldl (λ s c, start_state (task_key c) c s) s cs)
             !! task_key c).
Proof.
  revert s. induction cs as [|c0 cs IH]; intros s Hin; [by apply elem_of_nil in Hin|].
  simpl. apply elem_of_cons in Hin as [->|Hin].
  - generalize (start_state_lookup (task_key c0) c0 s).
    generalize (start_state (task_key c0) c0 s). clear. intros s Hs.
    revert s Hs. induction cs as [|c1 cs IH]; intros s Hs; simpl; [done|].
    apply IH. by apply start_state_lookup_mono.
  - by apply IH.
Qed.

Lemma task_key_inj c1 c2 : task_key c1 = task_key c2 → c1 = c2.
Proof.
  destruct c1 as [a| |a], c2 as [b| |b]; intros H; cbv in H;
    try reflexivity; try discriminate H; by injection H as ->.
Qed.

Lemma subscribe_state_starts client T coins s c :
  is_Some (heap s !! client) →
  c ∈ pollers_of T coins →
  is_Some (update_tasks (subscribe_state client T coins s) !! task_key c).
Proof.
  intros [c0 Hc0] Hin. unfold subscribe_state. rewrite Hc0. cbv zeta.
  match goal with |- context [heap ?s3 !! client] => destruct (heap s3 !! client) end.
  - rewrite deliver_update_tasks. by apply start_all_lookup.
  - by apply start_all_lookup.
Qed.



(** In that state the task dictionary and the task table are empty. *)
Lemma portfolio_subscriber_starts_nothing :
  let s := run [Connect "a"; Subscribe 0 PORTFOLIO_UPDATES ["btc"]] init in
  has_type_subscribers PORTFOLIO_UPDATES s = true
  ∧ update_tasks s = ∅
  ∧ tasks s = [].
Proof. vm_compute. repeat split. Qed.

(** The same gap inside the polled feeds: after a connection has
    subscribed to the indicators of "btc" and to the price of "eth", the
    hub counts it as a subscriber of the price of "btc" (it would get the
    prices of "btc"), and no poller serves that key. *)
Lemma subscriber_by_shared_watch_has_no_poller :
  let s := run [Connect "a"; Subscribe 0 TECHNICAL_INDICATORS ["btc"];
                Subscribe 0 PRICE_UPDATES ["eth"]] init in
  has_subscribers PRICE_UPDATES "btc" s = true
  ∧ update_tasks s !! "price_btc" = None
  ∧ ∀ t, ¬ live_poller s (price_update_loop "btc") t.
Proof.
  split; [vm_compute; reflexivity|]. split; [vm_compute; reflexivity|].
  intros [|[|t]] Ht; vm_compute in Ht; discriminate Ht.
Qed.



(** ** Cleanup and disconnect *)

Lemma filter_none {A} (P : A → Prop) `{!∀ x, Decision (P x)} (l : list A) :
  (∀ x, x ∈ l → ¬ P x) → filter P l = [].
Proof.
  induction l as [|x l IH]; intros Hall; [done|].
  rewrite filter_cons_False by (apply Hall, list_elem_of_here).
  apply IH. intros y Hy. apply Hall. by apply list_elem_of_further.
Qed.

(** What [_cleanup_unused_tasks] does to one entry of the dictionary. *)
Lemma cleanup_state_entry s k t :
  tasks_inv s →
  update_tasks s !! k = Some t →
  (task_has_subscribers k s = false →
     update_tasks (cleanup_state s) !! k = None
     ∧ ∃ c, tasks (cleanup_state s) !! t = Some {| coro := c; cancelled := true |})
  ∧ (task_has_subscribers k s = true →
     update_tasks (cleanup_state s) !! k = Some t
     ∧ tasks (cleanup_state s) !! t = tasks s !! t).
Proof.
  intros [H1 H2] Hkt. unfold cleanup_state; simpl.
  set (R := filter (λ kt : string * nat, task_has_subscribers kt.1 s = false)
                   (map_to_list (update_tasks s))).
  assert (HR : ∀ k' t', (k', t') ∈ R ↔
                 task_has_subscribers k' s = false ∧ update_tasks s !! k' = Some t').
  { intros k' t'. unfold R. rewrite list_elem_of_filter, elem_of_map_to_list. done. }
  destruct (H1 _ _ Hkt) as (c & Hc & Hkey). unfold live_poller in Hc.
  rewrite lookup_foldr_delete, lookup_foldr_cancel, Hc. simpl. split.
  - intros Hno. assert (Hin : (k, t) ∈ R) by (by apply HR).
    rewrite decide_True by (apply list_elem_of_fmap; by exists (k, t)).
    split; [done|]. exists c.
    by rewrite decide_True by (apply list_elem_of_fmap; by exists (k, t)).
  - intros Hyes.
    rewrite decide_False.
    2:{ intros Hin. apply list_elem_of_fmap in Hin as ([k' t'] & Heq & Hin).
        simpl in Heq. subst k'. apply HR in Hin as [Hno _]. congruence. }
    split; [done|].
    rewrite decide_False; [done|].
    intros Hin. apply list_elem_of_fmap in Hin as ([k' t'] & Heq & Hin).
    simpl in Heq. subst t'. apply HR in Hin as [Hno Hk't].
    destruct (H1 _ _ Hk't) as (c' & Hc' & Hkey'). unfold live_poller in Hc'.
    assert (c' = c) by congruence. subst c'. congruence.
Qed.

Lemma cleanup_state_idemp s : cleanup_state (cleanup_state s) = cleanup_state s.
Proof.
  unfold cleanup_state at 1.
  set (s1 := cleanup_state s).
  rewrite filter_none.
  { by destruct s1. }
  intros [k t] Hin Hno. simpl in Hno.
  apply elem_of_map_to_list in Hin. unfold s1, cleanup_state in Hin. simpl in Hin.
  rewrite lookup_foldr_delete in Hin.
  destruct (decide (k ∈ _)) as [|Hk] in Hin; [done|]. apply Hk.
  apply list_elem_of_fmap. exists (k, t). split; [done|].
  apply list_elem_of_filter. split; [done|]. by apply elem_of_map_to_list.
Qed.

Lemma py_eq_true h a b :
  NoDup (websocket <$> h) → py_eq h a b = true → a = b.
Proof.
  intros Hnd. unfold py_eq. intros H. apply orb_true_iff in H as [H|H].
  - by apply bool_decide_eq_true in H.
  - destruct (h !! a) as [ca|] eqn:Ha; [|done].
    destruct (h !! b) as [cb|] eqn:Hb; [|done].
    apply bool_decide_eq_true in H. subst cb.
    eapply NoDup_lookup; [exact Hnd| |]; rewrite list_lookup_fmap.
    + by rewrite Ha.
    + by rewrite Hb.
Qed.

Lemma py_eq_refl h a : py_eq h a a = true.
Proof. unfold py_eq. by rewrite bool_decide_eq_true_2. Qed.

Lemma py_in_elem h x l : NoDup (websocket <$> h) → py_in h x l = true → x ∈ l.
Proof.
  intros Hnd H. unfold py_in in H. apply existsb_exists in H as (y & Hy & Heq).
  apply py_eq_true in Heq; [|done]. subst y. by apply list_elem_of_In.
Qed.

Lemma not_elem_py_remove h x l :
  NoDup (websocket <$> h) → NoDup l → x ∉ py_remove h x l.
Proof.
  intros Hnd. induction l as [|y l IH]; intros Hl; simpl; [apply not_elem_of_nil|].
  apply NoDup_cons in Hl as [Hy Hl].
  destruct (py_eq h y x) eqn:Heq.
  - apply py_eq_true in Heq; [|done]. by subst y.
  - intros Hin. apply elem_of_cons in Hin as [->|Hin].
    + by rewrite py_eq_refl in Heq.
    + by apply IH.
Qed.

Lemma disconnect_state_idemp client s :
  reg_inv s →
  disconnect_state client (disconnect_state client s) = disconnect_state client s.
Proof.
  intros (H1 & H2 & H3 & H4). unfold disconnect_state at 1.
  set (s2 := disconnect_state client s).
  assert (Hh : heap s2 = heap s).
  { unfold s2, disconnect_state.
    by destruct (py_in (heap s) client (active_connections s)). }
  assert (Hno : py_in (heap s2) client (active_connections s2) = false).
  { rewrite Hh. destruct (py_in (heap s) client (active_connections s2)) eqn:Hin;
      [|done].
    exfalso. apply py_in_elem in Hin; [|done].
    unfold s2, disconnect_state in Hin.
    destruct (py_in (heap s) client (active_connections s)) eqn:Hin0; simpl in Hin.
    - by apply not_elem_py_remove in Hin.
    - apply list_elem_of_In in Hin. 
      assert (py_in (heap s) client (active_connections s) = true); [|congruence].
      apply existsb_exists. exists client. split; [done|apply py_eq_refl]. }
  rewrite Hno. unfold s2, disconnect_state. apply cleanup_state_idemp.
Qed.

(** C2 (failing input).  Two connections are subscribed to the price of
    the coin named "price_btc"; the first unsubscribes.  The second is
    still a subscriber of that key, yet the poller of the key is cancelled
    and removed: [_cleanup_unused_tasks] recovers the coin from the task
    key with [replace], which also strips the "price_" inside the name and
    looks for subscribers of "btc". *)
Theorem C2_poller_cancelled_with_subscriber_left :
  let s := run [Connect "a"; Connect "b";
                Subscribe 0 PRICE_UPDATES ["price_btc"];
                Subscribe 1 PRICE_UPDATES ["price_btc"]] init in
  let s' := exec (unsubscribe_client 0 PRICE_UPDATES) s in
  live_poller s (price_update_loop "price_btc") 0
  ∧ update_tasks s !! "price_price_btc" = Some 0
  ∧ has_subscribers PRICE_UPDATES "price_btc" s' = true
  ∧ update_tasks s' !! "price_price_btc" = None
  ∧ tasks s' !! 0 = Some {| coro := price_update_loop "price_btc"; cancelled := true |}
  ∧ str_replace "price_" "" "price_price_btc" = "btc".
Proof. vm_compute. repeat split. Qed.

(** The same slip the other way round: the last subscriber of the coin
    "price_btc" leaves and its poller stays, because another connection
    watches "btc". *)
Lemma poller_kept_without_subscriber :
  let s := run [Connect "a"; Connect "b";
                Subscribe 0 PRICE_UPDATES ["price_btc"];
                Subscribe 1 PRICE_UPDATES ["btc"]] init in
  let s' := exec (unsubscribe_client 0 PRICE_UPDATES) s in
  has_subscribers PRICE_UPDATES "price_btc" s' = false
  ∧ live_poller s' (price_update_loop "price_btc") 0
  ∧ update_tasks s' !! "price_price_btc" = Some 0.
Proof. vm_compute. repeat split. Qed.

Lemma startswith_price_price coin : startswith "price_" ("price_" +:+ coin) = true.
Proof. by destruct coin. Qed.

Lemma startswith_price_indicators coin :
  startswith "price_" ("indicators_" +:+ coin) = false.
Proof. by destruct coin. Qed.

Lemma startswith_indicators_indicators coin :
  startswith "indicators_" ("indicators_" +:+ coin) = true.
Proof. by destruct coin. Qed.

Lemma task_has_subscribers_key K c s :
  poller_of K = Some c →
  key_round_trips K →
  task_has_subscribers (task_key c) s = key_has_subscribers K s.
Proof.
  destruct K as [T coin]. unfold poller_of, key_round_trips, key_has_subscribers.
  simpl. destruct T; intros [= <-] Hrt; simpl; try done.
  - unfold task_has_subscribers. rewrite startswith_price_price. by rewrite Hrt.
  - unfold task_has_subscribers.
    rewrite startswith_price_indicators, startswith_indicators_indicators.
    by rewrite Hrt.
Qed.

Lemma key_has_subscribers_cleanup K s :
  key_has_subscribers K (cleanup_state s) = key_has_subscribers K s.
Proof. done. Qed.

(** Teardown on the last unsubscribe, for feed keys whose coin survives
    the [replace] of [_cleanup_unused_tasks]: when [unsubscribe_client] (of
    a connection object) or [disconnect] leaves the key without
    subscriber, its poller is cancelled and removed; when a subscriber is
    left, the poller is kept, live. *)
Lemma teardown_when_key_round_trips (ops : list Op) (o : Op) K c t :
  let s := run ops init in
  let s' := exec (step o) s in
  (∃ client T, o = Unsubscribe client T ∧ is_Some (heap s !! client))
  ∨ (∃ client, o = Disconnect client) →
  poller_of K = Some c →
  key_round_trips K →
  update_tasks s !! task_key c = Some t →
  (key_has_subscribers K s' = false →
     update_tasks s' !! task_key c = None
     ∧ tasks s' !! t = Some {| coro := c; cancelled := true |})
  ∧ (key_has_subscribers K s' = true →
     update_tasks s' !! task_key c = Some t ∧ live_poller s' c t).
Proof.
  intros s s' Ho HK Hrt Ht.
  destruct (wf_run ops) as [_ Hinv]. fold s in Hinv.
  assert (Hshape : ∃ x, s' = cleanup_state x ∧ tasks_inv x
                        ∧ update_tasks x = update_tasks s ∧ tasks x = tasks s).
  { unfold s', exec. rewrite step_run. cbn [snd].
    destruct Ho as [(client & T & -> & [c0 Hc0])|(client & ->)]; cbn [step_state].
    - unfold unsubscribe_state. rewrite Hc0.
      eexists. split; [reflexivity|].
      split; [|by rewrite deliver_update_tasks, deliver_tasks].
      eapply tasks_inv_view; [apply deliver_task_view|done].
    - unfold disconnect_state. eexists. split; [reflexivity|].
      by destruct (py_in (heap s) client (active_connections s)). }
  destruct Hshape as (x & -> & Hx & Hux & Htx).
  rewrite <- Hux in Ht.
  destruct (cleanup_state_entry x _ _ Hx Ht) as [Hno Hyes].
  rewrite key_has_subscribers_cleanup.
  rewrite <- (task_has_subscribers_key K c x HK Hrt).
  destruct Hx as [H1 H2]. destruct (H1 _ _ Ht) as (c' & Hc' & Hkey).
  apply task_key_inj in Hkey. subst c'.
  split.
  - intros Hk. destruct (Hno Hk) as [Hgone [c'' Hc'']]. split; [done|].
    pose proof (lookup_foldr_cancel
      (filter (λ kt : string * nat, task_has_subscribers kt.1 x = false)
         (map_to_list (update_tasks x))) (tasks x) t) as Hl.
    unfold live_poller in Hc'. rewrite Hc' in Hl. simpl in Hl.
    unfold cleanup_state in Hc''; simpl in Hc''. rewrite Hl in Hc''.
    unfold cleanup_state; simpl. rewrite Hl.
    destruct (decide (t ∈ _)); [done|discriminate Hc''].
  - intros Hk. destruct (Hyes Hk) as [Hkept Hsame]. split; [done|].
    unfold live_poller. by rewrite Hsame.
Qed.

(** The scenario of the specification: two connections subscribe to the
    indicators of "ethereum"; after the first unsubscribes the poller is
    still live, after the second it is cancelled and removed. *)
Lemma last_unsubscribe_tears_down :
  let s := run [Connect "a"; Connect "b";
                Subscribe 0 TECHNICAL_INDICATORS ["ethereum"];
                Subscribe 1 TECHNICAL_INDICATORS ["ethereum"]] init in
  let s1 := exec (unsubscribe_client 0 TECHNICAL_INDICATORS) s in
  let s2 := exec (unsubscribe_client 1 TECHNICAL_INDICATORS) s1 in
  update_tasks s1 !! "indicators_ethereum" = Some 0
  ∧ live_poller s1 (indicators_update_loop "ethereum") 0
  ∧ update_tasks s2 !! "indicators_ethereum" = None
  ∧ tasks s2 = [{| coro := indicators_update_loop "ethereum"; cancelled := true |}].
Proof. vm_compute. repeat split. Qed.

(** C6.  After any history, a second [disconnect] of the same object
    returns normally and leaves the hub exactly as the first one left it:
    calling it twice is calling it once. *)
Theorem C6_disconnect_idempotent (ops : list Op) (client : nat) :
  let s := run ops init in
  let once := exec (disconnect client) s in
  let twice := exec (disconnect client) once in
  (disconnect client >> disconnect client) s = disconnect client s
  ∧ disconnect client once = (Ok tt, once)
  ∧ active_connections twice = active_connections once
  ∧ update_tasks twice = update_tasks once
  ∧ tasks twice = tasks once.
Proof.
  intros s once twice. destruct (wf_run ops) as [Hr _]. fold s in Hr.
  assert (Honce : once = disconnect_state client s).
  { unfold once, exec. by rewrite disconnect_run. }
  assert (Htwice : twice = once).
  { unfold twice, exec. rewrite disconnect_run. cbn [snd].
    rewrite Honce. by apply disconnect_state_idemp. }
  split; [|split].
  - unfold bind. rewrite (disconnect_run client s), disconnect_run.
    by rewrite disconnect_state_idemp.
  - rewrite disconnect_run, Honce. by rewrite disconnect_state_idemp.
  - by rewrite Htwice.
Qed.

(** ** Fan-out *)

Lemma deliver_sockets_ne m w w' s :
  w ≠ w' → sockets (deliver m w s) !! w' = sockets s !! w'.
Proof.
  intros Hne. unfold deliver.
  send_cases w s; simpl; try done.
  by rewrite list_lookup_insert_ne.
Qed.

Lemma deliver_sockets_eq m w s sk :
  sockets s !! w = Some sk →
  sockets (deliver m w s) !! w = Some (received m sk).
Proof.
  intros Hsk. unfold deliver, received. rewrite Hsk.
  destruct (ws_fault sk); simpl; [done|].
  rewrite list_lookup_insert_eq; [done|]. by eapply lookup_lt_Some.
Qed.

(** Sockets that belong to no recipient in the list are left alone. *)
Lemma publish_all_sockets_other m T coin (l : list nat) s w :
  (∀ client c, client ∈ l → heap s !! client = Some c →
               recipient T coin c = true → websocket c ≠ w) →
  sockets (foldl (publish_to m T coin) s l) !! w = sockets s !! w.
Proof.
  revert s. induction l as [|x l IH]; intros s Hl; simpl; [done|].
  rewrite IH.
  - unfold publish_to. destruct (heap s !! x) as [c|] eqn:Hc; [|done].
    destruct (recipient T coin c) eqn:Hrec; [|done].
    apply deliver_sockets_ne. eapply Hl; [apply list_elem_of_here|done..].
  - intros client c Hin Hc. rewrite publish_to_heap in Hc.
    eapply Hl; [by apply list_elem_of_further|done].
Qed.

(** The socket of a connection that occurs once in the list and shares
    its socket with no other. *)
Lemma publish_all_sockets_one m T coin (l : list nat) s client c sk :
  NoDup l →
  NoDup (websocket <$> heap s) →
  client ∈ l →
  heap s !! client = Some c →
  sockets s !! websocket c = Some sk →
  sockets (foldl (publish_to m T coin) s l) !! websocket c
  = Some (if recipient T coin c then received m sk else sk).
Proof.
  intros Hl Hws. revert s Hws sk.
  induction l as [|x l IH]; intros s Hws sk Hin Hc Hsk;
    [by apply elem_of_nil in Hin|].
  apply NoDup_cons in Hl as [Hx Hl]. simpl.
  assert (Hother : ∀ y cy, y ≠ client → heap s !! y = Some cy →
                           websocket cy ≠ websocket c).
  { intros y cy Hne Hy Heq. apply Hne.
    eapply NoDup_lookup; [exact Hws| |]; rewrite list_lookup_fmap.
    - by rewrite Hy.
    - rewrite Hc. simpl. by rewrite Heq. }
  apply elem_of_cons in Hin as [<-|Hin].
  - rewrite publish_all_sockets_other.
    + unfold publish_to. rewrite Hc. destruct (recipient T coin c); [|done].
      by apply deliver_sockets_eq.
    + intros y cy Hy Hcy _. rewrite publish_to_heap in Hcy.
      eapply Hother; [|done]. intros ->. done.
  - assert (x ≠ client) by (intros ->; done).
    apply IH; try done.
    + by rewrite publish_to_heap.
    + by rewrite publish_to_heap.
    + unfold publish_to. destruct (heap s !! x) as [cx|] eqn:Hcx; [|done].
      destruct (recipient T coin cx); [|done].
      rewrite deliver_sockets_ne; [done|]. by eapply Hother.
Qed.


(** ** Failed deliveries *)

Lemma wf_socket_of s client c :
  reg_inv s → heap s !! client = Some c → is_Some (sockets s !! websocket c).
Proof.
  intros (_ & _ & _ & H4) Hc. apply lookup_lt_is_Some.
  rewrite Forall_forall in H4. apply H4.
  apply list_elem_of_fmap. exists c. split; [done|].
  by eapply list_elem_of_lookup_2.
Qed.

Lemma broadcast_exec m T coin s :
  exec (broadcast_to_subscribers m T coin) s
  = foldl (publish_to m T coin) s (active_connections s).
Proof. unfold exec. by rewrite broadcast_to_subscribers_run. Qed.




(** No broadcast ever finds a client to disconnect: the handlers of its
    loop are never entered, because [send_personal_message] has already
    swallowed the exception. *)
Lemma broadcast_loop_no_disconnected m T coin clients s :
  (broadcast_loop m T coin clients [] s).1 = Ok [].
Proof. by rewrite broadcast_loop_run. Qed.

(** C7 (failing input).  One connection watches the price of "bitcoin" and
    its peer is gone, so that [send_text] raises [WebSocketDisconnect].
    Publishing a price for "bitcoin" returns normally, logs the failed
    send, and leaves the dead connection registered and its poller
    running: no disconnect follows the failed delivery. *)
Theorem C7_failed_delivery_leaves_connection :
  let s := run [Connect "A"; Subscribe 0 PRICE_UPDATES ["bitcoin"];
                PeerGone 0 WebSocketDisconnect] init in
  let message := price_update "bitcoin"
                   {| price := 98500; price_change_24h := 2;
                      volume_24h := 0; market_cap := 0 |} in
  let s' := exec (broadcast_to_subscribers message PRICE_UPDATES (Some "bitcoin")) s in
  (broadcast_to_subscribers message PRICE_UPDATES (Some "bitcoin") s).1 = Ok tt
  ∧ (ws_fault <$> sockets s !! 0) = Some (Some WebSocketDisconnect)
  ∧ active_connections s' = [0]
  ∧ active_connections (exec (disconnect 0) s) = []
  ∧ log s' = log s ++ [log_send_error WebSocketDisconnect]
  ∧ live_poller s' (price_update_loop "bitcoin") 0
  ∧ update_tasks (exec (disconnect 0) s) !! "price_bitcoin" = None.
Proof. vm_compute. repeat split. Qed.

(** ** The shared set of watched coins *)

Lemma subscribe_state_heap client T coins s c :
  heap s !! client = Some c →
  heap (subscribe_state client T coins s) !! client
  = Some (subscribed_record T coins c).
Proof.
  intros Hc. unfold subscribe_state. rewrite Hc. cbv zeta.
  match goal with |- context [start_tasks_state T coins ?s2] =>
    assert (Hs2 : heap (start_tasks_state T coins s2) !! client
                  = Some (subscribed_record T coins c)) end.
  { rewrite start_tasks_state_heap. unfold subscribed_record.
    destruct (list_truthy coins); simpl;
      rewrite ?list_lookup_alter_eq, Hc; done. }
  rewrite Hs2. by rewrite deliver_heap.
Qed.

Lemma unsubscribe_state_heap client T s c :
  heap s !! client = Some c →
  heap (unsubscribe_state client T s) !! client
  = Some (set_subscriptions (λ S, S ∖ {[T]}) c).
Proof.
  intros Hc. unfold unsubscribe_state. rewrite Hc.
  change (heap (cleanup_state ?x)) with (heap x). rewrite deliver_heap. simpl.
  by rewrite list_lookup_alter_eq, Hc.
Qed.

Lemma elem_of_list_truthy {A} (x : A) (l : list A) : x ∈ l → list_truthy l = true.
Proof. destruct l; [by intros ?%elem_of_nil|done]. Qed.



(** ** Failed fetches *)

Lemma has_subscribers_ext T coin s s' :
  heap s' = heap s → active_connections s' = active_connections s →
  has_subscribers T coin s' = has_subscribers T coin s.
Proof. intros Hh Ha. unfold has_subscribers. by rewrite Hh, Ha. Qed.

(** A run of failed fetches: the poller goes on, sleeps the normal
    interval each time, and only the log changes. *)
Lemma price_update_loop_failures coin (failures : list HttpOutcome) s :
  has_subscribers PRICE_UPDATES coin s = true →
  Forall (λ u, fetched coin u = None) failures →
  ∃ s', _price_update_loop coin failures s
        = (Ok (replicate (length failures) 30%Z), s')
        ∧ active_connections s' = active_connections s
        ∧ price_cache s' = price_cache s
        ∧ update_tasks s' = update_tasks s
        ∧ heap s' = heap s
        ∧ sockets s' = sockets s
        ∧ tasks s' = tasks s.
Proof.
  intros Hsub Hfail. revert s Hsub.
  induction Hfail as [|u failures Hu Hfail IH]; intros s Hsub.
  - exists s. by repeat split.
  - simpl. unfold bind at 1. rewrite price_update_iteration_run, Hsub.
    unfold price_tick_state. rewrite Hsub, Hu.
    destruct (IH (fetch_state coin u s)) as (s' & Hrun & Ha & Hp & Hu' & Hh & Hs & Ht).
    { rewrite <- Hsub. apply has_subscribers_ext; by destruct u. }
    exists s'. unfold bind. rewrite Hrun. simpl.
    split; [done|]. rewrite Ha, Hp, Hu', Hh, Hs, Ht. by destruct u.
Qed.

(** What a broadcast does to the sockets depends on the connection
    records and on the sockets only. *)
Lemma publish_all_sockets_cong m T coin (l : list nat) s1 s2 :
  heap s1 = heap s2 → sockets s1 = sockets s2 →
  sockets (foldl (publish_to m T coin) s1 l)
  = sockets (foldl (publish_to m T coin) s2 l).
Proof.
  revert s1 s2. induction l as [|x l IH]; intros s1 s2 Hh Hs; simpl; [done|].
  apply IH.
  - by rewrite !publish_to_heap.
  - unfold publish_to. rewrite Hh. destruct (heap s2 !! x) as [c|]; [|done].
    destruct (recipient T coin c); [|done].
    unfold deliver. rewrite Hs.
    destruct (sockets s2 !! websocket c) as [sk|]; [destruct (ws_fault sk)|];
      simpl; by rewrite ?Hs.
Qed.

(** C4, as worded, fails: three fetches in a row fail (a timeout, a
    status 500, an answer without the coin) and the third wait is the
    normal 30 seconds. *)
Lemma C4_no_backoff : ¬ backoff_claim.
Proof.
  intros Hclaim.
  destruct (Hclaim [Connect "A"; Subscribe 0 PRICE_UPDATES ["bitcoin"]] "bitcoin"
                   (http_raises TimeoutError) (http_response 500 ∅)
                   (http_response 200 ∅) [30; 30; 30]%Z)
    as (d1 & d2 & d3 & Heq & Hlt).
  - vm_compute; reflexivity.
  - reflexivity.
  - reflexivity.
  - reflexivity.
  - vm_compute; reflexivity.
  - injection Heq as _ _ <-. lia.
Qed.

(** C4 (amended).  While its coin has a subscriber, a tick of the price
    poller whose fetch fails delivers nothing (sockets and cache stay as
    they were), leaves the poller in place and running, and is followed by
    the normal wait of 30 seconds, however many fetches have failed in a
    row: the wait does not grow.  The next fetch that succeeds stores its
    result in the cache, is followed by the same wait of 30 seconds, and
    the loop goes on. *)
Theorem C4_failed_fetch_keeps_poller (s : World) (coin : string)
    (failures : list HttpOutcome) (u : HttpOutcome) (d : PriceData) :
  has_subscribers PRICE_UPDATES coin s = true →
  Forall (λ u, fetched coin u = None) failures →
  fetched coin u = Some d →
  let s' := exec (_price_update_loop coin failures) s in
  (_price_update_loop coin failures s).1 = Ok (replicate (length failures) 30%Z)
  ∧ sockets s' = sockets s
  ∧ price_cache s' = price_cache s
  ∧ tasks s' = tasks s
  ∧ update_tasks s' = update_tasks s
  ∧ (_price_update_loop coin (failures ++ [u]) s).1
    = Ok (replicate (length failures + 1) 30%Z)
  ∧ price_cache (exec (_price_update_loop coin (failures ++ [u])) s) !! coin = Some d
  ∧ sockets (exec (_price_update_loop coin (failures ++ [u])) s)
    = sockets (exec (broadcast_to_subscribers (price_update coin d)
                       PRICE_UPDATES (Some coin)) s).
Proof.
  intros Hsub Hfail Hu s'.
  destruct (price_update_loop_failures coin failures s Hsub Hfail)
    as (s1 & Hrun & Ha & Hp & Hut & Hh & Hs & Ht).
  assert (Hs' : s' = s1) by (unfold s', exec; by rewrite Hrun).
  rewrite Hs', Hrun. repeat (split; [done|]).
  assert (Hsub1 : has_subscribers PRICE_UPDATES coin s1 = true).
  { rewrite <- Hsub. by apply has_subscribers_ext. }
  assert (Happ : ∀ fs s0 s2,
            _price_update_loop coin fs s0 = (Ok (replicate (length fs) 30%Z), s2) →
            has_subscribers PRICE_UPDATES coin s2 = true →
            _price_update_loop coin (fs ++ [u]) s0
            = (Ok (replicate (length fs + 1) 30%Z), price_tick_state coin u s2)).
  { clear -Hu. induction fs as [|f fs IH]; intros s0 s2 Hr Hsub2.
    - simpl in Hr. injection Hr as <-. simpl. unfold bind.
      rewrite price_update_iteration_run, Hsub2. done.
    - simpl in *. unfold bind at 1 in Hr. unfold bind at 1.
      destruct (price_update_iteration coin f s0) as [[[|secs]|e] s3]; try done.
      unfold bind in Hr. unfold bind.
      destruct (_price_update_loop coin fs s3) as [[rest|e] s4] eqn:Hrest; try done.
      injection Hr as -> -> ->.
      by rewrite (IH s3 s2 Hrest Hsub2). }
  rewrite (Happ failures s s1 Hrun Hsub1). split; [done|].
  rewrite broadcast_exec.
  unfold exec. rewrite (Happ failures s s1 Hrun Hsub1). simpl.
  unfold price_tick_state. rewrite Hsub1, Hu. split.
  - rewrite publish_all_price_cache. destruct u; simpl; apply lookup_insert_eq.
  - rewrite Ha. apply publish_all_sockets_cong; destruct u; simpl; congruence.
Qed.

(** C4 at a concrete history: three failed fetches, then a successful
    one; every wait is 30 seconds. *)
Lemma C4_failed_fetch_keeps_poller_witness :
  let s := run [Connect "A"; Subscribe 0 PRICE_UPDATES ["bitcoin"]] init in
  let failures := [http_raises TimeoutError; http_response 500 ∅;
                   http_response 200 ∅] in
  let u := http_response 200
             {[ "bitcoin" := {| usd := Some 98500%Z; usd_24h_change := Some 2%Z;
                                usd_24h_vol := None; usd_market_cap := None |} ]} in
  (_price_update_loop "bitcoin" failures s).1 = Ok [30; 30; 30]%Z
  ∧ (_price_update_loop "bitcoin" (failures ++ [u]) s).1 = Ok [30; 30; 30; 30]%Z.
Proof.
  intros s failures u.
  destruct (C4_failed_fetch_keeps_poller s "bitcoin" failures u
              {| price := 98500; price_change_24h := 2;
                 volume_24h := 0; market_cap := 0 |})
    as (H1 & _ & _ & _ & _ & H2 & _).
  - by vm_compute.
  - repeat constructor.
  - by vm_compute.
  - split; [exact H1|exact H2].
Defined.

(** ** Unknown feed types and current prices *)

Lemma SubscriptionType_call_unknown v :
  (∀ T, value T ≠ v) → SubscriptionType_call (Some v) = inl ValueError.
Proof.
  intros Hv. unfold SubscriptionType_call, all_SubscriptionType.
  by rewrite !filter_cons_False, filter_nil by apply Hv.
Qed.

Lemma SubscriptionType_call_value T : SubscriptionType_call (Some (value T)) = inr T.
Proof. by destruct T. Qed.

Lemma length_foldr_cancel (R : list (string * nat)) (ts : list Task) :
  length (foldr (λ kt, cancel kt.2) ts R) = length ts.
Proof.
  induction R as [|kt R IH]; simpl; [done|]. by rewrite length_cancel.
Qed.

Lemma cleanup_state_length_tasks s : length (tasks (cleanup_state s)) = length (tasks s).
Proof. unfold cleanup_state; simpl. apply length_foldr_cancel. Qed.

Lemma cleanup_state_update_tasks_sub s k t :
  update_tasks (cleanup_state s) !! k = Some t → update_tasks s !! k = Some t.
Proof.
  unfold cleanup_state; simpl. rewrite lookup_foldr_delete.
  by destruct (decide (k ∈ _)).
Qed.

(** C8, as worded, fails: the request of an unknown feed type ends with
    the connection removed from the registry, and nothing is sent to the
    client. *)
Lemma C8_unknown_feed_type_disconnects : ¬ validation_claim.
Proof.
  intros Hclaim.
  destruct (Hclaim [Connect "A"] 0
              {| client_id := "A"; websocket := 0; subscriptions := ∅;
                 watched_coins := ∅; user_id := None |}
              "prices" (Some ["bitcoin"])) as [(Hactive & _) _].
  - vm_compute. apply list_elem_of_here.
  - by vm_compute.
  - by intros [].
  - vm_compute in Hactive. discriminate Hactive.
Qed.

Lemma not_py_in_not_elem h x l : py_in h x l = false → x ∉ l.
Proof.
  intros Hno Hin. assert (py_in h x l = true); [|congruence].
  apply existsb_exists. exists x. split; [by apply list_elem_of_In|apply py_eq_refl].
Qed.

Lemma disconnect_state_not_active client s :
  reg_inv s → client ∉ active_connections (disconnect_state client s).
Proof.
  intros (_ & H2 & H3 & _). unfold disconnect_state.
  change (active_connections (cleanup_state ?x)) with (active_connections x).
  destruct (py_in (heap s) client (active_connections s)) eqn:Hin; simpl.
  - by apply not_elem_py_remove.
  - by eapply not_py_in_not_elem.
Qed.

Lemma disconnect_state_heap client s : heap (disconnect_state client s) = heap s.
Proof.
  unfold disconnect_state. by destruct (py_in (heap s) client (active_connections s)).
Qed.

Lemma disconnect_state_sockets client s :
  sockets (disconnect_state client s) = sockets s.
Proof.
  unfold disconnect_state. by destruct (py_in (heap s) client (active_connections s)).
Qed.

Lemma disconnect_state_price_cache client s :
  price_cache (disconnect_state client s) = price_cache s.
Proof.
  unfold disconnect_state. by destruct (py_in (heap s) client (active_connections s)).
Qed.

Lemma disconnect_state_length_tasks client s :
  length (tasks (disconnect_state client s)) = length (tasks s).
Proof.
  unfold disconnect_state. rewrite cleanup_state_length_tasks.
  by destruct (py_in (heap s) client (active_connections s)).
Qed.

Lemma disconnect_state_update_tasks_sub client s k t :
  update_tasks (disconnect_state client s) !! k = Some t →
  update_tasks s !! k = Some t.
Proof.
  unfold disconnect_state. intros Hk. apply cleanup_state_update_tasks_sub in Hk.
  by destruct (py_in (heap s) client (active_connections s)).
Qed.

(** C8 (amended).  After any history, a ["subscribe"] message whose feed
    type names no member of [SubscriptionType] raises [ValueError] before
    [subscribe_client] is called: no connection record is touched, no task
    is created, and nothing is sent to any socket.  The handler of the
    route then logs the error and disconnects the connection, and the loop
    of the route ends: the state left is that of [disconnect] after the
    log line, with the connection out of [active_connections]. *)
Theorem C8_unknown_feed_type (ops : list Op) (client : nat)
    (c : ClientSubscription) (v : string) (coins : option (list string)) :
  let s := run ops init in
  let r := endpoint_iteration client (websocket c) (subscribe_message v coins) s in
  heap s !! client = Some c →
  (∀ T, value T ≠ v) →
  r.1 = Ok false
  ∧ r.2 = exec (disconnect client)
               (set_log (λ ls, ls ++ [log_endpoint_error (client_id c) ValueError]) s)
  ∧ heap r.2 = heap s
  ∧ sockets r.2 = sockets s
  ∧ price_cache r.2 = price_cache s
  ∧ length (tasks r.2) = length (tasks s)
  ∧ (∀ k t, update_tasks r.2 !! k = Some t → update_tasks s !! k = Some t)
  ∧ client ∉ active_connections r.2.
Proof.
  intros s r Hc Hv.
  destruct (wf_run ops) as [Hreg _]. fold s in Hreg.
  set (s0 := set_log (λ ls, ls ++ [log_endpoint_error (client_id c) ValueError]) s).
  assert (Hr : r = (Ok false, disconnect_state client s0)).
  { unfold r. rewrite endpoint_iteration_run. unfold subscribe_message, endpoint_state.
    cbn [msg_type msg_subscription_type msg_coins].
    rewrite bool_decide_eq_true_2 by done.
    rewrite SubscriptionType_call_unknown by done.
    unfold endpoint_failure. by rewrite Hc. }
  rewrite Hr. cbn [fst snd].
  split; [done|]. split; [unfold exec; by rewrite disconnect_run|].
  split; [by rewrite disconnect_state_heap|].
  split; [by rewrite disconnect_state_sockets|].
  split; [by rewrite disconnect_state_price_cache|].
  split; [by rewrite disconnect_state_length_tasks|].
  split; [apply (disconnect_state_update_tasks_sub client s0)|].
  by apply (disconnect_state_not_active client s0).
Qed.

(** C8 at a concrete history: the feed type "prices" does not exist. *)
Lemma C8_unknown_feed_type_witness :
  let s := run [Connect "A"; Subscribe 0 PRICE_UPDATES ["bitcoin"]] init in
  let r := endpoint_iteration 0 0 (subscribe_message "prices" (Some ["eth"])) s in
  r.1 = Ok false ∧ sockets r.2 = sockets s ∧ 0 ∉ active_connections r.2.
Proof.
  intros s r.
  destruct (C8_unknown_feed_type
              [Connect "A"; Subscribe 0 PRICE_UPDATES ["bitcoin"]] 0
              {| client_id := "A"; websocket := 0;
                 subscriptions := {[PRICE_UPDATES]};
                 watched_coins := {["bitcoin"]}; user_id := None |}
              "prices" (Some ["eth"]))
    as (H1 & _ & _ & H4 & _ & _ & _ & H8).
  - by vm_compute.
  - by intros [].
  - split; [exact H1|]. split; [exact H4|exact H8].
Defined.

Lemma current_prices_of_lookup_acc (cache : gmap string PriceData)
    (coins : list string) (acc : gmap string PriceData) coin :
  foldl (λ current coin,
           match cache !! coin with
           | Some d => <[coin := d]> current
           | None => current
           end) acc coins !! coin
  = if bool_decide (coin ∈ coins)
    then match cache !! coin with Some d => Some d | None => acc !! coin end
    else acc !! coin.
Proof.
  revert acc. induction coins as [|x coins IH]; intros acc; simpl; [done|].
  rewrite IH. destruct (decide (x = coin)) as [->|Hne].
  - rewrite (bool_decide_eq_true_2 (coin ∈ coin :: coins)) by apply list_elem_of_here.
    destruct (cache !! coin) as [d|] eqn:Hd.
    + by destruct (bool_decide (coin ∈ coins)); rewrite ?lookup_insert_eq.
    + by destruct (bool_decide (coin ∈ coins)).
  - assert (Hacc : match cache !! x with
                   | Some d => <[x := d]> acc
                   | None => acc
                   end !! coin = acc !! coin).
    { destruct (cache !! x); [by rewrite lookup_insert_ne|done]. }
    rewrite Hacc.
    destruct (decide (coin ∈ coins)) as [Hin|Hin].
    + rewrite !bool_decide_eq_true_2; [done|by apply list_elem_of_further|done].
    + rewrite !bool_decide_eq_false_2; [done| |done].
      intros [?|?]%elem_of_cons; congruence.
Qed.

Lemma current_prices_of_lookup cache coins coin :
  current_prices_of cache coins !! coin
  = if bool_decide (coin ∈ coins) then cache !! coin else None.
Proof.
  unfold current_prices_of. rewrite current_prices_of_lookup_acc, lookup_empty.
  destruct (bool_decide (coin ∈ coins)); [|done]. by destruct (cache !! coin).
Qed.

(** ** The price cache *)

Lemma subscribe_state_price_cache client T coins s :
  price_cache (subscribe_state client T coins s) = price_cache s.
Proof.
  unfold subscribe_state. destruct (heap s !! client) as [c0|]; [|done].
  cbv zeta.
  match goal with |- context [heap ?s3 !! client] => destruct (heap s3 !! client) end;
    rewrite ?deliver_price_cache, start_tasks_state_price_cache;
    by destruct (list_truthy coins).
Qed.

Lemma unsubscribe_state_price_cache client T s :
  price_cache (unsubscribe_state client T s) = price_cache s.
Proof.
  unfold unsubscribe_state. destruct (heap s !! client) as [c|]; [|done].
  change (price_cache (cleanup_state ?x)) with (price_cache x).
  by rewrite deliver_price_cache.
Qed.

Lemma endpoint_state_price_cache client w r s :
  price_cache (endpoint_state client w r s).2 = price_cache s.
Proof.
  assert (Hfail : ∀ e, price_cache (endpoint_failure client e s) = price_cache s).
  { intros e. unfold endpoint_failure. rewrite disconnect_state_price_cache.
    by destruct e. }
  unfold endpoint_state. destruct r as [message| |]; [|apply Hfail..].
  repeat case_match; cbn [snd];
    rewrite ?subscribe_state_price_cache, ?unsubscribe_state_price_cache,
            ?deliver_price_cache; try done; apply Hfail.
Qed.

(** The cache entry of a coin changes only when a tick of that coin's
    price poller fetches a value. *)
Lemma step_state_price_cache o s coin :
  (∀ u, o ≠ PriceTick coin u) →
  price_cache (step_state o s) !! coin = price_cache s !! coin.
Proof.
  intros Ho.
  destruct o as [cid|client T coins|client T|client|m T c|coin' u|client r|w e];
    cbn [step_state].
  - unfold connect_state. by rewrite deliver_price_cache.
  - by rewrite subscribe_state_price_cache.
  - by rewrite unsubscribe_state_price_cache.
  - by rewrite disconnect_state_price_cache.
  - by rewrite publish_all_price_cache.
  - assert (coin' ≠ coin) by (intros ->; by apply (Ho u)).
    unfold price_tick_state. destruct (has_subscribers PRICE_UPDATES coin' s); [|done].
    destruct (fetched coin' u).
    + rewrite publish_all_price_cache. simpl. rewrite lookup_insert_ne by done.
      by destruct u.
    + by destruct u.
  - destruct (heap s !! client) as [c|]; [|done].
    destruct (bool_decide (client ∈ active_connections s)); [|done].
    by rewrite endpoint_state_price_cache.
  - done.
Qed.

Lemma price_tick_state_cache coin u s d :
  has_subscribers PRICE_UPDATES coin s = true →
  fetched coin u = Some d →
  price_cache (price_tick_state coin u s) !! coin = Some d.
Proof.
  intros Hsub Hu. unfold price_tick_state. rewrite Hsub, Hu.
  rewrite publish_all_price_cache. simpl. apply lookup_insert_eq.
Qed.

Lemma price_tick_state_cache_failed coin u s :
  fetched coin u = None →
  price_cache (price_tick_state coin u s) = price_cache s.
Proof.
  intros Hu. unfold price_tick_state. rewrite Hu.
  destruct (has_subscribers PRICE_UPDATES coin s); [|done]. by destruct u.
Qed.

(** C9, as worded, fails: after the last subscriber of "bitcoin" has
    unsubscribed and the poller is removed, the cached price is still
    returned. *)
Lemma C9_stale_price_returned : ¬ current_snapshot_claim.
Proof.
  intros Hclaim.
  destruct (Hclaim
              [Connect "A"; Subscribe 0 PRICE_UPDATES ["bitcoin"];
               PriceTick "bitcoin"
                 (http_response 200
                    {[ "bitcoin" := {| usd := Some 98500%Z;
                                       usd_24h_change := Some 2%Z;
                                       usd_24h_vol := None;
                                       usd_market_cap := None |} ]});
               Unsubscribe 0 PRICE_UPDATES]
              "bitcoin") as [Hto _].
  destruct Hto as [t Ht].
  - vm_compute. eauto.
  - vm_compute in Ht. discriminate Ht.
Qed.

(** C9 (amended).  The answer to ["get_current_prices"] holds, for each
    coin asked for, what [price_cache] holds for it and nothing for the
    others.  The cache entry of a coin is written by a tick of the price
    poller of that coin whose fetch succeeds, is left alone by a tick whose
    fetch fails, and is changed by no other operation of the hub: it stays
    when subscribers leave and the poller is removed. *)
Theorem C9_current_prices_from_cache (s : World) (coin : string) :
  (∀ coins, current_prices_of (price_cache s) coins !! coin
            = if bool_decide (coin ∈ coins) then price_cache s !! coin else None)
  ∧ (∀ u d, has_subscribers PRICE_UPDATES coin s = true →
            fetched coin u = Some d →
            price_cache (exec (step (PriceTick coin u)) s) !! coin = Some d)
  ∧ (∀ u, fetched coin u = None →
          price_cache (exec (step (PriceTick coin u)) s) = price_cache s)
  ∧ (∀ o, (∀ u, o ≠ PriceTick coin u) →
          price_cache (exec (step o) s) !! coin = price_cache s !! coin).
Proof.
  split; [|split; [|split]].
  - intros coins. apply current_prices_of_lookup.
  - intros u d Hsub Hu. unfold exec. rewrite step_run. cbn [snd step_state].
    by apply price_tick_state_cache.
  - intros u Hu. unfold exec. rewrite step_run. cbn [snd step_state].
    by apply price_tick_state_cache_failed.
  - intros o Ho. unfold exec. rewrite step_run. cbn [snd].
    by apply step_state_price_cache.
Qed.

(** C9 at a concrete history: the price fetched for "bitcoin" is still in
    the cache after the only subscriber has unsubscribed and the poller is
    gone. *)
Lemma C9_current_prices_from_cache_witness :
  let u := http_response 200
             {[ "bitcoin" := {| usd := Some 98500%Z; usd_24h_change := Some 2%Z;
                                usd_24h_vol := None; usd_market_cap := None |} ]} in
  let s := run [Connect "A"; Subscribe 0 PRICE_UPDATES ["bitcoin"]] init in
  let s1 := exec (step (PriceTick "bitcoin" u)) s in
  let s2 := exec (step (Unsubscribe 0 PRICE_UPDATES)) s1 in
  price_cache s1 !! "bitcoin"
  = Some {| price := 98500; price_change_24h := 2; volume_24h := 0; market_cap := 0 |}
  ∧ price_cache s2 !! "bitcoin" = price_cache s1 !! "bitcoin"
  ∧ update_tasks s2 !! "price_bitcoin" = None.
Proof.
  intros u s s1 s2. split; [|split].
  - destruct (C9_current_prices_from_cache s "bitcoin") as (_ & Htick & _).
    apply (Htick u); by vm_compute.
  - destruct (C9_current_prices_from_cache s1 "bitcoin") as (_ & _ & _ & Hother).
    apply (Hother (Unsubscribe 0 PRICE_UPDATES)). intros u'. discriminate.
  - by vm_compute.
Defined.

(* ===================================================================== *)
(** * Further properties *)
(* ===================================================================== *)

(** ** Recovering the coin from a task key *)

Lemma append_empty_l s : "" +:+ s = s.
Proof. done. Qed.

Lemma prefix_append old s : String.prefix old (old +:+ s) = true.
Proof.
  induction old as [|a old IH]; simpl; [by destruct s|].
  by destruct (Ascii.ascii_dec a a).
Qed.

Lemma replace_from_skip old new pre s :
  replace_from old new (String.length pre) (pre +:+ s) = replace_from old new 0 s.
Proof. induction pre as [|a pre IH]; simpl; [done|apply IH]. Qed.

Lemma str_replace_prefix old s :
  old ≠ "" → str_replace old "" (old +:+ s) = str_replace old "" s.
Proof.
  destruct old as [|a old]; [done|]. intros _. unfold str_replace.
  change (String a old +:+ s) with (String a (old +:+ s)).
  cbn [replace_from].
  change (String a (old +:+ s)) with (String a old +:+ s).
  rewrite prefix_append. cbn [String.length].
  rewrite append_empty_l.
  replace (S (String.length old) - 1) with (String.length old) by lia.
  apply replace_from_skip.
Qed.

Lemma replace_from_absent old new s :
  str_in old s = false → replace_from old new 0 s = s.
Proof.
  induction s as [|a s IH]; [done|].
  cbn [str_in replace_from]. intros [Hp Hs]%orb_false_iff.
  rewrite Hp. f_equal. by apply IH.
Qed.

Lemma length_replace_from_le old k s :
  (String.length (replace_from old "" k s) ≤ String.length s)%nat.
Proof.
  revert k. induction s as [|a s IH]; intros k; [done|].
  cbn [replace_from]. destruct k as [|k].
  - destruct (String.prefix old (String a s));
      rewrite ?append_empty_l; cbn [String.length].
    + specialize (IH (String.length old - 1)). lia.
    + specialize (IH 0). lia.
  - specialize (IH k). cbn [String.length]. lia.
Qed.

Lemma length_replace_from_lt old s :
  old ≠ "" → str_in old s = true →
  (String.length (replace_from old "" 0 s) < String.length s)%nat.
Proof.
  intros Hold. induction s as [|a s IH].
  - destruct old; [done|]. done.
  - cbn [str_in replace_from]. intros H.
    destruct (String.prefix old (String a s)) eqn:Hp;
      rewrite ?append_empty_l; cbn [String.length].
    + pose proof (length_replace_from_le old (String.length old - 1) s). lia.
    + simpl in H. specialize (IH H). lia.
Qed.

Lemma str_replace_prefix_recovers old coin :
  old ≠ "" →
  str_replace old "" (old +:+ coin) = coin ↔ str_in old coin = false.
Proof.
  intros Hold. rewrite str_replace_prefix by done. unfold str_replace. split.
  - intros Heq. destruct (str_in old coin) eqn:Hin; [|done].
    pose proof (length_replace_from_lt old coin Hold Hin) as Hlt.
    rewrite Heq in Hlt. lia.
  - apply replace_from_absent.
Qed.

(** X13.  [_cleanup_unused_tasks] finds the coin of a task by deleting
    the key prefix from the task key with [str.replace].  What it finds is
    the coin the task was started for exactly when the name of the coin
    does not contain the prefix (["price_"] for a price poller,
    ["indicators_"] for an indicators poller); when the name does contain
    it, the coin that is looked up is strictly shorter than the real one. *)
Theorem cleanup_recovers_coin_iff (coin : string) :
  (key_round_trips (PRICE_UPDATES, coin) ↔ str_in "price_" coin = false)
  ∧ (key_round_trips (TECHNICAL_INDICATORS, coin) ↔ str_in "indicators_" coin = false)
  ∧ (str_in "price_" coin = true →
       (String.length (str_replace "price_" "" (task_key (price_update_loop coin)))
        < String.length coin)%nat)
  ∧ (str_in "indicators_" coin = true →
       (String.length (str_replace "indicators_" "" (task_key (indicators_update_loop coin)))
        < String.length coin)%nat).
Proof.
  split; [|split; [|split]].
  - by apply str_replace_prefix_recovers.
  - by apply str_replace_prefix_recovers.
  - intros H. cbn [task_key]. rewrite str_replace_prefix by done.
    by apply length_replace_from_lt.
  - intros H. cbn [task_key]. rewrite str_replace_prefix by done.
    by apply length_replace_from_lt.
Qed.

(** ** Connection objects along a history *)

Lemma send_alert_run user alert_data s :
  send_alert user alert_data s = (Ok tt, alert_state user alert_data s).
Proof.
  unfold send_alert, alert_state, bind, get.
  apply (for_each_run _ (λ s' client,
                           match heap s !! client with
                           | Some c => deliver (alert alert_data) (websocket c) s'
                           | None => s'
                           end)).
  intros client s'. destruct (heap s !! client); [|done].
  apply send_personal_message_run.
Qed.

Lemma later_record_refl c : later_record c c.
Proof. by repeat split. Qed.

Lemma later_record_trans c1 c2 c3 :
  later_record c1 c2 → later_record c2 c3 → later_record c1 c3.
Proof.
  intros (?&?&?&?) (?&?&?&?). repeat split; [congruence..|set_solver].
Qed.

Lemma subscribe_state_heap_alter client T coins s :
  heap (subscribe_state client T coins s)
  = alter (subscribed_record T coins) client (heap s).
Proof.
  unfold subscribe_state. destruct (heap s !! client) as [c|] eqn:Hc.
  - cbn zeta.
    set (s2 := if list_truthy coins then _ else _).
    assert (heap s2 = alter (subscribed_record T coins) client (heap s)) as H2.
    { subst s2. destruct (list_truthy coins) eqn:Hl; cbn [heap set_heap].
      - rewrite list_alter_alter_eq. apply list_alter_ext; [|done].
        intros c' _. unfold subscribed_record. by rewrite Hl.
      - apply list_alter_ext; [|done].
        intros c' _. unfold subscribed_record. by rewrite Hl. }
    destruct (heap (start_tasks_state T coins s2) !! client);
      rewrite ?deliver_heap, start_tasks_state_heap; exact H2.
  - symmetry. apply list_eq. intros j. rewrite list_lookup_alter.
    destruct (decide (client = j)) as [->|]; [by rewrite Hc|done].
Qed.

Lemma unsubscribe_state_heap_alter client T s :
  heap (unsubscribe_state client T s)
  = alter (set_subscriptions (λ S, S ∖ {[T]})) client (heap s).
Proof.
  unfold unsubscribe_state. destruct (heap s !! client) as [c|] eqn:Hc.
  - change (heap (cleanup_state ?x)) with (heap x). by rewrite deliver_heap.
  - symmetry. apply list_eq. intros j. rewrite list_lookup_alter.
    destruct (decide (client = j)) as [->|]; [by rewrite Hc|done].
Qed.

Lemma price_tick_state_heap coin u s : heap (price_tick_state coin u s) = heap s.
Proof.
  unfold price_tick_state. destruct (has_subscribers _ _ _); [|done].
  destruct (fetched coin u); [rewrite publish_all_heap|]; by destruct u.
Qed.

Lemma endpoint_failure_heap client e s : heap (endpoint_failure client e s) = heap s.
Proof. unfold endpoint_failure. rewrite disconnect_state_heap. by destruct e. Qed.

(** What a step does to the table of connection objects: at most one
    object is updated in place, keeping its identity and its watched
    coins, and at most one new object, without user, is added. *)
Lemma step_state_heap o s :
  ∃ (g : ClientSubscription → ClientSubscription) (i : nat)
    (new : list ClientSubscription),
    heap (step_state o s) = alter g i (heap s) ++ new
    ∧ (∀ c, later_record c (g c))
    ∧ Forall (λ c, user_id c = None) new.
Proof.
  assert (∀ s', heap s' = heap s →
            ∃ (g : ClientSubscription → ClientSubscription) (i : nat)
              (new : list ClientSubscription),
              heap s' = alter g i (heap s) ++ new
              ∧ (∀ c, later_record c (g c))
              ∧ Forall (λ c, user_id c = None) new) as Hsame.
  { intros s' ->. exists id, 0, []. rewrite app_nil_r, list_alter_id by done.
    split; [done|]. split; [intros; apply later_record_refl|constructor]. }
  assert (∀ client T coins,
            ∃ (g : ClientSubscription → ClientSubscription) (i : nat)
              (new : list ClientSubscription),
              heap (subscribe_state client T coins s) = alter g i (heap s) ++ new
              ∧ (∀ c, later_record c (g c))
              ∧ Forall (λ c, user_id c = None) new) as Hsub.
  { intros client T coins. exists (subscribed_record T coins), client, [].
    rewrite app_nil_r, subscribe_state_heap_alter. split; [done|].
    split; [|constructor]. intros c. unfold later_record, subscribed_record; simpl.
    repeat split. destruct (list_truthy coins); set_solver. }
  assert (∀ client T,
            ∃ (g : ClientSubscription → ClientSubscription) (i : nat)
              (new : list ClientSubscription),
              heap (unsubscribe_state client T s) = alter g i (heap s) ++ new
              ∧ (∀ c, later_record c (g c))
              ∧ Forall (λ c, user_id c = None) new) as Hunsub.
  { intros client T. exists (set_subscriptions (λ S, S ∖ {[T]})), client, [].
    rewrite app_nil_r, unsubscribe_state_heap_alter. split; [done|].
    split; [|constructor]. intros c. by repeat split. }
  destruct o as [cid|client T coins|client T|client|m T coin|coin u|client r|w e];
    cbn [step_state].
  - exists id, 0, [new_client cid (length (sockets s))].
    unfold connect_state. rewrite deliver_heap. cbn [heap set_heap set_active_connections].
    rewrite list_alter_id by done. split; [done|].
    split; [intros; apply later_record_refl|]. by repeat constructor.
  - apply Hsub.
  - apply Hunsub.
  - apply Hsame, disconnect_state_heap.
  - apply Hsame, publish_all_heap.
  - apply Hsame, price_tick_state_heap.
  - destruct (heap s !! client) as [c|]; [|by apply Hsame].
    destruct (bool_decide (client ∈ active_connections s)); [|by apply Hsame].
    unfold endpoint_state.
    destruct r as [message| |]; cbn [snd];
      [|apply Hsame, endpoint_failure_heap..].
    repeat (case_bool_decide; cbn [snd]).
    + destruct (SubscriptionType_call _); cbn [snd];
        [apply Hsame, endpoint_failure_heap|apply Hsub].
    + destruct (SubscriptionType_call _); cbn [snd];
        [apply Hsame, endpoint_failure_heap|apply Hunsub].
    + apply Hsame, deliver_heap.
    + apply Hsame, deliver_heap.
    + by apply Hsame.
  - by apply Hsame.
Qed.

Lemma step_state_record o s client c :
  heap s !! client = Some c →
  ∃ c', heap (step_state o s) !! client = Some c' ∧ later_record c c'.
Proof.
  intros Hc. destruct (step_state_heap o s) as (g & i & new & -> & Hg & _).
  assert (client < length (alter g i (heap s))) as Hlt.
  { rewrite length_alter. by eapply lookup_lt_Some. }
  rewrite lookup_app_l by done. rewrite list_lookup_alter.
  destruct (decide (i = client)) as [->|].
  - rewrite Hc. eexists; split; [done|apply Hg].
  - eexists; split; [done|apply later_record_refl].
Qed.

Lemma run_record ops s client c :
  heap s !! client = Some c →
  ∃ c', heap (run ops s) !! client = Some c' ∧ later_record c c'.
Proof.
  revert s c. induction ops as [|o ops IH]; intros s c Hc.
  - exists c. split; [done|apply later_record_refl].
  - rewrite run_step_state in *. cbn [foldl].
    destruct (step_state_record o s client c Hc) as (c1 & Hc1 & Hl1).
    rewrite <- run_step_state.
    destruct (IH _ _ Hc1) as (c2 & Hc2 & Hl2).
    exists c2. split; [done|by eapply later_record_trans].
Qed.

Lemma no_user_id_step o s : no_user_id s → no_user_id (step_state o s).
Proof.
  unfold no_user_id. intros Hs.
  destruct (step_state_heap o s) as (g & i & new & -> & Hg & Hnew).
  apply Forall_app. split; [|done].
  apply Forall_lookup. intros j c'. rewrite list_lookup_alter.
  destruct (decide (i = j)) as [->|].
  - destruct (heap s !! j) as [c|] eqn:Hc; [|done]. intros [= <-].
    destruct (Hg c) as (_ & _ & -> & _).
    by eapply (Forall_lookup_1 _ _ _ _ Hs).
  - intros Hc. by eapply (Forall_lookup_1 _ _ _ _ Hs).
Qed.

Lemma no_user_id_run ops : no_user_id (run ops init).
Proof.
  induction ops as [|o ops IH] using rev_ind; [constructor|].
  rewrite run_snoc. by apply no_user_id_step.
Qed.

Lemma alert_state_no_user user alert_data s :
  no_user_id s → alert_state user alert_data s = s.
Proof.
  intros Hs. unfold alert_state.
  replace (List.filter _ (active_connections s)) with (@nil nat); [done|].
  symmetry. induction (active_connections s) as [|client l IH]; [done|].
  cbn [List.filter]. destruct (heap s !! client) as [c|] eqn:Hc; [|done].
  rewrite (Forall_lookup_1 _ _ _ _ Hs Hc). done.
Qed.

(** X16.  [connect] creates every connection object without a user and
    nothing ever sets one.  So after any history of the hub, whatever the
    log holds, no connection object has a [user_id], and [send_alert]
    returns without sending anything and without changing the hub, for
    every user and every alert. *)
Theorem send_alert_reaches_no_one (ops : list Op) (l : list LogEntry)
    (user alert_data : string) :
  let s := set_log (λ _, l) (run ops init) in
  send_alert user alert_data s = (Ok tt, s)
  ∧ ∀ client c, heap s !! client = Some c → user_id c = None.
Proof.
  intros s.
  assert (no_user_id s) as Hs by apply (no_user_id_run ops).
  split.
  - rewrite send_alert_run. f_equal. by apply alert_state_no_user.
  - intros client c Hc. exact (Forall_lookup_1 _ _ _ _ Hs Hc).
Qed.

(** X5.  A connection object is never removed from memory and never
    loses a watched coin: whatever operations follow, the object is still
    there with the same [client_id], [websocket] and [user_id], and its
    [watched_coins] contain the ones it had.  (No operation of the hub
    removes a coin: [unsubscribe_client] only drops the feed type.) *)
Theorem connection_record_only_grows (ops ops' : list Op) (client : nat)
    (c : ClientSubscription) :
  let s := run ops init in
  let s' := run ops' s in
  heap s !! client = Some c →
  ∃ c', heap s' !! client = Some c'
        ∧ client_id c' = client_id c
        ∧ websocket c' = websocket c
        ∧ user_id c' = user_id c
        ∧ watched_coins c ⊆ watched_coins c'.
Proof. intros s s' Hc. apply (run_record ops' s client c Hc). Qed.

Lemma connection_record_only_grows_witness :
  let c := {| client_id := "a"; websocket := 0; subscriptions := {[PRICE_UPDATES]};
              watched_coins := {["btc"]}; user_id := None |} in
  ∃ c', heap (run [Unsubscribe 0 PRICE_UPDATES; Disconnect 0]
                (run [Connect "a"; Subscribe 0 PRICE_UPDATES ["btc"]] init)) !! 0
        = Some c'
        ∧ client_id c' = client_id c
        ∧ websocket c' = websocket c
        ∧ user_id c' = user_id c
        ∧ watched_coins c ⊆ watched_coins c'.
Proof.
  intros c.
  apply (connection_record_only_grows
           [Connect "a"; Subscribe 0 PRICE_UPDATES ["btc"]]
           [Unsubscribe 0 PRICE_UPDATES; Disconnect 0] 0 c).
  vm_compute. reflexivity.
Defined.

(** ** The registry after a disconnect *)

Lemma filter_all {A} (P : A → Prop) `{!∀ x, Decision (P x)} (l : list A) :
  (∀ x, x ∈ l → P x) → filter P l = l.
Proof.
  induction l as [|x l IH]; intros Hall; [done|].
  rewrite filter_cons_True by (apply Hall, list_elem_of_here).
  f_equal. apply IH. intros y Hy. by apply Hall, list_elem_of_further.
Qed.

Lemma py_remove_filter h x l :
  NoDup (websocket <$> h) → NoDup l →
  py_remove h x l = filter (λ y, y ≠ x) l.
Proof.
  intros Hh Hl. induction l as [|y l IH]; [done|].
  apply NoDup_cons in Hl as [Hy Hl]. cbn [py_remove].
  destruct (py_eq h y x) eqn:Heq.
  - apply (py_eq_true _ _ _ Hh) in Heq as ->.
    rewrite filter_cons_False by (intros ?; done).
    symmetry. apply filter_all. intros y Hy' ->. done.
  - assert (y ≠ x) as Hne by (intros ->; by rewrite py_eq_refl in Heq).
    rewrite filter_cons_True by done. f_equal. by apply IH.
Qed.

Lemma disconnect_state_active client s :
  reg_inv s →
  active_connections (disconnect_state client s)
  = filter (λ y, y ≠ client) (active_connections s).
Proof.
  intros (_ & Hnd & Hws & _). unfold disconnect_state.
  change (active_connections (cleanup_state ?x)) with (active_connections x).
  destruct (py_in (heap s) client (active_connections s)) eqn:Hin.
  - cbn [active_connections set_active_connections]. by apply py_remove_filter.
  - symmetry. apply filter_all. intros y Hy ->.
    by apply not_py_in_not_elem in Hin.
Qed.

Lemma exec_disconnect client s : exec (disconnect client) s = disconnect_state client s.
Proof. unfold exec. by rewrite disconnect_run. Qed.

Lemma exec_subscribe client T coins s :
  exec (subscribe_client client T coins) s = subscribe_state client T coins s.
Proof. unfold exec. by rewrite subscribe_client_run. Qed.

Lemma exec_unsubscribe client T s :
  exec (unsubscribe_client client T) s = unsubscribe_state client T s.
Proof. unfold exec. by rewrite unsubscribe_client_run. Qed.

(** X6.  After any history, [disconnect] takes exactly the given
    connection out of [active_connections] and keeps the others in their
    order (nothing is removed when the connection is not registered); the
    connection objects, the sockets, the price cache and the log are left
    as they were. *)
Theorem disconnect_removes_exactly_that_connection (ops : list Op) (client : nat) :
  let s := run ops init in
  let s' := exec (disconnect client) s in
  active_connections s' = filter (λ y, y ≠ client) (active_connections s)
  ∧ heap s' = heap s
  ∧ sockets s' = sockets s
  ∧ price_cache s' = price_cache s
  ∧ log s' = log s.
Proof.
  intros s s'. subst s'. rewrite exec_disconnect.
  split; [apply disconnect_state_active, wf_run|].
  split; [apply disconnect_state_heap|].
  split; [apply disconnect_state_sockets|].
  split; [apply disconnect_state_price_cache|].
  unfold disconnect_state. by destruct (py_in _ _ _).
Qed.

(** ** No poller without a connection *)

Lemma task_has_subscribers_no_connection c s :
  active_connections s = [] → task_has_subscribers (task_key c) s = false.
Proof.
  intros Ha. unfold task_has_subscribers. destruct c as [coin| |coin]; cbn [task_key].
  - rewrite startswith_price_price. unfold has_subscribers. by rewrite Ha.
  - change (startswith "price_" "news_updates") with false.
    change (startswith "indicators_" "news_updates") with false.
    cbn match. rewrite bool_decide_eq_true_2 by done.
    unfold has_type_subscribers. by rewrite Ha.
  - rewrite startswith_price_indicators, startswith_indicators_indicators.
    unfold has_subscribers. by rewrite Ha.
Qed.

Lemma cleanup_state_no_connection s :
  tasks_inv s → active_connections s = [] →
  update_tasks (cleanup_state s) = ∅
  ∧ ∀ t tk, tasks (cleanup_state s) !! t = Some tk → cancelled tk = true.
Proof.
  intros Hinv Ha.
  assert (update_tasks (cleanup_state s) = ∅) as Hempty.
  { apply map_empty. intros k.
    destruct (update_tasks (cleanup_state s) !! k) as [t|] eqn:Hk; [|done].
    pose proof (cleanup_state_update_tasks_sub _ _ _ Hk) as Hk0.
    destruct (proj1 Hinv _ _ Hk0) as (c & _ & <-).
    destruct (cleanup_state_entry s _ _ Hinv Hk0) as [Hrem _].
    destruct (Hrem (task_has_subscribers_no_connection c s Ha)) as [Hnone _].
    congruence. }
  split; [done|].
  intros t [c b] Ht. destruct b; [done|].
  destruct (tasks_inv_cleanup s Hinv) as [_ Hlive].
  specialize (Hlive t c Ht). by rewrite Hempty in Hlive.
Qed.

(** X7.  After any history, when a [disconnect] leaves no active
    connection, it leaves no background task either: [update_tasks] is
    empty and every task that was ever created has been cancelled. *)
Theorem no_poller_outlives_the_last_connection (ops : list Op) (client : nat) :
  let s := run ops init in
  let s' := exec (disconnect client) s in
  active_connections s' = [] →
  update_tasks s' = ∅
  ∧ ∀ t tk, tasks s' !! t = Some tk → cancelled tk = true.
Proof.
  intros s s'. subst s'. rewrite exec_disconnect. unfold disconnect_state.
  change (active_connections (cleanup_state ?x)) with (active_connections x).
  intros Ha. apply cleanup_state_no_connection; [|done].
  destruct (wf_run ops) as [_ Ht].
  destruct (py_in _ _ _); [|done].
  by apply (tasks_inv_view s).
Qed.

Lemma no_poller_outlives_the_last_connection_witness :
  let s' := exec (disconnect 0)
              (run [Connect "a"; Subscribe 0 PRICE_UPDATES ["price_btc"; "eth"];
                    Subscribe 0 NEWS_UPDATES []] init) in
  update_tasks s' = ∅
  ∧ ∀ t tk, tasks s' !! t = Some tk → cancelled tk = true.
Proof.
  apply (no_poller_outlives_the_last_connection
           [Connect "a"; Subscribe 0 PRICE_UPDATES ["price_btc"; "eth"];
            Subscribe 0 NEWS_UPDATES []] 0).
  vm_compute. reflexivity.
Defined.

(** ** The loop of the route and the registry *)

Lemma reg_view_active s s' :
  reg_view s' = reg_view s → active_connections s' = active_connections s.
Proof. unfold reg_view. by intros [= -> _ _]. Qed.

Lemma endpoint_failure_not_active client e s :
  reg_inv s → client ∉ active_connections (endpoint_failure client e s).
Proof.
  intros Hs. unfold endpoint_failure. apply disconnect_state_not_active.
  destruct e; [done|by apply (reg_inv_view s)..].
Qed.

Lemma endpoint_state_active client w r s :
  reg_inv s →
  ((endpoint_state client w r s).1 = true
   ∧ active_connections (endpoint_state client w r s).2 = active_connections s)
  ∨ ((endpoint_state client w r s).1 = false
     ∧ client ∉ active_connections (endpoint_state client w r s).2).
Proof.
  intros Hs. unfold endpoint_state.
  destruct r as [message| |]; cbn [fst snd];
    [|right; split; [done|by apply endpoint_failure_not_active]..].
  repeat (case_bool_decide; cbn [fst snd]).
  - destruct (SubscriptionType_call _); cbn [fst snd].
    + right. split; [done|by apply endpoint_failure_not_active].
    + left. split; [done|]. apply reg_view_active, subscribe_state_reg_view.
  - destruct (SubscriptionType_call _); cbn [fst snd].
    + right. split; [done|by apply endpoint_failure_not_active].
    + left. split; [done|]. apply reg_view_active, unsubscribe_state_reg_view.
  - left. split; [done|apply deliver_active].
  - left. split; [done|apply deliver_active].
  - by left.
Qed.

(** X8.  After any history, one pass of the loop of [websocket_endpoint]
    for a registered connection never raises, and the loop goes on exactly
    when the connection is still registered afterwards: every way out of
    the loop has unregistered the connection, and a pass that goes on has
    left [active_connections] as it was. *)
Theorem route_runs_while_registered (ops : list Op) (client websocket : nat)
    (r : Received) :
  let s := run ops init in
  let res := endpoint_iteration client websocket r s in
  client ∈ active_connections s →
  ∃ goes_on, res.1 = Ok goes_on
             ∧ (goes_on = true ↔ client ∈ active_connections res.2)
             ∧ (goes_on = true → active_connections res.2 = active_connections s).
Proof.
  intros s res Hin. subst res. rewrite endpoint_iteration_run. cbn [fst snd].
  eexists. split; [done|].
  destruct (endpoint_state_active client websocket r s (proj1 (wf_run ops)))
    as [[-> Ha]|[-> Hn]].
  - rewrite Ha. by split.
  - split; [|done]. split; [done|]. intros ?; done.
Qed.

Lemma route_runs_while_registered_witness :
  let s := run [Connect "a"] init in
  let res := endpoint_iteration 0 0 received_garbage s in
  ∃ goes_on, res.1 = Ok goes_on
             ∧ (goes_on = true ↔ 0 ∈ active_connections res.2)
             ∧ (goes_on = true → active_connections res.2 = active_connections s).
Proof.
  apply (route_runs_while_registered [Connect "a"] 0 0 received_garbage).
  vm_compute. apply list_elem_of_here.
Defined.

(** ** Who receives what *)

Lemma websocket_inj (h : list ClientSubscription) client client' c c' :
  NoDup (websocket <$> h) →
  h !! client = Some c → h !! client' = Some c' →
  websocket c = websocket c' → client = client'.
Proof.
  intros Hnd Hc Hc' Heq.
  apply (NoDup_lookup _ _ _ (websocket c) Hnd).
  - by rewrite list_lookup_fmap, Hc.
  - by rewrite list_lookup_fmap, Hc', Heq.
Qed.

Lemma recipient_unsubscribed T coin c :
  recipient T coin (set_subscriptions (λ S, S ∖ {[T]}) c) = false.
Proof.
  unfold recipient. cbn [subscriptions set_subscriptions].
  rewrite bool_decide_eq_false_2; [done|].
  intros [_ Hn]%elem_of_difference. by apply Hn, elem_of_singleton.
Qed.

(** X10.  After any history, once a connection has unsubscribed from a
    feed type, a broadcast of that feed type, for any coin, puts nothing
    on its socket. *)
Theorem unsubscribed_connection_gets_no_update (ops : list Op) (client : nat)
    (c : ClientSubscription) (T : SubscriptionType) (message : Message)
    (coin : option string) :
  let s := run ops init in
  let s1 := exec (unsubscribe_client client T) s in
  let s2 := exec (broadcast_to_subscribers message T coin) s1 in
  heap s !! client = Some c →
  sockets s2 !! websocket c = sockets s1 !! websocket c.
Proof.
  intros s s1 s2 Hc. subst s2 s1. rewrite broadcast_exec, exec_unsubscribe.
  assert (reg_inv (unsubscribe_state client T s)) as (_ & _ & Hws & _).
  { apply (reg_inv_view s); [apply unsubscribe_state_reg_view|apply wf_run]. }
  pose proof (unsubscribe_state_heap client T s c Hc) as Hc1.
  apply publish_all_sockets_other. intros client' c' _ Hc' Hrec Heq.
  assert (client' = client) as ->.
  { by eapply (websocket_inj _ _ _ _ _ Hws Hc' Hc1). }
  assert (c' = set_subscriptions (λ S, S ∖ {[T]}) c) as -> by congruence.
  by rewrite recipient_unsubscribed in Hrec.
Qed.

Lemma unsubscribed_connection_gets_no_update_witness :
  let s := run [Connect "a"; Connect "b"; Subscribe 0 PRICE_UPDATES ["btc"];
                Subscribe 1 PRICE_UPDATES ["btc"]] init in
  let s1 := exec (unsubscribe_client 0 PRICE_UPDATES) s in
  let s2 := exec (broadcast_to_subscribers btc_quote PRICE_UPDATES (Some "btc")) s1 in
  sockets s2 !! 0 = sockets s1 !! 0.
Proof.
  apply (unsubscribed_connection_gets_no_update
           [Connect "a"; Connect "b"; Subscribe 0 PRICE_UPDATES ["btc"];
            Subscribe 1 PRICE_UPDATES ["btc"]] 0
           {| client_id := "a"; websocket := 0; subscriptions := {[PRICE_UPDATES]};
              watched_coins := {["btc"]}; user_id := None |}
           PRICE_UPDATES btc_quote (Some "btc")).
  vm_compute. reflexivity.
Defined.

(** X11.  After any history, once a connection has been disconnected, a
    broadcast of any feed type, for any coin, puts nothing on its
    socket. *)
Theorem disconnected_connection_gets_no_update (ops : list Op) (client : nat)
    (c : ClientSubscription) (T : SubscriptionType) (message : Message)
    (coin : option string) :
  let s := run ops init in
  let s1 := exec (disconnect client) s in
  heap s !! client = Some c →
  sockets (exec (broadcast_to_subscribers message T coin) s1) !! websocket c
  = sockets s !! websocket c.
Proof.
  intros s s1 Hc. subst s1. rewrite broadcast_exec, exec_disconnect.
  assert (reg_inv (disconnect_state client s)) as Hinv.
  { apply reg_inv_disconnect, wf_run. }
  pose proof (disconnect_state_not_active client s (proj1 (wf_run ops))) as Hnot.
  rewrite <- (disconnect_state_sockets client s).
  apply publish_all_sockets_other. intros client' c' Hin Hc' _ Heq.
  rewrite disconnect_state_heap in Hc'.
  assert (client' = client) as ->; [|done].
  destruct (wf_run ops) as [(_ & _ & Hws & _) _].
  by eapply (websocket_inj _ _ _ _ _ Hws Hc' Hc).
Qed.

Lemma disconnected_connection_gets_no_update_witness :
  let s := run [Connect "a"; Connect "b"; Subscribe 0 PRICE_UPDATES ["btc"];
                Subscribe 1 PRICE_UPDATES ["btc"]] init in
  let s1 := exec (disconnect 0) s in
  sockets (exec (broadcast_to_subscribers btc_quote PRICE_UPDATES (Some "btc")) s1) !! 0
  = sockets s !! 0.
Proof.
  apply (disconnected_connection_gets_no_update
           [Connect "a"; Connect "b"; Subscribe 0 PRICE_UPDATES ["btc"];
            Subscribe 1 PRICE_UPDATES ["btc"]] 0
           {| client_id := "a"; websocket := 0; subscriptions := {[PRICE_UPDATES]};
              watched_coins := {["btc"]}; user_id := None |}
           PRICE_UPDATES btc_quote (Some "btc")).
  vm_compute. reflexivity.
Defined.

(** X4.  After any history the registry is sound: no connection is
    listed twice in [active_connections]; every listed connection is an
    existing object whose [websocket] is an existing socket; no two
    connection objects share a socket; and the [==] of the dataclass, which
    [disconnect] relies on, holds between two objects only when they are
    the same object. *)
Theorem registry_is_sound (ops : list Op) :
  let s := run ops init in
  NoDup (active_connections s)
  ∧ (∀ client, client ∈ active_connections s →
       ∃ c sk, heap s !! client = Some c ∧ sockets s !! websocket c = Some sk)
  ∧ (∀ client client' c c',
       heap s !! client = Some c → heap s !! client' = Some c' →
       websocket c = websocket c' → client = client')
  ∧ (∀ client client', py_eq (heap s) client client' = true → client = client').
Proof.
  intros s. destruct (wf_run ops) as [Hreg _].
  pose proof Hreg as (Hact & Hnd & Hws & Hsk).
  split; [done|]. split; [|split].
  - intros client Hin.
    apply (proj1 (Forall_forall _ _) Hact) in Hin.
    destruct (lookup_lt_is_Some_2 _ _ Hin) as [c Hc].
    destruct (wf_socket_of s client c Hreg Hc) as [sk Hsk'].
    by exists c, sk.
  - intros client client' c c' Hc Hc' Heq. by eapply (websocket_inj (heap s)).
  - intros client client'. by apply py_eq_true.
Qed.

(** ** Confirmations *)

Lemma cleanup_state_sockets s : sockets (cleanup_state s) = sockets s.
Proof. done. Qed.

(** X9.  [subscribe_client] and [unsubscribe_client] write to the socket
    of the connection they are called for and to no other socket.  What
    they hand to that socket is one confirmation naming the feed type;
    after a subscription that lists coins it carries every coin the
    connection now watches, and no coin list otherwise. *)
Theorem confirmation_goes_to_the_caller (s : World) (client : nat)
    (c : ClientSubscription) (T : SubscriptionType) (coins : list string) :
  let s1 := exec (subscribe_client client T coins) s in
  let s2 := exec (unsubscribe_client client T) s in
  heap s !! client = Some c →
  (∀ w, w ≠ websocket c →
        sockets s1 !! w = sockets s !! w ∧ sockets s2 !! w = sockets s !! w)
  ∧ (∀ sk, sockets s !! websocket c = Some sk →
           sockets s1 !! websocket c
           = Some (received
                     (subscription_confirmed (value T)
                        (if list_truthy coins
                         then Some (elements (watched_coins c ∪ list_to_set coins))
                         else None)) sk)
           ∧ sockets s2 !! websocket c
             = Some (received (unsubscription_confirmed (value T)) sk)).
Proof.
  intros s1 s2 Hc. subst s1 s2. rewrite exec_subscribe, exec_unsubscribe.
  pose proof (subscribe_state_heap client T coins s c Hc) as Hc1.
  assert (∃ s3, sockets s3 = sockets s
                ∧ heap s3 !! client = Some (subscribed_record T coins c)
                ∧ subscribe_state client T coins s
                  = deliver (subscription_confirmed (value T)
                               (if list_truthy coins
                                then Some (elements (watched_coins
                                                       (subscribed_record T coins c)))
                                else None))
                            (websocket c) s3) as (s3 & Hs3 & Hh3 & Heq).
  { unfold subscribe_state in *. rewrite Hc in *. cbn zeta in *.
    set (s3 := start_tasks_state T coins _) in *.
    exists s3. split.
    { subst s3. rewrite start_tasks_state_sockets. by destruct (list_truthy coins). }
    destruct (heap s3 !! client) as [c3|] eqn:Hc3.
    - rewrite deliver_heap, Hc3 in Hc1. injection Hc1 as ->. done.
    - by rewrite Hc3 in Hc1. }
  assert (unsubscribe_state client T s
          = cleanup_state
              (deliver (unsubscription_confirmed (value T)) (websocket c)
                 (set_heap (alter (set_subscriptions (λ S, S ∖ {[T]})) client) s)))
    as Heq2.
  { unfold unsubscribe_state. by rewrite Hc. }
  rewrite Heq, Heq2. split.
  - intros w Hw. rewrite cleanup_state_sockets.
    rewrite !deliver_sockets_ne by done. by rewrite Hs3.
  - intros sk Hsk. rewrite cleanup_state_sockets. split.
    + rewrite (deliver_sockets_eq _ _ _ sk) by (by rewrite Hs3).
      unfold subscribed_record; cbn [watched_coins].
      by destruct (list_truthy coins).
    + by rewrite (deliver_sockets_eq _ _ _ sk).
Qed.

Lemma confirmation_goes_to_the_caller_witness :
  let s := run [Connect "a"; Connect "b"] init in
  let s1 := exec (subscribe_client 0 PRICE_UPDATES ["btc"]) s in
  let s2 := exec (unsubscribe_client 0 PRICE_UPDATES) s in
  sockets s1 !! 1 = sockets s !! 1 ∧ sockets s2 !! 1 = sockets s !! 1.
Proof.
  refine (proj1 (confirmation_goes_to_the_caller
                   (run [Connect "a"; Connect "b"] init) 0
                   (new_client "a" 0) PRICE_UPDATES ["btc"] _) 1 _).
  - vm_compute. reflexivity.
  - vm_compute. lia.
Defined.

(** ** Exceptions *)

(** X1.  In every state of the hub, whatever the sockets and the price
    service do, none of these lets an exception escape:
    [send_personal_message], [broadcast_to_subscribers],
    [subscribe_client] (given a list of coin names), [unsubscribe_client],
    [disconnect], [send_alert], [_fetch_price_data], one pass of
    [_price_update_loop], one pass of the loop of [websocket_endpoint]. *)
Theorem manager_calls_never_raise (s : World) :
  (∀ message websocket, (send_personal_message message websocket s).1 = Ok tt)
  ∧ (∀ message T coin, (broadcast_to_subscribers message T coin s).1 = Ok tt)
  ∧ (∀ client T coins, (subscribe_client client T coins s).1 = Ok tt)
  ∧ (∀ client T, (unsubscribe_client client T s).1 = Ok tt)
  ∧ (∀ client, (disconnect client s).1 = Ok tt)
  ∧ (∀ user alert_data, (send_alert user alert_data s).1 = Ok tt)
  ∧ (∀ coin upstream, ∃ d, (_fetch_price_data coin upstream s).1 = Ok d)
  ∧ (∀ coin upstream, ∃ st, (price_update_iteration coin upstream s).1 = Ok st)
  ∧ (∀ client websocket r, ∃ b, (endpoint_iteration client websocket r s).1 = Ok b).
Proof.
  split; [intros; by rewrite send_personal_message_run|].
  split; [intros; by rewrite broadcast_to_subscribers_run|].
  split; [intros; by rewrite subscribe_client_run|].
  split; [intros; by rewrite unsubscribe_client_run|].
  split; [intros; by rewrite disconnect_run|].
  split; [intros; by rewrite send_alert_run|].
  split; [intros; rewrite _fetch_price_data_run; by eexists|].
  split; [intros; rewrite price_update_iteration_run; by eexists|].
  intros; rewrite endpoint_iteration_run; by eexists.
Qed.

(** X2.  [connect] returns normally exactly when the socket accepts the
    handshake.  When it raises, the manager is unchanged: nothing was
    registered.  When it returns, the new connection object has no
    subscription, no watched coin and no user, it is the last entry of
    [active_connections], the socket has been handed the welcome message
    listing the five feed names, and tasks and price cache are
    untouched. *)
Theorem connect_registers_or_raises (s : World) (websocket : nat) (client_id : string) :
  let res := connect websocket client_id s in
  (∀ e, res.1 = Raise e → res.2 = s)
  ∧ (res.1 = Ok (length (heap s))
     ↔ ∃ sk, sockets s !! websocket = Some sk ∧ ws_fault sk = None)
  ∧ (∀ client, res.1 = Ok client →
       heap res.2 = heap s ++ [new_client client_id websocket]
       ∧ active_connections res.2 = active_connections s ++ [client]
       ∧ (∀ sk, sockets s !! websocket = Some sk →
            sockets res.2
            = <[websocket := {| ws_fault := None;
                                ws_sent := ws_sent sk ++
                                  [connection_established client_id
                                     ["price_updates"; "portfolio_updates";
                                      "news_updates"; "alerts";
                                      "technical_indicators"]] |}]> (sockets s))
       ∧ tasks res.2 = tasks s
       ∧ update_tasks res.2 = update_tasks s
       ∧ price_cache res.2 = price_cache s).
Proof.
  intros res. subst res. unfold connect, bind, accept, get, modify, ret.
  destruct (sockets s !! websocket) as [sk|] eqn:Hsk; cbn [fst snd].
  - destruct (ws_fault sk) as [e|] eqn:Hf; cbn [fst snd].
    + split; [done|]. split; [|done].
      split; [done|]. intros (sk' & [= <-] & Hf'). congruence.
    + rewrite send_personal_message_run. cbn [fst snd].
      split; [done|]. split; [split; [|done]; by exists sk|].
      intros client [= <-]. unfold deliver.
      cbn [sockets heap set_heap set_active_connections active_connections].
      rewrite Hsk, Hf.
      split; [done|]. split; [done|]. split; [|done].
      intros sk' [= <-]. done.
  - split; [done|]. split; [|done].
    split; [done|]. intros (sk' & [=] & _).
Qed.

(** ** Subscribing again *)

Lemma start_state_present k c s :
  is_Some (update_tasks s !! k) → task_view (start_state k c s) = task_view s.
Proof. intros [t Ht]. unfold start_state. by rewrite Ht. Qed.

Lemma start_state_task_view_cong k c s1 s2 :
  task_view s1 = task_view s2 →
  task_view (start_state k c s1) = task_view (start_state k c s2).
Proof.
  unfold task_view, start_state. intros [= Ht Hu]. rewrite Hu.
  destruct (update_tasks s2 !! k); cbn; by rewrite ?Ht, ?Hu.
Qed.

Lemma start_all_task_view_cong (cs : list Coroutine) s1 s2 :
  task_view s1 = task_view s2 →
  task_view (foldl (λ s c, start_state (task_key c) c s) s1 cs)
  = task_view (foldl (λ s c, start_state (task_key c) c s) s2 cs).
Proof.
  revert s1 s2. induction cs as [|c cs IH]; intros s1 s2 H; [done|].
  cbn [foldl]. by apply IH, start_state_task_view_cong.
Qed.

Lemma start_all_present (cs : list Coroutine) s :
  (∀ c, c ∈ cs → is_Some (update_tasks s !! task_key c)) →
  task_view (foldl (λ s c, start_state (task_key c) c s) s cs) = task_view s.
Proof.
  revert s. induction cs as [|c cs IH]; intros s H; [done|].
  cbn [foldl].
  assert (task_view (start_state (task_key c) c s) = task_view s) as H1.
  { apply start_state_present, H, list_elem_of_here. }
  rewrite (start_all_task_view_cong cs _ s H1).
  apply IH. intros c' Hc'. by apply H, list_elem_of_further.
Qed.

Lemma subscribe_state_task_view client T coins s :
  task_view (subscribe_state client T coins s)
  = match heap s !! client with
    | Some _ => task_view (start_tasks_state T coins s)
    | None => task_view s
    end.
Proof.
  unfold subscribe_state. destruct (heap s !! client) as [c|]; [|done].
  cbn zeta.
  assert (∀ s', task_view
                  match heap s' !! client with
                  | Some c0 =>
                      deliver (subscription_confirmed (value T)
                                 (if list_truthy coins
                                  then Some (elements (watched_coins c0)) else None))
                              (websocket c0) s'
                  | None => s'
                  end = task_view s') as Hd.
  { intros s'. destruct (heap s' !! client); [apply deliver_task_view|done]. }
  rewrite Hd. unfold start_tasks_state. apply start_all_task_view_cong.
  by destruct (list_truthy coins).
Qed.

(** X12.  Once a connection has subscribed to a feed type with a list
    of coins, the same subscription made again, by this or any other
    connection, creates no task and leaves [update_tasks] as it is. *)
Theorem subscribing_again_starts_nothing (s : World) (client client' : nat)
    (T : SubscriptionType) (coins : list string) :
  let s1 := exec (subscribe_client client T coins) s in
  let s2 := exec (subscribe_client client' T coins) s1 in
  is_Some (heap s !! client) →
  tasks s2 = tasks s1 ∧ update_tasks s2 = update_tasks s1.
Proof.
  intros s1 s2 Hc. subst s2 s1. rewrite !exec_subscribe.
  set (s1 := subscribe_state client T coins s).
  assert (task_view (subscribe_state client' T coins s1) = task_view s1) as Hv.
  { rewrite subscribe_state_task_view. destruct (heap s1 !! client'); [|done].
    apply start_all_present. intros c0 Hin. by apply subscribe_state_starts. }
  unfold task_view in Hv. by injection Hv as -> ->.
Qed.

Lemma subscribing_again_starts_nothing_witness :
  let s := run [Connect "a"; Connect "b"] init in
  let s1 := exec (subscribe_client 0 PRICE_UPDATES ["btc"; "eth"]) s in
  let s2 := exec (subscribe_client 1 PRICE_UPDATES ["btc"; "eth"]) s1 in
  tasks s2 = tasks s1 ∧ update_tasks s2 = update_tasks s1.
Proof.
  apply (subscribing_again_starts_nothing
           (run [Connect "a"; Connect "b"] init) 0 1 PRICE_UPDATES ["btc"; "eth"]).
  vm_compute. by eexists.
Defined.

(** ** Feed types by value *)

(** X3.  [SubscriptionType(v)] returns the member whose value is [v],
    and only that one; it raises [ValueError], and nothing else, exactly
    when no member has the value [v], and also when the value is
    missing. *)
Theorem SubscriptionType_by_value (v : string) (T : SubscriptionType) :
  (SubscriptionType_call (Some v) = inr T ↔ value T = v)
  ∧ (SubscriptionType_call (Some v) = inl ValueError ↔ ∀ T', value T' ≠ v)
  ∧ SubscriptionType_call None = inl ValueError
  ∧ (∀ e, SubscriptionType_call (Some v) = inl e → e = ValueError).
Proof.
  split; [|split; [|split]].
  - split; [|intros <-; apply SubscriptionType_call_value].
    unfold SubscriptionType_call, all_SubscriptionType.
    rewrite !filter_cons, filter_nil.
    repeat (destruct (decide _) as [?|?]); intros [= <-]; done.
  - split; [|apply SubscriptionType_call_unknown].
    intros Hcall T' <-. by rewrite SubscriptionType_call_value in Hcall.
  - done.
  - unfold SubscriptionType_call.
    destruct (filter _ _); by intros e [= <-].
Qed.

(** ** Teardown for coins that do not contain a key prefix *)

(** X14.  For a coin whose name contains neither ["price_"] nor
    ["indicators_"], the poller follows its subscribers: after any
    history, an [unsubscribe_client] of an existing connection or a
    [disconnect] removes the poller of the feed key from [update_tasks]
    and cancels its task when no subscriber of the key is left, and keeps
    it, live and under the same key, when one is left. *)
Theorem plain_coin_poller_follows_its_subscribers (ops : list Op) (o : Op)
    (T : SubscriptionType) (coin : string) (c : Coroutine) (t : nat) :
  let s := run ops init in
  let s' := exec (step o) s in
  (∃ client T', o = Unsubscribe client T' ∧ is_Some (heap s !! client))
  ∨ (∃ client, o = Disconnect client) →
  poller_of (T, coin) = Some c →
  str_in "price_" coin = false →
  str_in "indicators_" coin = false →
  update_tasks s !! task_key c = Some t →
  (key_has_subscribers (T, coin) s' = false →
     update_tasks s' !! task_key c = None
     ∧ tasks s' !! t = Some {| coro := c; cancelled := true |})
  ∧ (key_has_subscribers (T, coin) s' = true →
     update_tasks s' !! task_key c = Some t ∧ live_poller s' c t).
Proof.
  intros s s' Ho Hp Hprice Hind Ht.
  apply (teardown_when_key_round_trips ops o (T, coin) c t Ho Hp); [|done].
  unfold key_round_trips. destruct T; cbn [fst snd]; try done.
  - by apply str_replace_prefix_recovers.
  - by apply str_replace_prefix_recovers.
Qed.

Lemma plain_coin_poller_follows_its_subscribers_witness :
  let s := run [Connect "a"; Connect "b"; Subscribe 0 PRICE_UPDATES ["btc"];
                Subscribe 1 PRICE_UPDATES ["btc"]] init in
  let s' := exec (step (Disconnect 0)) s in
  (key_has_subscribers (PRICE_UPDATES, "btc") s' = false →
     update_tasks s' !! "price_btc" = None
     ∧ tasks s' !! 0 = Some {| coro := price_update_loop "btc"; cancelled := true |})
  ∧ (key_has_subscribers (PRICE_UPDATES, "btc") s' = true →
     update_tasks s' !! "price_btc" = Some 0
     ∧ live_poller s' (price_update_loop "btc") 0).
Proof.
  apply (plain_coin_poller_follows_its_subscribers
           [Connect "a"; Connect "b"; Subscribe 0 PRICE_UPDATES ["btc"];
            Subscribe 1 PRICE_UPDATES ["btc"]]
           (Disconnect 0) PRICE_UPDATES "btc" (price_update_loop "btc") 0).
  - right. by exists 0.
  - reflexivity.
  - vm_compute. reflexivity.
  - vm_compute. reflexivity.
  - vm_compute. reflexivity.
Defined.

(** ** A poller that ended *)

(** X15.  When [update_tasks] holds a price poller for a coin that no
    active connection is subscribed to, the loop of that poller ends at
    its next pass, without fetching and without touching the hub, and the
    entry stays in [update_tasks]; a later subscription to the coin then
    finds the entry and starts no task. *)
Theorem ended_poller_is_not_restarted (s : World) (coin : string) (t client : nat) :
  let s' := exec (subscribe_client client PRICE_UPDATES [coin]) s in
  has_subscribers PRICE_UPDATES coin s = false →
  update_tasks s !! ("price_" +:+ coin) = Some t →
  (∀ u upstream, _price_update_loop coin (u :: upstream) s = (Ok [], s))
  ∧ tasks s' = tasks s
  ∧ update_tasks s' = update_tasks s.
Proof.
  intros s' Hno Ht. split.
  - intros u upstream. cbn [_price_update_loop]. unfold bind.
    rewrite price_update_iteration_run. unfold price_tick_state. by rewrite Hno.
  - subst s'. rewrite exec_subscribe.
    assert (task_view (subscribe_state client PRICE_UPDATES [coin] s) = task_view s)
      as Hv.
    { rewrite subscribe_state_task_view. destruct (heap s !! client); [|done].
      apply start_all_present. intros c0 Hin. cbn in Hin.
      apply list_elem_of_singleton in Hin as ->. cbn [task_key]. by rewrite Ht. }
    unfold task_view in Hv. by injection Hv as -> ->.
Qed.

Lemma ended_poller_is_not_restarted_witness :
  let s := run [Connect "a"; Connect "b"; Subscribe 0 PRICE_UPDATES ["price_btc"];
                Subscribe 1 PRICE_UPDATES ["btc"]; Unsubscribe 0 PRICE_UPDATES] init in
  let s' := exec (subscribe_client 1 PRICE_UPDATES ["price_btc"]) s in
  (∀ u upstream, _price_update_loop "price_btc" (u :: upstream) s = (Ok [], s))
  ∧ tasks s' = tasks s
  ∧ update_tasks s' = update_tasks s.
Proof.
  apply (ended_poller_is_not_restarted
           (run [Connect "a"; Connect "b"; Subscribe 0 PRICE_UPDATES ["price_btc"];
                 Subscribe 1 PRICE_UPDATES ["btc"]; Unsubscribe 0 PRICE_UPDATES] init)
           "price_btc" 0 1).
  - vm_compute. reflexivity.
  - vm_compute. reflexivity.
Defined.

(** ** Price alerts *)

Lemma delete_alert_objects id st : alert_objects (delete_alert id st) = alert_objects st.
Proof. unfold delete_alert. by destruct (active_alert_monitors st !! id). Qed.

Lemma delete_alert_user_alerts id st :
  user_alerts (delete_alert id st)
  = filter (λ a, alert_id <$> alert_objects st !! a ≠ Some id) <$> user_alerts st.
Proof. unfold delete_alert. by destruct (active_alert_monitors st !! id). Qed.

Lemma delete_alert_monitors id st :
  active_alert_monitors (delete_alert id st) = delete id (active_alert_monitors st).
Proof.
  unfold delete_alert. destruct (active_alert_monitors st !! id) eqn:Hid; [done|].
  cbn. by rewrite delete_id.
Qed.

Lemma delete_alert_tasks id st :
  monitor_tasks (delete_alert id st)
  = match active_alert_monitors st !! id with
    | Some t => cancel_monitor t (monitor_tasks st)
    | None => monitor_tasks st
    end.
Proof. unfold delete_alert. by destruct (active_alert_monitors st !! id). Qed.

Lemma omap_filter_objects (h : list AlertData) id (l : list nat) :
  omap (λ a, h !! a) (filter (λ a, alert_id <$> h !! a ≠ Some id) l)
  = filter (λ a, alert_id a ≠ id) (omap (λ a, h !! a) l).
Proof.
  induction l as [|x l IH]; [done|].
  rewrite filter_cons. cbn [omap list_omap].
  destruct (h !! x) as [a|] eqn:Hx; cbn [fmap option_fmap option_map].
  - rewrite filter_cons.
    destruct (decide (alert_id a ≠ id)) as [Hne|Heq].
    + rewrite decide_True by congruence. cbn [omap list_omap]. rewrite Hx.
      f_equal. apply IH.
    + rewrite decide_False; [apply IH|]. intros Hn. apply Heq. congruence.
  - rewrite decide_True by done. cbn [omap list_omap]. rewrite Hx. apply IH.
Qed.

Lemma filter_filter_same {A} (P : A → Prop) `{!∀ x, Decision (P x)} (l : list A) :
  filter P (filter P l) = filter P l.
Proof.
  induction l as [|x l IH]; [done|].
  rewrite filter_cons. destruct (decide (P x)); [|done].
  rewrite filter_cons_True by done. by f_equal.
Qed.

Lemma delete_alert_idemp id st : delete_alert id (delete_alert id st) = delete_alert id st.
Proof.
  set (st1 := delete_alert id st).
  assert (active_alert_monitors st1 !! id = None) as Hnone.
  { subst st1. rewrite delete_alert_monitors. apply lookup_delete_eq. }
  unfold delete_alert at 1. rewrite Hnone.
  assert (user_alerts st1
          = filter (λ a, alert_id <$> alert_objects st1 !! a ≠ Some id) <$> user_alerts st1)
    as Hu.
  { subst st1. rewrite delete_alert_objects, delete_alert_user_alerts.
    rewrite <- map_fmap_compose. apply map_fmap_ext. intros k l _. cbn.
    symmetry. apply filter_filter_same. }
  destruct st1 as [ua am ao mt]. unfold set_user_alerts; cbn in *. by rewrite <- Hu.
Qed.

(** X18.  [delete_alert] removes the alerts with the given identifier
    from the list of every user, whoever created them, and keeps the other
    alerts in their order; the count returned by [get_user_alerts] is the
    length of the list it returns.  The monitor registered under the
    identifier is cancelled and its entry removed, no alert object is
    changed, and deleting the same identifier again changes nothing. *)
Theorem delete_alert_removes_the_alert_everywhere (alert_id' : string) (st : AlertStore) :
  let st' := delete_alert alert_id' st in
  (∀ user, (get_user_alerts user st').1
           = filter (λ a, alert_id a ≠ alert_id') ((get_user_alerts user st).1))
  ∧ (∀ user, (get_user_alerts user st').2 = length (get_user_alerts user st').1)
  ∧ active_alert_monitors st' = delete alert_id' (active_alert_monitors st)
  ∧ (∀ t tk, active_alert_monitors st !! alert_id' = Some t →
             monitor_tasks st !! t = Some tk →
             monitor_tasks st' !! t
             = Some {| monitored := monitored tk; monitor_cancelled := true |})
  ∧ alert_objects st' = alert_objects st
  ∧ delete_alert alert_id' st' = st'.
Proof.
  intros st'. subst st'. split; [|split; [|split; [|split; [|split]]]].
  - intros user. unfold get_user_alerts; cbn [fst].
    rewrite delete_alert_objects, delete_alert_user_alerts, lookup_fmap.
    destruct (user_alerts st !! user) as [l|]; cbn; [|done].
    apply omap_filter_objects.
  - done.
  - apply delete_alert_monitors.
  - intros t tk Ht Htk. rewrite delete_alert_tasks, Ht. unfold cancel_monitor.
    by rewrite list_lookup_alter_eq, Htk.
  - apply delete_alert_objects.
  - apply delete_alert_idemp.
Qed.

Lemma default_Some {A} (d x : A) : default d (Some x) = x.
Proof. done. Qed.

Lemma omap_objects_app (h : list AlertData) (new : list AlertData) (l : list nat) :
  (∀ a, a ∈ l → a < length h) →
  omap (λ a, (h ++ new) !! a) l = omap (λ a, h !! a) l.
Proof.
  intros Hl. induction l as [|x l IH]; [done|].
  cbn [omap list_omap].
  rewrite lookup_app_l by (apply Hl, list_elem_of_here).
  rewrite IH; [done|]. intros a Ha. by apply Hl, list_elem_of_further.
Qed.

(** X17.  In a store whose locations all denote objects,
    [create_price_alert] followed by [get_user_alerts] for the same user
    returns the alerts the user had, in order, followed by the new one,
    which carries the returned identifier, the fields of the request and
    [triggered = False]; the count goes up by one, the alerts of every
    other user are unchanged, and the store is again one whose locations
    all denote objects. *)
Theorem created_alert_is_listed (py_str : Z → string) (py_hash : string → string)
    (alert : PriceAlert) (user : string) (st : AlertStore) :
  let created := create_price_alert py_str py_hash alert user st in
  store_ok st →
  (∃ a, (get_user_alerts user created.2).1 = (get_user_alerts user st).1 ++ [a]
        ∧ alert_id a = created.1
        ∧ alert_user_id a = user
        ∧ alert_coin_id a = coin_id alert
        ∧ alert_condition a = condition alert
        ∧ alert_target_value a = target_value alert
        ∧ triggered a = false)
  ∧ (get_user_alerts user created.2).2 = S (get_user_alerts user st).2
  ∧ (∀ user', user' ≠ user →
       get_user_alerts user' created.2 = get_user_alerts user' st)
  ∧ store_ok created.2.
Proof.
  intros created [Hua Ham]. subst created.
  unfold create_price_alert; cbn zeta; cbn [fst snd].
  set (id := "alert_" +:+ _).
  set (obj := {| alert_id := id |}).
  assert (∀ user' l, user_alerts st !! user' = Some l →
            omap (λ a, (alert_objects st ++ [obj]) !! a) l
            = omap (λ a, alert_objects st !! a) l) as Hok.
  { intros user' l Hl. apply omap_objects_app. intros a Ha. by eapply Hua. }
  assert (omap (λ a, (alert_objects st ++ [obj]) !! a)
               (default [] (user_alerts st !! user) ++ [length (alert_objects st)])
          = omap (λ a, alert_objects st !! a) (default [] (user_alerts st !! user))
            ++ [obj]) as Hget.
  { rewrite omap_app. f_equal.
    - destruct (user_alerts st !! user) as [l|] eqn:Hl; [by eapply Hok|done].
    - cbn [omap list_omap]. by rewrite list_lookup_middle. }
  split; [|split; [|split]].
  - exists obj. unfold get_user_alerts;
      cbn [fst snd user_alerts alert_objects set_user_alerts set_alert_objects
           set_monitor_tasks set_active_alert_monitors].
    rewrite lookup_insert_eq. rewrite default_Some. rewrite Hget. by repeat split.
  - unfold get_user_alerts;
      cbn [fst snd user_alerts alert_objects set_user_alerts set_alert_objects
           set_monitor_tasks set_active_alert_monitors]. rewrite lookup_insert_eq, default_Some.
    rewrite Hget, length_app. cbn [length]. lia.
  - intros user' Hne. unfold get_user_alerts;
      cbn [fst snd user_alerts alert_objects set_user_alerts set_alert_objects
           set_monitor_tasks set_active_alert_monitors].
    rewrite lookup_insert_ne by done.
    destruct (user_alerts st !! user') as [l|] eqn:Hl; [|done].
    rewrite !default_Some. by rewrite (Hok _ _ Hl).
  - split; cbn [fst snd user_alerts alert_objects set_user_alerts set_alert_objects
                  set_monitor_tasks set_active_alert_monitors monitor_tasks
                  active_alert_monitors].
    + intros user' alerts a Hl Ha. rewrite length_app; cbn [length].
      destruct (decide (user' = user)) as [->|Hne].
      * rewrite lookup_insert_eq in Hl. injection Hl as <-.
        apply elem_of_app in Ha as [Ha|Ha%list_elem_of_singleton]; [|lia].
        destruct (user_alerts st !! user) as [l|] eqn:Hl; [|by apply elem_of_nil in Ha].
        specialize (Hua _ _ _ Hl Ha). lia.
      * rewrite lookup_insert_ne in Hl by done. specialize (Hua _ _ _ Hl Ha). lia.
    + intros k t. rewrite length_app; cbn [length].
      destruct (decide (k = id)) as [->|Hne].
      * rewrite lookup_insert_eq. intros [= <-]. lia.
      * rewrite lookup_insert_ne by done. intros Hk. specialize (Ham _ _ Hk). lia.
Qed.

Lemma store_ok_no_alerts : store_ok no_alerts.
Proof.
  split; unfold no_alerts; cbn.
  - intros user alerts a Hl. by rewrite lookup_empty in Hl.
  - intros k t Hk. by rewrite lookup_empty in Hk.
Qed.

Lemma created_alert_is_listed_witness :
  let alert := {| coin_id := "bitcoin"; condition := "above"; target_value := 100000;
                  notification_type := "websocket"; is_active := true |} in
  let created := create_price_alert (λ _, "100000.0") (λ _, "42") alert "ann" no_alerts in
  (get_user_alerts "ann" created.2).2 = 1.
Proof.
  intros alert created.
  exact (proj1 (proj2 (created_alert_is_listed (λ _, "100000.0") (λ _, "42") alert "ann"
                         no_alerts store_ok_no_alerts))).
Defined.

(** X19.  Creating the same alert twice for the same user gives the
    same identifier twice, and the second monitor takes the place of the
    first in [active_alert_monitors].  A [delete_alert] of that identifier
    then cancels the second monitor only: the task of the first one is not
    cancelled and no entry of [active_alert_monitors] refers to it any
    more, while its alert, not triggered and as active as requested, is in
    no user's list. *)
Theorem same_alert_twice_orphans_the_first_monitor (py_str : Z → string)
    (py_hash : string → string) (alert : PriceAlert) (user : string)
    (st : AlertStore) :
  let first := create_price_alert py_str py_hash alert user st in
  let second := create_price_alert py_str py_hash alert user first.2 in
  let st' := delete_alert first.1 second.2 in
  let t1 := length (monitor_tasks st) in
  let a1 := length (alert_objects st) in
  store_ok st →
  second.1 = first.1
  ∧ monitor_tasks st' !! t1 = Some {| monitored := a1; monitor_cancelled := false |}
  ∧ monitor_tasks st' !! S t1 = Some {| monitored := S a1; monitor_cancelled := true |}
  ∧ (∀ k, active_alert_monitors st' !! k ≠ Some t1)
  ∧ (∀ user' a, a ∈ (get_user_alerts user' st').1 → alert_id a ≠ first.1)
  ∧ (∃ a, alert_objects st' !! a1 = Some a
          ∧ alert_id a = first.1 ∧ triggered a = false
          ∧ alert_is_active a = is_active alert).
Proof.
  intros first second st' t1 a1 [Hua Ham]. subst st' second first t1 a1.
  unfold create_price_alert; cbn zeta; cbn [fst snd].
  set (id := "alert_" +:+ _).
  split; [done|].
  rewrite delete_alert_tasks, delete_alert_monitors, delete_alert_objects.
  cbn [active_alert_monitors set_active_alert_monitors monitor_tasks set_monitor_tasks
       set_user_alerts set_alert_objects alert_objects].
  rewrite lookup_insert_eq. unfold cancel_monitor.
  rewrite length_app; cbn [length].
  replace (length (monitor_tasks st) + 1) with (S (length (monitor_tasks st))) by lia.
  rewrite length_app; cbn [length].
  replace (length (alert_objects st) + 1) with (S (length (alert_objects st))) by lia.
  split; [|split; [|split; [|split]]].
  - rewrite list_lookup_alter_ne by lia.
    rewrite lookup_app_l by (rewrite length_app; cbn; lia).
    by rewrite list_lookup_middle.
  - rewrite list_lookup_alter_eq.
    rewrite (list_lookup_middle _ [] _ (S (length (monitor_tasks st))))
      by (rewrite length_app; cbn; lia).
    done.
  - intros k Hk. destruct (decide (k = id)) as [->|Hne].
    + by rewrite lookup_delete_eq in Hk.
    + rewrite lookup_delete_ne, !lookup_insert_ne in Hk by done.
      specialize (Ham _ _ Hk). lia.
  - intros user' a Ha.
    unfold get_user_alerts in Ha; cbn [fst] in Ha.
    rewrite delete_alert_objects, delete_alert_user_alerts, lookup_fmap in Ha.
    match type of Ha with
    | a ∈ omap _ (default [] (?f <$> ?m !! user')) =>
        destruct (m !! user') as [l|]; cbn in Ha; [|by apply elem_of_nil in Ha]
    end.
    rewrite omap_filter_objects in Ha.
    by apply list_elem_of_filter in Ha as [Hne _].
  - eexists. split.
    + rewrite lookup_app_l by (rewrite length_app; cbn; lia).
      by rewrite list_lookup_middle.
    + done.
Qed.

Lemma same_alert_twice_orphans_the_first_monitor_witness :
  let alert := {| coin_id := "bitcoin"; condition := "above"; target_value := 100000;
                  notification_type := "websocket"; is_active := true |} in
  let first := create_price_alert (λ _, "100000.0") (λ _, "42") alert "ann" no_alerts in
  let second := create_price_alert (λ _, "100000.0") (λ _, "42") alert "ann" first.2 in
  let st' := delete_alert first.1 second.2 in
  monitor_tasks st' !! 0 = Some {| monitored := 0; monitor_cancelled := false |}
  ∧ ∀ k, active_alert_monitors st' !! k ≠ Some 0.
Proof.
  intros alert first second st'.
  pose proof (same_alert_twice_orphans_the_first_monitor
                (λ _, "100000.0") (λ _, "42") alert "ann" no_alerts store_ok_no_alerts)
    as (_ & H1 & _ & H2 & _).
  exact (conj H1 H2).
Defined.

(** ** The monitor of an alert *)

Lemma alert_fires_unknown condition current_price price_change target :
  condition ∉ ["above"; "below"; "change_up"; "change_down"] →
  alert_fires condition current_price price_change target = false.
Proof.
  intros Hc. unfold alert_fires.
  rewrite !(bool_decide_eq_false_2 (condition = _)); [done|..];
    intros ->; apply Hc; repeat first [apply list_elem_of_here|apply list_elem_of_further].
Qed.

Lemma monitor_finally_idemp id st :
  monitor_finally id (monitor_finally id st) = monitor_finally id st.
Proof.
  unfold monitor_finally, set_active_alert_monitors; cbn. f_equal.
  apply delete_delete_eq.
Qed.

(** X20.  The hub being in any state that a history can leave, with any
    log: when the monitor of an active, not yet triggered alert fetches a
    price that meets its condition, the pass marks the alert as triggered
    with that price, ends the loop and removes the entry of the alert from
    [active_alert_monitors]; the hub is left exactly as it was, so the
    notification handed to [send_alert] reaches no socket.  Any further
    pass for the same alert ends at once and changes nothing. *)
Theorem triggered_alert_reaches_no_one (ops : list Op) (l : list LogEntry)
    (alert_notification : AlertData → Z → string) (alert_data : nat)
    (a : AlertData) (upstream : HttpOutcome) (d : PriceData) (st : AlertStore) :
  let s := set_log (λ _, l) (run ops init) in
  let a' := {| alert_id := alert_id a; alert_user_id := alert_user_id a;
               alert_coin_id := alert_coin_id a;
               alert_condition := alert_condition a;
               alert_target_value := alert_target_value a;
               alert_notification_type := alert_notification_type a;
               alert_is_active := alert_is_active a;
               triggered := true; triggered_price := Some (price d) |} in
  let st' := monitor_finally (alert_id a)
               (set_alert_objects (<[alert_data := a']>) st) in
  alert_objects st !! alert_data = Some a →
  alert_is_active a = true →
  triggered a = false →
  fetched (alert_coin_id a) upstream = Some d →
  alert_fires (alert_condition a) (price d) (price_change_24h d)
    (alert_target_value a) = true →
  monitor_price_alert_iteration alert_notification alert_data upstream st s
  = (Ok (loop_break, st'), s)
  ∧ alert_objects st' !! alert_data = Some a'
  ∧ active_alert_monitors st' !! alert_id a = None
  ∧ ∀ upstream',
      monitor_price_alert_iteration alert_notification alert_data upstream' st' s
      = (Ok (loop_break, st'), s).
Proof.
  intros s a' st' Ha Hact Htr Hf Hfires.
  assert (alert_objects st' !! alert_data = Some a') as Ha'.
  { subst st'. cbn. apply list_lookup_insert_eq. by eapply lookup_lt_Some. }
  split; [|split; [done|split]].
  - unfold monitor_price_alert_iteration. rewrite Ha, Hact, Htr. cbn [andb negb].
    unfold bind. rewrite _fetch_price_data_run, Hf, Hfires.
    rewrite send_alert_run.
    destruct upstream as [status data|e]; [|done].
    cbn [fetch_state]. rewrite alert_state_no_user by apply (no_user_id_run ops).
    subst st' a'. by rewrite Hact.
  - subst st'. cbn. apply lookup_delete_eq.
  - intros upstream'. unfold monitor_price_alert_iteration. rewrite Ha'.
    subst a'. cbn [alert_is_active triggered alert_id]. rewrite andb_false_r.
    unfold ret. subst st'. by rewrite monitor_finally_idemp.
Qed.

Lemma triggered_alert_reaches_no_one_witness :
  let a := {| alert_id := "alert_42"; alert_user_id := "ann";
              alert_coin_id := "bitcoin"; alert_condition := "above";
              alert_target_value := 90000; alert_notification_type := "websocket";
              alert_is_active := true; triggered := false; triggered_price := None |} in
  let st := {| user_alerts := {[ "ann" := [0] ]};
               active_alert_monitors := {[ "alert_42" := 0 ]};
               alert_objects := [a];
               monitor_tasks := [{| monitored := 0; monitor_cancelled := false |}] |} in
  let u := http_response 200
             {[ "bitcoin" := {| usd := Some 98500%Z; usd_24h_change := Some 2%Z;
                                usd_24h_vol := None; usd_market_cap := None |} ]} in
  let s := set_log (λ _, []) (run [Connect "ann"; Subscribe 0 ALERTS []] init) in
  ∃ st', monitor_price_alert_iteration (λ _ _, "BITCOIN above 90000") 0 u st s
         = (Ok (loop_break, st'), s).
Proof.
  intros a st u s. eexists.
  refine (proj1 (triggered_alert_reaches_no_one
                   [Connect "ann"; Subscribe 0 ALERTS []] []
                   (λ _ _, "BITCOIN above 90000") 0 a u
                   {| price := 98500; price_change_24h := 2;
                      volume_24h := 0; market_cap := 0 |} st _ _ _ _ _)).
  - reflexivity.
  - reflexivity.
  - reflexivity.
  - vm_compute. reflexivity.
  - vm_compute. reflexivity.
Defined.

Lemma monitor_iteration_idle alert_notification alert_data a u st s :
  alert_objects st !! alert_data = Some a →
  alert_is_active a = true →
  triggered a = false →
  alert_condition a ∉ ["above"; "below"; "change_up"; "change_down"] →
  monitor_price_alert_iteration alert_notification alert_data u st s
  = (Ok (loop_sleep 30, st), fetch_state (alert_coin_id a) u s).
Proof.
  intros Ha Hact Htr Hc. unfold monitor_price_alert_iteration.
  rewrite Ha, Hact, Htr. cbn [andb negb]. unfold bind.
  rewrite _fetch_price_data_run.
  destruct (fetched _ _) as [d|]; [|done].
  by rewrite alert_fires_unknown.
Qed.

Lemma monitor_idle alert_notification alert_data a upstream st s :
  alert_objects st !! alert_data = Some a →
  alert_is_active a = true →
  triggered a = false →
  alert_condition a ∉ ["above"; "below"; "change_up"; "change_down"] →
  ∃ s', monitor_price_alert alert_notification alert_data upstream st s
        = (Ok (replicate (length upstream) 30%Z, st), s')
        ∧ sockets s' = sockets s
        ∧ heap s' = heap s
        ∧ active_connections s' = active_connections s
        ∧ price_cache s' = price_cache s.
Proof.
  intros Ha Hact Htr Hc. revert s.
  induction upstream as [|u upstream IH]; intros s.
  - by exists s.
  - cbn [monitor_price_alert]. unfold bind at 1.
    rewrite (monitor_iteration_idle _ _ a) by done. cbn [fst snd].
    destruct (IH (fetch_state (alert_coin_id a) u s)) as (s' & Hrun & H1 & H2 & H3 & H4).
    exists s'. unfold bind. rewrite Hrun. cbn [fst snd length replicate].
    split; [done|]. rewrite H1, H2, H3, H4. by destruct u.
Qed.

(** X21.  [create_price_alert] stores an active alert whatever its
    [condition] is.  When the condition is none of ["above"], ["below"],
    ["change_up"], ["change_down"], the monitor of the alert never
    triggers: whatever the fetches return, every pass ends with the 30
    second sleep and leaves the alert store, the sockets, the connections
    and the price cache as they were. *)
Theorem alert_with_unknown_condition_never_triggers (py_str : Z → string)
    (py_hash : string → string) (alert_notification : AlertData → Z → string)
    (alert : PriceAlert) (user : string) (st : AlertStore)
    (upstream : list HttpOutcome) (s : World) :
  let created := create_price_alert py_str py_hash alert user st in
  let alert_data := length (alert_objects st) in
  is_active alert = true →
  condition alert ∉ ["above"; "below"; "change_up"; "change_down"] →
  ∃ s', monitor_price_alert alert_notification alert_data upstream created.2 s
        = (Ok (replicate (length upstream) 30%Z, created.2), s')
        ∧ sockets s' = sockets s
        ∧ heap s' = heap s
        ∧ active_connections s' = active_connections s
        ∧ price_cache s' = price_cache s.
Proof.
  intros created alert_data Hact Hc. subst created alert_data.
  eapply monitor_idle.
  - unfold create_price_alert; cbn. by rewrite list_lookup_middle.
  - exact Hact.
  - done.
  - exact Hc.
Qed.

Lemma alert_with_unknown_condition_never_triggers_witness :
  let alert := {| coin_id := "bitcoin"; condition := "over"; target_value := 1;
                  notification_type := "websocket"; is_active := true |} in
  let created := create_price_alert (λ _, "1.0") (λ _, "42") alert "ann" no_alerts in
  let u := http_response 200
             {[ "bitcoin" := {| usd := Some 98500%Z; usd_24h_change := Some 2%Z;
                                usd_24h_vol := None; usd_market_cap := None |} ]} in
  ∃ s', monitor_price_alert (λ _ _, "") 0 [u; u; u] created.2 init
        = (Ok ([30; 30; 30]%Z, created.2), s')
        ∧ sockets s' = sockets init
        ∧ heap s' = heap init
        ∧ active_connections s' = active_connections init
        ∧ price_cache s' = price_cache init.
Proof.
  intros alert created u.
  apply (alert_with_unknown_condition_never_triggers
           (λ _, "1.0") (λ _, "42") (λ _ _, "") alert "ann" no_alerts [u; u; u] init).
  - reflexivity.
  - vm_compute. intros H.
    repeat (apply elem_of_cons in H as [H|H]; [discriminate H|]).
    by apply elem_of_nil in H.
Defined.

(* ===================================================================== *)
(** * Fan-out and the subscriptions of the specification *)
(* ===================================================================== *)

(** The history is replayed on the registry of the specification, and
    the two are shown to agree on who is registered and, one way, on who
    is subscribed to what. *)

Lemma spec_agrees_ext H s s' :
  heap s' = heap s → active_connections s' = active_connections s →
  spec_agrees H s → spec_agrees H s'.
Proof. unfold spec_agrees. by intros -> ->. Qed.

Lemma elem_of_spec_keys K T coins :
  K ∈ spec_keys T coins →
  K.1 = T ∧ (instrument_scoped T = true → K.2 ∈ coins).
Proof.
  unfold spec_keys. destruct (instrument_scoped T).
  - intros (coin & -> & Hin)%elem_of_list_to_set%list_elem_of_fmap. by split.
  - intros ->%elem_of_singleton. by split.
Qed.

Lemma spec_agrees_subscribe H s client T coins :
  reg_inv s → spec_agrees H s →
  spec_agrees {| spec_next := spec_next H;
                 spec_subscriptions :=
                   spec_apply (Subscribe client T coins) (spec_subscriptions H) |}
              (subscribe_state client T coins s).
Proof.
  intros Hreg (Hn & Hact & Hkeys). unfold spec_agrees; cbn [spec_next spec_subscriptions spec_apply].
  rewrite subscribe_state_heap_alter.
  rewrite (reg_view_active _ _ (subscribe_state_reg_view client T coins s)).
  split; [by rewrite length_alter|]. split.
  - intros x. rewrite Hact, lookup_alter.
    destruct (decide (client = x)) as [->|]; [|done].
    by rewrite fmap_is_Some.
  - intros x KS K. rewrite lookup_alter, list_lookup_alter.
    destruct (decide (client = x)) as [->|Hne].
    + destruct (spec_subscriptions H !! x) as [KS0|] eqn:Hx; [|done].
      intros [= <-] [Hold|Hnew]%elem_of_union.
      * destruct (Hkeys _ _ _ Hx Hold) as (c & Hc & HT & Hw).
        rewrite Hc. exists (subscribed_record T coins c). split; [done|].
        unfold subscribed_record; cbn [subscriptions watched_coins].
        split; [by apply elem_of_union_l|].
        intros Hi. specialize (Hw Hi).
        destruct (list_truthy coins); [by apply elem_of_union_l|done].
      * apply elem_of_spec_keys in Hnew as [HK Hcoin].
        assert (is_Some (heap s !! x)) as [c Hc].
        { apply lookup_lt_is_Some. destruct Hreg as (Hlt & _).
          apply (proj1 (Forall_forall _ _) Hlt). apply Hact. by rewrite Hx. }
        rewrite Hc. exists (subscribed_record T coins c). split; [done|].
        unfold subscribed_record; cbn [subscriptions watched_coins].
        split; [rewrite HK; by apply elem_of_union_r, elem_of_singleton|].
        rewrite HK. intros Hi. specialize (Hcoin Hi).
        rewrite (elem_of_list_truthy _ _ Hcoin).
        by apply elem_of_union_r, elem_of_list_to_set.
    + intros Hx HK. by apply (Hkeys x KS K).
Qed.

Lemma spec_agrees_unsubscribe H s client T :
  spec_agrees H s →
  spec_agrees {| spec_next := spec_next H;
                 spec_subscriptions :=
                   spec_apply (Unsubscribe client T) (spec_subscriptions H) |}
              (unsubscribe_state client T s).
Proof.
  intros (Hn & Hact & Hkeys). unfold spec_agrees; cbn [spec_next spec_subscriptions spec_apply].
  rewrite unsubscribe_state_heap_alter.
  rewrite (reg_view_active _ _ (unsubscribe_state_reg_view client T s)).
  split; [by rewrite length_alter|]. split.
  - intros x. rewrite Hact, lookup_alter.
    destruct (decide (client = x)) as [->|]; [|done].
    by rewrite fmap_is_Some.
  - intros x KS K. rewrite lookup_alter, list_lookup_alter.
    destruct (decide (client = x)) as [->|Hne].
    + destruct (spec_subscriptions H !! x) as [KS0|] eqn:Hx; [|done].
      intros [= <-] [HK Hold]%elem_of_filter.
      destruct (Hkeys _ _ _ Hx Hold) as (c & Hc & HT & Hw).
      rewrite Hc. eexists. split; [done|].
      cbn [subscriptions watched_coins set_subscriptions].
      split; [|done]. apply elem_of_difference. split; [done|].
      by intros ?%elem_of_singleton.
    + intros Hx HK. by apply (Hkeys x KS K).
Qed.

Lemma spec_agrees_disconnect H s client :
  reg_inv s → spec_agrees H s →
  spec_agrees {| spec_next := spec_next H;
                 spec_subscriptions :=
                   spec_apply (Disconnect client) (spec_subscriptions H) |}
              (disconnect_state client s).
Proof.
  intros Hreg (Hn & Hact & Hkeys). unfold spec_agrees; cbn [spec_next spec_subscriptions spec_apply].
  rewrite disconnect_state_heap, disconnect_state_active by done.
  split; [done|]. split.
  - intros x. rewrite list_elem_of_filter, Hact, lookup_delete.
    destruct (decide (client = x)) as [->|Hne].
    + split; [by intros [? _]|by intros [? ?]].
    + split; [by intros [_ ?]|by intros ?].
  - intros x KS K. rewrite lookup_delete.
    destruct (decide (client = x)); [done|]. apply Hkeys.
Qed.

Lemma spec_agrees_connect H s cid :
  reg_inv s → spec_agrees H s →
  spec_agrees {| spec_next := S (spec_next H);
                 spec_subscriptions := <[spec_next H := ∅]> (spec_subscriptions H) |}
              (connect_state cid s).
Proof.
  intros Hreg (Hn & Hact & Hkeys). unfold spec_agrees; cbn [spec_next spec_subscriptions].
  unfold connect_state. rewrite deliver_heap, deliver_active.
  cbn [heap active_connections set_heap set_active_connections set_sockets].
  rewrite Hn. split; [rewrite length_app; cbn; lia|]. split.
  - intros x. rewrite elem_of_app, list_elem_of_singleton, Hact, lookup_insert.
    destruct (decide (length (heap s) = x)) as [->|Hne].
    + split; [by eexists|by right].
    + split; [intros [?|?]; [done|congruence]|by left].
  - intros x KS K. rewrite lookup_insert.
    destruct (decide (length (heap s) = x)) as [Heq|Hne].
    + intros [= <-] HK. by apply elem_of_empty in HK.
    + intros Hx HK. destruct (Hkeys _ _ _ Hx HK) as (c & Hc & HT & Hw).
      exists c. split; [|done]. rewrite lookup_app_l; [done|].
      by eapply lookup_lt_Some.
Qed.

Lemma spec_agrees_same H s :
  spec_agrees H s →
  spec_agrees {| spec_next := spec_next H; spec_subscriptions := spec_subscriptions H |} s.
Proof. by destruct H. Qed.

Lemma spec_agrees_failure H s client e :
  reg_inv s → spec_agrees H s →
  spec_agrees {| spec_next := spec_next H;
                 spec_subscriptions := delete client (spec_subscriptions H) |}
              (endpoint_failure client e s).
Proof.
  intros Hreg Hs. unfold endpoint_failure.
  apply (spec_agrees_disconnect H _ client).
  - destruct e; [done|by apply (reg_inv_view s)..].
  - destruct e; [done|by apply (spec_agrees_ext H s)..].
Qed.

Lemma spec_agrees_receive H s client c r :
  reg_inv s → spec_agrees H s →
  heap s !! client = Some c →
  is_Some (spec_subscriptions H !! client) →
  spec_agrees (spec_step H (Receive client r)) (endpoint_state client (websocket c) r s).2.
Proof.
  intros Hreg Hs Hc [KS HKS]. cbn [spec_step]. rewrite HKS.
  unfold route_operation, endpoint_state.
  destruct r as [message| |]; cbn [snd];
    [|by apply spec_agrees_failure..].
  repeat (case_bool_decide; cbn [snd]).
  - destruct (SubscriptionType_call _); cbn [snd].
    + by apply spec_agrees_failure.
    + by apply spec_agrees_subscribe.
  - destruct (SubscriptionType_call _); cbn [snd].
    + by apply spec_agrees_failure.
    + by apply spec_agrees_unsubscribe.
  - apply (spec_agrees_ext H s); [apply deliver_heap|apply deliver_active|done].
  - apply (spec_agrees_ext H s); [apply deliver_heap|apply deliver_active|done].
  - done.
Qed.

Lemma spec_agrees_step H s o :
  reg_inv s → spec_agrees H s → spec_agrees (spec_step H o) (step_state o s).
Proof.
  intros Hreg Hs.
  destruct o as [cid|client T coins|client T|client|m T coin|coin u|client r|w e];
    cbn [step_state].
  - by apply spec_agrees_connect.
  - by apply spec_agrees_subscribe.
  - by apply spec_agrees_unsubscribe.
  - by apply spec_agrees_disconnect.
  - apply spec_agrees_same.
    apply (spec_agrees_ext H s); [apply publish_all_heap|apply publish_all_active|done].
  - apply spec_agrees_same.
    apply (spec_agrees_ext H s);
      [apply price_tick_state_heap
      |apply reg_view_active, price_tick_state_reg_view|done].
  - destruct (heap s !! client) as [c|] eqn:Hc.
    + destruct (bool_decide (client ∈ active_connections s)) eqn:Hin.
      * apply bool_decide_eq_true in Hin.
        apply spec_agrees_receive; [done..|]. by apply (proj1 (proj2 Hs)).
      * apply bool_decide_eq_false in Hin. cbn [spec_step].
        destruct (spec_subscriptions H !! client) eqn:Hx; [|done].
        exfalso. apply Hin, (proj1 (proj2 Hs)). by rewrite Hx.
    + cbn [spec_step].
      destruct (spec_subscriptions H !! client) eqn:Hx; [|done].
      exfalso. destruct Hreg as (Hlt & _).
      assert (client ∈ active_connections s) as Hin
        by (apply (proj1 (proj2 Hs)); by rewrite Hx).
      apply (proj1 (Forall_forall _ _) Hlt) in Hin.
      apply lookup_lt_is_Some in Hin. rewrite Hc in Hin. by destruct Hin.
  - by apply spec_agrees_same.
Qed.

Lemma spec_agrees_run ops : spec_agrees (spec_run ops) (run ops init).
Proof.
  induction ops as [|o ops IH] using rev_ind.
  - split; [done|]. split.
    + intros client. cbn. rewrite lookup_empty. split; [by intros ?%elem_of_nil|by intros []].
    + intros client KS K. cbn. by rewrite lookup_empty.
  - rewrite run_snoc. unfold spec_run. rewrite foldl_app. cbn [foldl].
    apply spec_agrees_step; [apply wf_run|exact IH].
Qed.

Lemma spec_subscribed_recipient ops client K c :
  heap (run ops init) !! client = Some c →
  spec_subscribed ops client K →
  recipient K.1 (feed_coin K) c = true.
Proof.
  intros Hc (KS & HKS & HK).
  destruct (spec_agrees_run ops) as (_ & _ & Hkeys).
  destruct (Hkeys _ _ _ HKS HK) as (c' & Hc' & HT & Hw).
  assert (c' = c) as -> by congruence.
  unfold recipient, feed_coin.
  rewrite bool_decide_eq_true_2 by done. cbn [andb].
  destruct (instrument_scoped K.1); [|done].
  cbn [str_truthy default]. rewrite (bool_decide_eq_true_2 (K.2 ∈ _)) by auto.
  apply orb_true_r.
Qed.

Lemma spec_subscribed_active ops client K :
  spec_subscribed ops client K → client ∈ active_connections (run ops init).
Proof.
  intros (KS & HKS & _). apply (proj1 (proj2 (spec_agrees_run ops))). by rewrite HKS.
Qed.

Lemma spec_subscribed_elem ops client K :
  spec_subscribed ops client K →
  K ∈ default ∅ (spec_subscriptions (spec_run ops) !! client).
Proof. by intros (KS & -> & HK). Qed.

(** C3, as worded, fails.  B subscribed to the price of "eth"; C
    subscribed to the price of "btc" and to the indicators of "eth", never
    to the price of "eth".  When the price of "eth" is published, C gets
    it as well. *)
Lemma C3_shared_watch_reaches_non_subscriber : ¬ fanout_claim.
Proof.
  intros Hclaim.
  destruct (Hclaim [Connect "C"; Connect "B";
                    Subscribe 0 PRICE_UPDATES ["btc"];
                    Subscribe 0 TECHNICAL_INDICATORS ["eth"];
                    Subscribe 1 PRICE_UPDATES ["eth"]]
                   eth_quote (PRICE_UPDATES, "eth") 0
                   {| client_id := "C"; websocket := 0;
                      subscriptions := {[PRICE_UPDATES; TECHNICAL_INDICATORS]};
                      watched_coins := {["btc"; "eth"]}; user_id := None |}
                   {| ws_fault := None;
                      ws_sent := [connection_established "C"
                                    (value <$> all_SubscriptionType);
                                  subscription_confirmed "price_updates"
                                    (Some ["btc"]);
                                  subscription_confirmed "technical_indicators"
                                    (Some (elements ({["btc"; "eth"]} : gset string)))] |})
    as [_ Hnot].
  - vm_compute. apply list_elem_of_here.
  - vm_compute; reflexivity.
  - vm_compute; reflexivity.
  - reflexivity.
  - assert (Hns : ¬ spec_subscribed
                      [Connect "C"; Connect "B";
                       Subscribe 0 PRICE_UPDATES ["btc"];
                       Subscribe 0 TECHNICAL_INDICATORS ["eth"];
                       Subscribe 1 PRICE_UPDATES ["eth"]] 0
                      (PRICE_UPDATES, "eth")).
    { intros HK%spec_subscribed_elem. vm_compute in HK. discriminate HK. }
    specialize (Hnot Hns). vm_compute in Hnot. discriminate Hnot.
Qed.

Lemma recipient_fields T coin c :
  recipient T coin c = true
  ↔ T ∈ subscriptions c
    ∧ match coin with
      | Some coin' => coin' = "" ∨ coin' ∈ watched_coins c
      | None => True
      end.
Proof.
  unfold recipient. rewrite andb_true_iff, bool_decide_eq_true.
  destruct coin as [coin'|]; cbn [str_truthy default negb orb]; [|tauto].
  rewrite orb_true_iff, negb_true_iff, negb_false_iff, !bool_decide_eq_true.
  tauto.
Qed.

(** C3 (amended).  After any history, publishing [message] for feed type
    [T] and [coin] hands the message once to the socket of every active
    connection that passes the filter of [broadcast_to_subscribers] (the
    socket keeps it when its transport works) and leaves the socket of
    every other active connection, and every socket of no active
    connection, as it was.  A connection passes the filter when [T] is in
    its subscriptions and the coin, if one is named, is among its watched
    coins, one set for all feed types.  Every connection that is subscribed
    to the feed key in the sense of the specification is active and passes
    the filter, so the update reaches it; the filter lets others pass as
    well, those that subscribed to [T] for other coins and watch this coin
    for another feed type. *)
Theorem C3_fanout (ops : list Op) (message : Message) (T : SubscriptionType)
    (coin : option string) (client : nat) (c : ClientSubscription) (sk : WebSocket) :
  let s := run ops init in
  let s' := exec (broadcast_to_subscribers message T coin) s in
  client ∈ active_connections s →
  heap s !! client = Some c →
  sockets s !! websocket c = Some sk →
  (recipient T coin c = true → sockets s' !! websocket c = Some (received message sk))
  ∧ (recipient T coin c = false → sockets s' !! websocket c = Some sk)
  ∧ (recipient T coin c = true
     ↔ T ∈ subscriptions c
       ∧ match coin with
         | Some coin' => coin' = "" ∨ coin' ∈ watched_coins c
         | None => True
         end)
  ∧ (∀ K, K.1 = T → feed_coin K = coin → spec_subscribed ops client K →
          sockets s' !! websocket c = Some (received message sk))
  ∧ (∀ client' K, spec_subscribed ops client' K → client' ∈ active_connections s)
  ∧ (∀ w, (∀ client' c', client' ∈ active_connections s →
                          heap s !! client' = Some c' → websocket c' ≠ w) →
          sockets s' !! w = sockets s !! w).
Proof.
  intros s s' Hin Hc Hsk.
  destruct (wf_run ops) as [(H1 & H2 & H3 & H4) _]. fold s in H1, H2, H3, H4.
  assert (Hone := publish_all_sockets_one message T coin (active_connections s) s
                    client c sk H2 H3 Hin Hc Hsk).
  unfold s'. rewrite broadcast_exec.
  split; [|split; [|split; [|split; [|split]]]].
  - intros Hr. by rewrite Hr in Hone.
  - intros Hr. by rewrite Hr in Hone.
  - apply recipient_fields.
  - intros K <- <- HK.
    by rewrite (spec_subscribed_recipient ops client K c Hc HK) in Hone.
  - intros client' K. apply spec_subscribed_active.
  - intros w Hw. apply publish_all_sockets_other.
    intros client' c' Hin' Hc' _. by eapply Hw.
Qed.

(** C3 at a concrete history: A and B watch the price of "btc", C that of
    "eth"; a price of "btc" is appended to the sockets of A and B and the
    socket of C stays as it was. *)
Lemma C3_fanout_witness :
  let ops := [Connect "A"; Connect "B"; Connect "C";
              Subscribe 0 PRICE_UPDATES ["btc"];
              Subscribe 1 PRICE_UPDATES ["btc"];
              Subscribe 2 PRICE_UPDATES ["eth"]] in
  let s := run ops init in
  let s' := exec (broadcast_to_subscribers btc_quote PRICE_UPDATES (Some "btc")) s in
  sockets s' !! 0
  = Some {| ws_fault := None;
            ws_sent := [connection_established "A" (value <$> all_SubscriptionType);
                        subscription_confirmed "price_updates" (Some ["btc"]);
                        btc_quote] |}
  ∧ sockets s' !! 1
    = Some {| ws_fault := None;
              ws_sent := [connection_established "B" (value <$> all_SubscriptionType);
                          subscription_confirmed "price_updates" (Some ["btc"]);
                          btc_quote] |}
  ∧ sockets s' !! 2 = sockets s !! 2.
Proof.
  intros ops s s'.
  pose (watcher := λ (name : string) (w : nat) (coin : string),
          {| client_id := name; websocket := w;
             subscriptions := {[PRICE_UPDATES]};
             watched_coins := {[coin]}; user_id := None |}).
  pose (socket := λ (name coin : string),
          {| ws_fault := None;
             ws_sent := [connection_established name
                           (value <$> all_SubscriptionType);
                         subscription_confirmed "price_updates" (Some [coin])] |}).
  split; [|split].
  - destruct (C3_fanout ops btc_quote PRICE_UPDATES (Some "btc") 0
                (watcher "A" 0 "btc") (socket "A" "btc")) as (Hyes & _).
    + vm_compute. apply list_elem_of_here.
    + vm_compute; reflexivity.
    + vm_compute; reflexivity.
    + apply Hyes. vm_compute; reflexivity.
  - destruct (C3_fanout ops btc_quote PRICE_UPDATES (Some "btc") 1
                (watcher "B" 1 "btc") (socket "B" "btc")) as (Hyes & _).
    + vm_compute. apply list_elem_of_further, list_elem_of_here.
    + vm_compute; reflexivity.
    + vm_compute; reflexivity.
    + apply Hyes. vm_compute; reflexivity.
  - destruct (C3_fanout ops btc_quote PRICE_UPDATES (Some "btc") 2
                (watcher "C" 2 "eth") (socket "C" "eth")) as (_ & Hno & _).
    + vm_compute. do 2 apply list_elem_of_further. apply list_elem_of_here.
    + vm_compute; reflexivity.
    + vm_compute; reflexivity.
    + etrans; [apply Hno; vm_compute; reflexivity|]. vm_compute; reflexivity.
Defined.
